(** * MailMind: conversational memory store and thread decision engine

    A shallow embedding of the parts of [gmail_agent.py],
    [memory/conversation_store.py] and [memory/memory_integration.py] that
    decide whether a thread is answered, and that maintain the entity /
    relationship / thread store.

    Conventions.
    - Python [str] is [string]; the text is taken to be ASCII, so that
      [str.lower] is the ASCII case map and code-point order is byte order.
    - Python [float] used for arithmetic (relationship strength) is IEEE-754
      binary64, through [SpecFloat]; [time.time()] readings are only ever
      compared, and are represented by integers that preserve their order.
    - A Python [dict] is an insertion-ordered association list ([Dict]).
    - Code that raises runs in the state-and-exception monad [M]. *)

From Stdlib Require Import ZArith List String Ascii Bool Lia Sorted Permutation.
From Stdlib Require Import Floats.SpecFloat DecimalString.
Import ListNotations.
Local Open Scope string_scope.

(* ================================================================== *)
(** * Strings *)
(* ================================================================== *)

Module Str.

Definition nl : string := String "010"%char EmptyString.

(** [str.lower] on ASCII text. *)
Definition lower_char (c : ascii) : ascii :=
  let n := nat_of_ascii c in
  if andb (65 <=? n)%nat (n <=? 90)%nat then ascii_of_nat (n + 32) else c.

Fixpoint lower (s : string) : string :=
  match s with
  | EmptyString => EmptyString
  | String c s' => String (lower_char c) (lower s')
  end.

(** [s.replace(a, b)] for one-character [a] and [b]. *)
Fixpoint replace_char (a b : ascii) (s : string) : string :=
  match s with
  | EmptyString => EmptyString
  | String c s' =>
      String (if Ascii.eqb c a then b else c) (replace_char a b s')
  end.

(** Characters removed by [str.strip()]. *)
Definition is_space (c : ascii) : bool :=
  let n := nat_of_ascii c in
  orb (n =? 32)%nat
      (orb (andb (9 <=? n)%nat (n <=? 13)%nat)
           (andb (28 <=? n)%nat (n <=? 31)%nat)).

Fixpoint lstrip (s : string) : string :=
  match s with
  | EmptyString => EmptyString
  | String c s' => if is_space c then lstrip s' else s
  end.

Fixpoint rstrip (s : string) : string :=
  match s with
  | EmptyString => EmptyString
  | String c s' =>
      match rstrip s' with
      | EmptyString => if is_space c then EmptyString else String c EmptyString
      | r => String c r
      end
  end.

Definition strip (s : string) : string := rstrip (lstrip s).

(** [sub in s]. *)
Fixpoint contains (sub s : string) : bool :=
  orb (String.prefix sub s)
      (match s with
       | EmptyString => false
       | String _ s' => contains sub s'
       end).

(** Truthiness of a string: [if s:]. *)
Definition nonempty (s : string) : bool :=
  match s with EmptyString => false | _ => true end.

(** [min(a, b)] and [max(a, b)] on strings: the first argument wins ties. *)
Definition min (a b : string) : string := if String.ltb b a then b else a.
Definition max (a b : string) : string := if String.ltb a b then b else a.

Definition of_nat (n : nat) : string :=
  NilEmpty.string_of_uint (Nat.to_uint n).

Definition upper_char (c : ascii) : ascii :=
  let n := nat_of_ascii c in
  if andb (97 <=? n)%nat (n <=? 122)%nat then ascii_of_nat (n - 32) else c.

(** [s.capitalize()] *)
Definition capitalize (s : string) : string :=
  match s with
  | EmptyString => EmptyString
  | String c s' => String (upper_char c) (lower s')
  end.

(** [s.split(c)] for a one-character separator. *)
Fixpoint split_on (c : ascii) (s : string) : list string :=
  match s with
  | EmptyString => [EmptyString]
  | String a s' =>
      if Ascii.eqb a c then EmptyString :: split_on c s'
      else match split_on c s' with
           | [] => [String a EmptyString]
           | h :: t => String a h :: t
           end
  end.

(** [s.endswith(suffix)] *)
Definition ends_with (suffix s : string) : bool :=
  andb (String.length suffix <=? String.length s)%nat
       (String.eqb (substring (String.length s - String.length suffix)
                              (String.length suffix) s)
                   suffix).

(** [sep.join(l)] *)
Definition join (sep : string) (l : list string) : string :=
  String.concat sep l.

End Str.

(* ================================================================== *)
(** * The mailbox as the agent sees it ([gmail_agent.py]) *)
(* ================================================================== *)

Module Gmail.

Record Header := mkHeader { name : string; value : string }.

(** A message resource of the Gmail API, restricted to the keys the agent
    reads.  [internalDate] is absent when the key is missing, in which case
    the code reads it as [0]. *)
Record Message := mkMessage {
  id : string;
  threadId : string;
  labelIds : list string;
  internalDate : option Z;
  headers : list Header;
  snippet : string
}.

(** [int(x.get('internalDate', 0))] *)
Definition date_key (x : Message) : Z :=
  match internalDate x with Some d => d | None => 0%Z end.

(** [messages.sort(key=..., reverse=True)]: a stable sort, newest first;
    messages with equal keys keep their listing order. *)
Fixpoint insert_newest_first (x : Message) (l : list Message) : list Message :=
  match l with
  | [] => [x]
  | y :: l' =>
      if (date_key y <=? date_key x)%Z then x :: l
      else y :: insert_newest_first x l'
  end.

Definition sort_newest_first (l : list Message) : list Message :=
  fold_right insert_newest_first [] l.

Definition has_label (l : string) (m : Message) : bool :=
  existsb (String.eqb l) (labelIds m).

(** [header.get('name', '').lower() == 'from'] *)
Definition is_from (h : Header) : bool :=
  String.eqb (Str.lower (name h)) "from".

(** The markers by which [get_latest_message_in_thread] recognises the
    agent's own mail. *)
Definition agent_markers : list string := ["me@"; "your.email@"; "sofia"].

(** The markers used by [has_been_replied_to_by_agent]. *)
Definition reply_markers : list string := ["me@"; "your.email@"].

Definition from_matches (markers : list string) (m : Message) : bool :=
  existsb (fun h =>
             andb (is_from h)
                  (existsb (fun k => Str.contains k (Str.lower (value h)))
                           markers))
          (headers m).

(** What the function prints as its "Reason". *)
Record Reason := mkReason {
  has_unread : bool;
  is_recent : bool;
  is_starred : bool
}.

(** The body of [get_latest_message_in_thread] once the thread's message
    list has been fetched; [current_time] is [int(time.time() * 1000)]. *)
Definition latest_message_decision (current_time : Z) (messages : list Message)
  : option Message * bool * option Reason :=
  let messages := sort_newest_first messages in
  match messages with
  | [] => (None, false, None)
  | latest_message :: _ =>
      if from_matches agent_markers latest_message
      then (Some latest_message, false, None)
      else
        let has_unread := existsb (has_label "UNREAD") messages in
        let time_diff := (current_time - date_key latest_message)%Z in
        let is_recent := (time_diff <? 86400000)%Z in
        let should_process := has_unread in
        (Some latest_message, should_process,
         Some (mkReason has_unread is_recent
                        (has_label "STARRED" latest_message)))
  end.

(** The body of [has_been_replied_to_by_agent] once the thread's message
    list has been fetched. *)
Definition replied_decision (messages : list Message) : bool :=
  let messages := sort_newest_first messages in
  if (List.length messages <=? 1)%nat then false
  else
    match messages with
    | [] => false
    | latest_message :: _ => from_matches reply_markers latest_message
    end.

(** ** The mailbox collaborator *)

Record Mailbox := mkMailbox {
  messages : list Message;
  (** [From] header Gmail writes on mail sent by the authenticated user *)
  account : string
}.

Definition find_message (mb : Mailbox) (message_id : string) : option Message :=
  find (fun m => String.eqb (id m) message_id) (messages mb).

Definition thread_messages (mb : Mailbox) (thread_id : string) : list Message :=
  filter (fun m => String.eqb (threadId m) thread_id) (messages mb).

(** A failed API call raises, and the [except] clause answers
    [(None, False)]. *)
Definition get_latest_message_in_thread (mb : Mailbox) (current_time : Z)
           (message_id : string) : option Message * bool :=
  match find_message mb message_id with
  | None => (None, false)
  | Some message =>
      fst (latest_message_decision current_time
             (thread_messages mb (threadId message)))
  end.

Definition has_been_replied_to_by_agent (mb : Mailbox) (message_id : string)
  : bool :=
  match find_message mb message_id with
  | None => false
  | Some message => replied_decision (thread_messages mb (threadId message))
  end.

(** ** Sending and un-starring *)

Definition header_values (n : string) (m : Message) : list string :=
  map value
      (filter (fun h => String.eqb (Str.lower (name h)) n) (headers m)).

(** The loop over the headers keeps the last value seen for a name. *)
Definition last_header (n : string) (m : Message) : option string :=
  last (map Some (header_values n m)) None.

(** [for header in headers: if ... == 'to': ...; break] *)
Definition first_header (n : string) (m : Message) : option string :=
  hd_error (header_values n m).

Definition reply_subject (original_message : Message) : string :=
  match last_header "subject" original_message with
  | None => "Re: Email"
  | Some subject_value =>
      if String.prefix "re:" (Str.lower subject_value) then subject_value
      else "Re: " ++ subject_value
  end.

Definition reply_recipient (original_message : Message) : option string :=
  if has_label "SENT" original_message
  then first_header "to" original_message
  else last_header "from" original_message.

(** Threading headers written by [create_email_reply]. *)
Definition threading_headers (original_message : Message) : list Header :=
  match last_header "message-id" original_message with
  | Some message_id_header =>
      if Str.nonempty message_id_header then
        [mkHeader "References"
           (match last_header "references" original_message with
            | Some references_header =>
                if Str.nonempty references_header
                then references_header ++ " " ++ message_id_header
                else message_id_header
            | None => message_id_header
            end);
         mkHeader "In-Reply-To" message_id_header]
      else []
  | None => []
  end.

Definition newest_date (mb : Mailbox) : Z :=
  fold_right (fun m acc => Z.max (date_key m) acc) 0%Z (messages mb).

(** What the mailbox holds after [messages().send]: the reply is filed in
    the thread under a fresh id, with the account as its sender, the [SENT]
    label and a date later than every message already there. *)
Definition deliver (mb : Mailbox) (thread_id to subject body : string)
           (extra : list Header) : Mailbox :=
  let sent :=
    mkMessage ("sent" ++ Str.of_nat (List.length (messages mb)))
              thread_id ["SENT"] (Some (newest_date mb + 1)%Z)
              (mkHeader "From" (account mb) :: mkHeader "to" to
                 :: mkHeader "subject" subject :: extra)
              body in
  mkMailbox (messages mb ++ [sent]) (account mb).

(** [send_reply]: [None] when the original message cannot be fetched (the
    call raises), otherwise the returned flag and the mailbox. *)
Definition send_reply (mb : Mailbox) (message_id reply_content : string)
  : option (bool * Mailbox) :=
  match find_message mb message_id with
  | None => None
  | Some original_message =>
      match reply_recipient original_message with
      | None => Some (false, mb)
      | Some to_email =>
          if Str.nonempty to_email
          then Some (true,
                     deliver mb (threadId original_message) to_email
                             (reply_subject original_message) reply_content
                             (threading_headers original_message))
          else Some (false, mb)
      end
  end.

(** [remove_star_from_email]: [removeLabelIds: ['STARRED']] on one message. *)
Definition remove_star_from_email (mb : Mailbox) (message_id : string)
  : Mailbox :=
  mkMailbox
    (map (fun m =>
            if String.eqb (id m) message_id
            then mkMessage (id m) (threadId m)
                           (filter (fun l => negb (String.eqb l "STARRED"))
                                   (labelIds m))
                           (internalDate m) (headers m) (snippet m)
            else m)
         (messages mb))
    (account mb).

(** [fetch_starred_emails]: at most ten messages carrying [STARRED]. *)
Definition fetch_starred_emails (mb : Mailbox) : list Message :=
  firstn 10 (filter (has_label "STARRED") (messages mb)).

(** ** The main loop *)

Section Agent.

(** The language model call on the prompt built around the e-mail's
    content; [None] is [asyncio.TimeoutError]. *)
Variable generate_response : string -> option string.
(** [extract_email_content] (base64, HTML clean-up). *)
Variable extract_email_content : Message -> string.
Variable current_time : Z.

(** One iteration of [for email in starred_emails]; the state is the
    mailbox and [sent_replies]. *)
Definition process_starred_email (st : Mailbox * nat) (email_id : string)
  : Mailbox * nat :=
  let '(mb, sent_replies) := st in
  match get_latest_message_in_thread mb current_time email_id with
  | (None, _) => st
  | (Some latest_message, should_process) =>
      let latest_message_id := id latest_message in
      if negb should_process then st
      else if has_been_replied_to_by_agent mb latest_message_id
      then (remove_star_from_email mb email_id, sent_replies)
      else
        let email_content := extract_email_content latest_message in
        if negb (Str.nonempty email_content) then st
        else
          match generate_response email_content with
          | None => st
          | Some reply =>
              match send_reply mb latest_message_id reply with
              | None => st
              | Some (_, mb') =>
                  (remove_star_from_email mb' email_id, S sent_replies)
              end
          end
  end.

Definition main (mb : Mailbox) : Mailbox * nat :=
  fold_left process_starred_email
            (map id (fetch_starred_emails mb)) (mb, O).

End Agent.

(** What [remove_star_from_email] does to one message. *)
Definition unstar (message_id : string) (m : Message) : Message :=
  if String.eqb (id m) message_id
  then mkMessage (id m) (threadId m)
                 (filter (fun l => negb (String.eqb l "STARRED")) (labelIds m))
                 (internalDate m) (headers m) (snippet m)
  else m.

(** The order produced by the sort. *)
Definition newest_first (l : list Message) : Prop :=
  StronglySorted (fun a b => (date_key b <= date_key a)%Z) l.

(** ** Concrete mailboxes *)

(** A thread whose only message was sent by the agent. *)
Definition lone_agent_mailbox : Mailbox :=
  mkMailbox
    [mkMessage "s1" "t9" ["SENT"] (Some 500%Z)
               [mkHeader "From" "me@yourdomain.com";
                mkHeader "To" "carol@corp.example"]
               "Following up on our call."]
    "me@yourdomain.com".

Definition alice_first : Message :=
  mkMessage "a1" "t1" ["INBOX"; "UNREAD"; "STARRED"] (Some 1000%Z)
            [mkHeader "From" "Alice <alice@corp.example>";
             mkHeader "To" "bob@example.com";
             mkHeader "Subject" "Quarterly report";
             mkHeader "Message-ID" "<a1@corp.example>"]
            "Could you send the quarterly report?".

Definition alice_second : Message :=
  mkMessage "a2" "t1" ["INBOX"; "UNREAD"; "STARRED"] (Some 2000%Z)
            [mkHeader "From" "Alice <alice@corp.example>";
             mkHeader "To" "bob@example.com";
             mkHeader "Subject" "Re: Quarterly report";
             mkHeader "Message-ID" "<a2@corp.example>"]
            "Also the budget sheet, thanks.".

(** The mailbox of an account whose address carries none of the markers. *)
Definition bob_mailbox : Mailbox :=
  mkMailbox [alice_first] "Bob <bob@example.com>".

Definition bob_mailbox_two_starred : Mailbox :=
  mkMailbox [alice_first; alice_second] "Bob <bob@example.com>".

Definition canned_reply (email_content : string) : option string :=
  Some "Thank you, I will take care of it.".

Definition bob_reply : Message :=
  mkMessage "sent1" "t1" ["SENT"] (Some 1001%Z)
            [mkHeader "From" "Bob <bob@example.com>";
             mkHeader "to" "Alice <alice@corp.example>";
             mkHeader "subject" "Re: Quarterly report";
             mkHeader "References" "<a1@corp.example>";
             mkHeader "In-Reply-To" "<a1@corp.example>"]
            "Thank you, I will take care of it.".

(** A starred, unread message that arrived without a From header. *)
Definition nameless_mailbox : Mailbox :=
  mkMailbox
    [mkMessage "n1" "t5" ["INBOX"; "UNREAD"; "STARRED"] (Some 700%Z)
               [mkHeader "To" "sofia@yourdomain.com";
                mkHeader "Subject" "Invoice"]
               "Please find the invoice attached."]
    "Sofia <sofia@yourdomain.com>".

Definition alice_first_unstarred : Message :=
  mkMessage "a1" "t1" ["INBOX"; "UNREAD"] (Some 1000%Z)
            (headers alice_first) (snippet alice_first).

(** A third message of Alice, with the same [internalDate] as her second. *)
Definition alice_third : Message :=
  mkMessage "a3" "t1" ["INBOX"; "UNREAD"] (Some 2000%Z)
            [mkHeader "From" "Alice <alice@corp.example>";
             mkHeader "To" "bob@example.com";
             mkHeader "Subject" "Re: Quarterly report";
             mkHeader "Message-ID" "<a3@corp.example>"]
            "Sorry, one more thing.".

(** Unread mail from two outside senders, in the mailbox of
    bob@example.com. *)
Definition jaime_first : Message :=
  mkMessage "j1" "t2" ["INBOX"; "UNREAD"; "STARRED"] (Some 3000%Z)
            [mkHeader "From" "Jaime <jaime@corp.example>";
             mkHeader "To" "bob@example.com";
             mkHeader "Subject" "Invoice"]
            "Could you check the invoice?".

Definition rossi_first : Message :=
  mkMessage "r1" "t3" ["INBOX"; "UNREAD"; "STARRED"] (Some 4000%Z)
            [mkHeader "From" "Sofia Rossi <s.rossi@corp.example>";
             mkHeader "To" "bob@example.com";
             mkHeader "Subject" "Contract"]
            "Could you sign the contract?".

(** Bob's mailbox after his reply to Alice, with the unread mail of the two
    outside senders. *)
Definition bob_mailbox_later : Mailbox :=
  mkMailbox [alice_first_unstarred; bob_reply; jaime_first; rossi_first]
            "Bob <bob@example.com>".

End Gmail.

(* ================================================================== *)
(** * Python dictionaries with string keys *)
(* ================================================================== *)

Module Dict.

(** Entries in insertion order; [set] keeps the position of a key that is
    already present and appends a new one, as [d[k] = v] does. *)
Definition t (V : Type) : Type := list (string * V).

Section Ops.
Context {V : Type}.

Fixpoint get (k : string) (d : t V) : option V :=
  match d with
  | [] => None
  | (k', v) :: d' => if String.eqb k' k then Some v else get k d'
  end.

(** [k in d] *)
Definition mem (k : string) (d : t V) : bool :=
  match get k d with Some _ => true | None => false end.

Fixpoint set (k : string) (v : V) (d : t V) : t V :=
  match d with
  | [] => [(k, v)]
  | (k', v') :: d' =>
      if String.eqb k' k then (k, v) :: d' else (k', v') :: set k v d'
  end.

Definition keys (d : t V) : list string := map fst d.
Definition values (d : t V) : list V := map snd d.

(** A dictionary holds a key once. *)
Definition wf (d : t V) : Prop := NoDup (keys d).

End Ops.

End Dict.

(* ================================================================== *)
(** * binary64 arithmetic for [Relationship.strength] *)
(* ================================================================== *)

Module F64.

Definition prec : Z := 53.
Definition emax : Z := 1024.

Definition add : spec_float -> spec_float -> spec_float := SFadd prec emax.
Definition ltb : spec_float -> spec_float -> bool := SFltb.
Definition leb : spec_float -> spec_float -> bool := SFleb.

(** The literals [0.0], [0.1] and [1.0]. *)
Definition zero : spec_float := S754_zero false.
Definition tenth : spec_float := S754_finite false 7205759403792794 (-56).
Definition one : spec_float := S754_finite false 4503599627370496 (-52).

(** [min(a, b)] on floats: [b] only when [b < a]. *)
Definition min (a b : spec_float) : spec_float := if ltb b a then b else a.

End F64.

(* ================================================================== *)
(** * The conversation memory store ([memory/conversation_store.py]) *)
(* ================================================================== *)

Module Memory.

Record Entity := mkEntity {
  name : string;
  type : string;
  aliases : list string;                 (** a set *)
  metadata : list (string * string);
  first_seen : Z;
  last_seen : Z
}.

Record Relationship := mkRelationship {
  entity1_id : string;
  entity2_id : string;
  relationship_type : string;
  strength : spec_float;
  rel_metadata : list (string * string);
  rel_first_seen : Z;
  rel_last_seen : Z
}.

Record ConversationMessage := mkConversationMessage {
  message_id : string;
  msg_thread_id : string;
  sender : string;
  recipients : list string;
  msg_subject : string;
  content : string;
  timestamp : Z;
  is_from_agent : bool;
  msg_entities : list string
}.

Record ConversationThread := mkConversationThread {
  thread_id : string;
  subject : string;
  participants : list string;            (** a set *)
  messages : list ConversationMessage;
  last_updated : Z;
  topics : list string
}.

(** The store, together with the number of [time.time()] readings taken so
    far. *)
Record ConversationMemoryStore := mkStore {
  entities : Dict.t Entity;
  relationships : Dict.t Relationship;
  threads : Dict.t ConversationThread;
  reads : nat
}.

Definition empty_store : ConversationMemoryStore := mkStore [] [] [] 0.

(** ** Exceptions and the monad *)

Inductive exn : Type :=
| ValueError (msg : string)
| TypeError (msg : string)
| ReError (msg : string).

Inductive result (A : Type) : Type :=
| Ok (a : A)
| Raise (e : exn).
Arguments Ok {A} a.
Arguments Raise {A} e.

Definition M (A : Type) : Type :=
  ConversationMemoryStore -> result A * ConversationMemoryStore.

Definition ret {A} (a : A) : M A := fun st => (Ok a, st).

Definition bind {A B} (c : M A) (k : A -> M B) : M B :=
  fun st =>
    match c st with
    | (Ok a, st') => k a st'
    | (Raise e, st') => (Raise e, st')
    end.

Definition raise {A} (e : exn) : M A := fun st => (Raise e, st).

(** [try: c except Exception: h] *)
Definition try_except {A} (c : M A) (h : exn -> M A) : M A :=
  fun st =>
    match c st with
    | (Ok a, st') => (Ok a, st')
    | (Raise e, st') => h e st'
    end.

Definition get_store : M ConversationMemoryStore := fun st => (Ok st, st).

Declare Scope monad_scope.
Delimit Scope monad_scope with monad.
Notation "x <- c ;; k" := (bind c (fun x => k))
  (at level 61, c at next level, right associativity) : monad_scope.
Notation "c ;;; k" := (bind c (fun _ => k))
  (at level 61, right associativity) : monad_scope.
Local Open Scope monad_scope.

Fixpoint for_each {A} (l : list A) (body : A -> M unit) : M unit :=
  match l with
  | [] => ret tt
  | x :: l' => body x ;;; for_each l' body
  end.

(** A computation that returns normally from every store, and one that
    raises [e] from every store. *)
Definition never_raises {A} (c : M A) : Prop :=
  forall st, exists a, fst (c st) = Ok a.

Definition always_raises {A} (e : exn) (c : M A) : Prop :=
  forall st, fst (c st) = Raise e.

(** [c], started in a store satisfying [P], returns a value and a store
    satisfying [Q]. *)
Definition returns_with {A} (P : ConversationMemoryStore -> Prop) (c : M A)
           (Q : A -> ConversationMemoryStore -> Prop) : Prop :=
  forall st, P st -> exists a st', c st = (Ok a, st') /\ Q a st'.

(** Every id of the list names a stored entity. *)
Definition holds_entities (ids : list string) (st : ConversationMemoryStore)
  : Prop :=
  forall id, In id ids -> Dict.mem id (entities st) = true.

(** [s.add(x)] on a set kept as a duplicate-free list. *)
Definition set_add (x : string) (s : list string) : list string :=
  if existsb (String.eqb x) s then s else s ++ [x].

(** [set(l)] *)
Definition set_of_list (l : list string) : list string :=
  fold_left (fun s x => set_add x s) l [].

Definition set_entities (d : Dict.t Entity) : M unit :=
  fun st => (Ok tt, mkStore d (relationships st) (threads st) (reads st)).
Definition set_relationships (d : Dict.t Relationship) : M unit :=
  fun st => (Ok tt, mkStore (entities st) d (threads st) (reads st)).
Definition set_threads (d : Dict.t ConversationThread) : M unit :=
  fun st => (Ok tt, mkStore (entities st) (relationships st) d (reads st)).

Definition put_entity (k : string) (e : Entity) : M unit :=
  fun st => set_entities (Dict.set k e (entities st)) st.
Definition put_relationship (k : string) (r : Relationship) : M unit :=
  fun st => set_relationships (Dict.set k r (relationships st)) st.
Definition put_thread (k : string) (th : ConversationThread) : M unit :=
  fun st => set_threads (Dict.set k th (threads st)) st.

(** ** Entities and relationships *)

Definition update_seen (e : Entity) (now : Z) : Entity :=
  mkEntity (name e) (type e) (aliases e) (metadata e) (first_seen e) now.

Definition add_alias (e : Entity) (alias : string) : Entity :=
  if andb (Str.nonempty alias) (Str.nonempty (Str.strip alias))
  then mkEntity (name e) (type e) (set_add (Str.strip alias) (aliases e))
                (metadata e) (first_seen e) (last_seen e)
  else e.

Definition matches (e : Entity) (text : string) : bool :=
  let text := Str.lower text in
  orb (Str.contains (Str.lower (name e)) text)
      (existsb (fun alias => Str.contains (Str.lower alias) text) (aliases e)).

Definition rel_update_seen (r : Relationship) (now : Z) : Relationship :=
  mkRelationship (entity1_id r) (entity2_id r) (relationship_type r)
                 (strength r) (rel_metadata r) (rel_first_seen r) now.

(** [strengthen(amount=0.1)] *)
Definition strengthen (r : Relationship) (amount : spec_float) : Relationship :=
  mkRelationship (entity1_id r) (entity2_id r) (relationship_type r)
                 (F64.min F64.one (F64.add (strength r) amount))
                 (rel_metadata r) (rel_first_seen r) (rel_last_seen r).

(** [f"{entity_type}_{name.lower().replace(' ', '_')}"] *)
Definition entity_key (name entity_type : string) : string :=
  entity_type ++ "_" ++ Str.replace_char " " "_" (Str.lower name).

(** [f"{min(entity1_id, entity2_id)}_{max(entity1_id, entity2_id)}_{relationship_type}"] *)
Definition relationship_key (entity1_id entity2_id relationship_type : string)
  : string :=
  Str.min entity1_id entity2_id ++ "_" ++ Str.max entity1_id entity2_id
    ++ "_" ++ relationship_type.

Section Store.

(** The successive values returned by [time.time()]. *)
Variable clock : nat -> Z.

Definition time : M Z :=
  fun st =>
    (Ok (clock (reads st)),
     mkStore (entities st) (relationships st) (threads st) (S (reads st))).

Definition add_entity (name entity_type : string)
           (aliases : option (list string)) : M string :=
  let entity_id := entity_key name entity_type in
  st <- get_store ;;
  match Dict.get entity_id (entities st) with
  | Some e =>
      now <- time ;;
      let e := update_seen e now in
      let e := match aliases with
               | Some (a :: l) => fold_left add_alias (a :: l) e
               | _ => e
               end in
      put_entity entity_id e ;;; ret entity_id
  | None =>
      first <- time ;;
      last <- time ;;
      let entity :=
        mkEntity name entity_type
                 (match aliases with
                  | Some (a :: l) => set_of_list (a :: l)
                  | _ => []
                  end)
                 [] first last in
      put_entity entity_id entity ;;; ret entity_id
  end.

Definition add_relationship (entity1_id entity2_id relationship_type : string)
  : M string :=
  st <- get_store ;;
  if orb (negb (Dict.mem entity1_id (entities st)))
         (negb (Dict.mem entity2_id (entities st)))
  then raise (ValueError
                "Both entities must exist before creating a relationship")
  else
    let rel_id := relationship_key entity1_id entity2_id relationship_type in
    match Dict.get rel_id (relationships st) with
    | Some r =>
        now <- time ;;
        put_relationship rel_id
          (strengthen (rel_update_seen r now) F64.tenth) ;;;
        ret rel_id
    | None =>
        first <- time ;;
        last <- time ;;
        put_relationship rel_id
          (mkRelationship entity1_id entity2_id relationship_type
                          F64.zero [] first last) ;;;
        ret rel_id
    end.

(** ** Threads and messages *)

Definition add_thread (thread_id subject : string) : M ConversationThread :=
  st <- get_store ;;
  match Dict.get thread_id (threads st) with
  | Some th =>
      now <- time ;;
      let th := mkConversationThread (Memory.thread_id th) (Memory.subject th)
                  (participants th) (messages th) now (topics th) in
      put_thread thread_id th ;;; ret th
  | None =>
      now <- time ;;
      let th := mkConversationThread thread_id subject [] [] now [] in
      put_thread thread_id th ;;; ret th
  end.

(** [ConversationThread.add_message] *)
Definition thread_add_message (th : ConversationThread)
           (message : ConversationMessage) (now : Z) : ConversationThread :=
  mkConversationThread (thread_id th) (subject th)
    (fold_left (fun s r => set_add r s) (recipients message)
               (set_add (sender message) (participants th)))
    (messages th ++ [message]) now (topics th).

Fixpoint scan_entities (items : list (string * Entity)) (text : string)
  : M (list string) :=
  match items with
  | [] => ret []
  | (entity_id, entity) :: rest =>
      if matches entity text then
        now <- time ;;
        put_entity entity_id (update_seen entity now) ;;;
        ids <- scan_entities rest text ;;
        ret (entity_id :: ids)
      else scan_entities rest text
  end.

Definition extract_entities_from_text (text : string) : M (list string) :=
  st <- get_store ;;
  scan_entities (entities st) text.

(** Writing the JSON document; a failure is printed and otherwise
    ignored, and the store in memory is not touched. *)
Definition save : M unit := ret tt.

Definition add_message (message_id thread_id sender : string)
           (recipients : list string) (subject content : string)
           (is_from_agent : bool) : M ConversationMessage :=
  thread <- add_thread thread_id subject ;;
  timestamp <- time ;;
  entity_ids <- extract_entities_from_text content ;;
  let message :=
    mkConversationMessage message_id thread_id sender recipients subject
                          content timestamp is_from_agent entity_ids in
  now <- time ;;
  put_thread thread_id (thread_add_message thread message now) ;;;
  save ;;;
  ret message.

(** ** Reading the store *)

Record RelatedEntity := mkRelatedEntity {
  rel_entity_id : string;
  rel_name : string;
  rel_type : string;
  relationship : string;
  rel_strength : spec_float
}.

Record EntityInfo := mkEntityInfo {
  info_id : string;
  info_name : string;
  info_type : string;
  info_aliases : list string;
  info_first_seen : Z;
  info_last_seen : Z;
  related_entities : list RelatedEntity
}.

Definition related_to (st : ConversationMemoryStore) (entity_id : string)
           (rel : Relationship) : list RelatedEntity :=
  let other (other_entity_id : string) :=
    match Dict.get other_entity_id (entities st) with
    | Some o => [mkRelatedEntity other_entity_id (name o) (type o)
                                 (relationship_type rel) (strength rel)]
    | None => []
    end in
  if String.eqb (entity1_id rel) entity_id then other (entity2_id rel)
  else if String.eqb (entity2_id rel) entity_id then other (entity1_id rel)
  else [].

(** [get_entity_info]; [None] is the empty dictionary. *)
Definition get_entity_info (st : ConversationMemoryStore) (entity_id : string)
  : option EntityInfo :=
  match Dict.get entity_id (entities st) with
  | None => None
  | Some entity =>
      Some (mkEntityInfo entity_id (name entity) (type entity)
              (aliases entity) (first_seen entity) (last_seen entity)
              (flat_map (related_to st entity_id)
                        (Dict.values (relationships st))))
  end.

Definition common_topics : list string :=
  ["meeting"; "project"; "deadline"; "report"; "question"; "help";
   "issue"; "problem"; "update"; "request"; "information"].

Definition analyze_thread_topics (thread_id : string) : M (list string) :=
  st <- get_store ;;
  match Dict.get thread_id (threads st) with
  | None => ret []
  | Some thread =>
      let all_content := Str.join " " (map content (messages thread)) in
      let topics :=
        filter (fun topic => Str.contains topic (Str.lower all_content))
               common_topics in
      put_thread thread_id
        (mkConversationThread (Memory.thread_id thread) (subject thread)
           (participants thread) (messages thread) (last_updated thread)
           topics) ;;;
      ret topics
  end.

(** ** Sequences of calls on a store *)

Inductive op : Type :=
| AddEntity (name entity_type : string) (aliases : option (list string))
| AddRelationship (entity1_id entity2_id relationship_type : string)
| AddThread (thread_id subject : string)
| AddMessage (message_id thread_id sender : string)
             (recipients : list string) (subject content : string)
             (is_from_agent : bool)
| ExtractEntitiesFromText (text : string)
| AnalyzeThreadTopics (thread_id : string).

Definition run_op (o : op) : M unit :=
  match o with
  | AddEntity name entity_type aliases =>
      add_entity name entity_type aliases ;;; ret tt
  | AddRelationship entity1_id entity2_id relationship_type =>
      add_relationship entity1_id entity2_id relationship_type ;;; ret tt
  | AddThread thread_id subject =>
      add_thread thread_id subject ;;; ret tt
  | AddMessage message_id thread_id sender recipients subject content
               is_from_agent =>
      add_message message_id thread_id sender recipients subject content
                  is_from_agent ;;; ret tt
  | ExtractEntitiesFromText text =>
      extract_entities_from_text text ;;; ret tt
  | AnalyzeThreadTopics thread_id =>
      analyze_thread_topics thread_id ;;; ret tt
  end.

(** The store after a sequence of calls; a call that raises leaves the
    store as it was when the exception left it. *)
Definition run_ops (ops : list op) (st : ConversationMemoryStore)
  : ConversationMemoryStore :=
  fold_left (fun st o => snd (run_op o st)) ops st.

(** Stores built from the empty one through the store's own methods. *)
Definition reachable (st : ConversationMemoryStore) : Prop :=
  exists ops, st = run_ops ops empty_store.

End Store.

(** The messages filed under a thread id; none when the id is unknown. *)
Definition messages_of (st : ConversationMemoryStore) (thread_id : string)
  : list ConversationMessage :=
  match Dict.get thread_id (threads st) with
  | Some th => messages th
  | None => []
  end.

(** The aliases passed to a call, [None] standing for none. *)
Definition given_aliases (al : option (list string)) : list string :=
  match al with Some l => l | None => [] end.

(** The values [strength] takes: [0.0] and its successive images under
    [strengthen()]. *)
Definition strength_step (s : spec_float) : spec_float :=
  F64.min F64.one (F64.add s F64.tenth).

Definition strength_levels : list spec_float :=
  Eval vm_compute in
    (fix levels (n : nat) (s : spec_float) : list spec_float :=
       match n with
       | O => [s]
       | S n' => s :: levels n' (strength_step s)
       end) 11%nat F64.zero.

Definition in_unit_interval (s : spec_float) : Prop :=
  F64.leb F64.zero s = true /\ F64.leb s F64.one = true.

(** Every stored strength is one of the levels. *)
Definition strengths_on_levels (st : ConversationMemoryStore) : Prop :=
  forall k r, Dict.get k (relationships st) = Some r ->
              In (strength r) strength_levels.

(** In every thread the timestamps do not decrease along the list of
    messages, and none is later than the next reading of the clock. *)
Definition timestamps_in_order (clock : nat -> Z)
           (st : ConversationMemoryStore) : Prop :=
  forall id,
    StronglySorted Z.le (map timestamp (messages_of st id))
    /\ Forall (fun m => (timestamp m <= clock (reads st))%Z)
              (messages_of st id).

(** A clock that never goes back. *)
Definition monotone (clock : nat -> Z) : Prop :=
  forall i j, (i <= j)%nat -> (clock i <= clock j)%Z.

(** ** The context summary *)

(** [sorted(self.messages, key=lambda m: m.timestamp)]: stable, oldest
    first. *)
Fixpoint insert_by_timestamp (m : ConversationMessage)
         (l : list ConversationMessage) : list ConversationMessage :=
  match l with
  | [] => [m]
  | y :: l' =>
      if (timestamp m <=? timestamp y)%Z then m :: l
      else y :: insert_by_timestamp m l'
  end.

Definition sorted_by_timestamp (l : list ConversationMessage)
  : list ConversationMessage :=
  fold_right insert_by_timestamp [] l.

(** [l[start:]] for any integer [start]. *)
Definition slice_from {A} (start : Z) (l : list A) : list A :=
  let n := Z.of_nat (List.length l) in
  let start := if (start <? 0)%Z then Z.max 0 (start + n) else Z.min start n in
  skipn (Z.to_nat start) l.

Definition default_max_messages : Z := 5.

Section Summary.

(** [time.strftime('%Y-%m-%d %H:%M:%S', time.localtime(t))] *)
Variable strftime_local : Z -> string.

Definition render_message (msg : ConversationMessage) : string :=
  let sender := if is_from_agent msg then "You (Sofia)" else sender msg in
  ("From: " ++ sender ++ Str.nl)
    ++ ("Date: " ++ strftime_local (timestamp msg) ++ Str.nl)
    ++ (content msg ++ Str.nl ++ Str.nl).

Definition recent_messages (th : ConversationThread) (max_messages : Z)
  : list ConversationMessage :=
  let sorted_messages := sorted_by_timestamp (messages th) in
  if (max_messages <? Z.of_nat (List.length sorted_messages))%Z
  then slice_from (- max_messages) sorted_messages
  else sorted_messages.

Definition get_context_summary (th : ConversationThread) (max_messages : Z)
  : string :=
  fold_left (fun context msg => context ++ render_message msg)
            (recent_messages th max_messages)
            ("Subject: " ++ subject th ++ Str.nl ++ Str.nl).

Definition get_thread_context (st : ConversationMemoryStore)
           (thread_id : string) (max_messages : Z) : string :=
  match Dict.get thread_id (threads st) with
  | Some th => get_context_summary th max_messages
  | None => ""
  end.

(** The summary as the specification words it: messages by ascending
    timestamp, the last [max_messages] of them, each headed by the
    sender or by "You (Agent)" for the agent's own. *)
Definition spec_render_message (msg : ConversationMessage) : string :=
  "From: " ++ (if is_from_agent msg then "You (Agent)" else sender msg)
    ++ Str.nl ++ "Date: " ++ strftime_local (timestamp msg) ++ Str.nl
    ++ content msg ++ Str.nl ++ Str.nl.

Definition last_n {A} (k : nat) (l : list A) : list A :=
  skipn (List.length l - k) l.

Definition spec_context_summary (th : ConversationThread)
           (max_messages : Z) : string :=
  "Subject: " ++ subject th ++ Str.nl ++ Str.nl
    ++ String.concat ""
         (map spec_render_message
              (last_n (Z.to_nat max_messages)
                      (sorted_by_timestamp (messages th)))).

End Summary.

(** ** Look-ups *)

(** [find_entities_by_type] *)
Definition find_entities_by_type (st : ConversationMemoryStore)
           (entity_type : string) : list string :=
  map fst
      (filter (fun item : string * Entity =>
                 String.eqb (type (snd item)) entity_type)
              (entities st)).

(** The test [find_entity_by_name] applies to one entity: the name or some
    alias equals the wanted name, case apart. *)
Definition is_called (name_lower : string) (entity : Entity) : bool :=
  orb (String.eqb (Str.lower (name entity)) name_lower)
      (existsb (fun alias => String.eqb (Str.lower alias) name_lower)
               (aliases entity)).

(** [find_entity_by_name] *)
Definition find_entity_by_name (st : ConversationMemoryStore) (name : string)
  : option string :=
  let name_lower := Str.lower name in
  option_map fst
    (find (fun item : string * Entity => is_called name_lower (snd item))
          (entities st)).

(** [sorted(..., key=lambda t: t.last_updated, reverse=True)] *)
Fixpoint insert_most_recent (t : ConversationThread)
         (l : list ConversationThread) : list ConversationThread :=
  match l with
  | [] => [t]
  | y :: l' =>
      if (last_updated y <=? last_updated t)%Z then t :: l
      else y :: insert_most_recent t l'
  end.

Definition most_recent_first (l : list ConversationThread)
  : list ConversationThread :=
  fold_right insert_most_recent [] l.

(** [l[:stop]] for any integer [stop]. *)
Definition slice_to {A} (stop : Z) (l : list A) : list A :=
  let n := Z.of_nat (List.length l) in
  let stop := if (stop <? 0)%Z then Z.max 0 (stop + n) else Z.min stop n in
  firstn (Z.to_nat stop) l.

(** [get_recent_threads(limit=10)] *)
Definition get_recent_threads (st : ConversationMemoryStore) (limit : Z)
  : list ConversationThread :=
  slice_to limit (most_recent_first (Dict.values (threads st))).

(** The normal form of a name inside an entity id. *)
Definition slug (name : string) : string :=
  Str.replace_char " " "_" (Str.lower name).

(** [n] successive calls of [strengthen()] on a fresh relationship. *)
Fixpoint strength_after (n : nat) : spec_float :=
  match n with
  | O => F64.zero
  | S k => strength_step (strength_after k)
  end.

(** ** What stays true of a store *)

(** The record [e'] is the record [e] at a later time: only [last_seen] and
    added aliases distinguish them. *)
Definition same_entity (e e' : Entity) : Prop :=
  name e' = name e /\ type e' = type e /\ metadata e' = metadata e
  /\ first_seen e' = first_seen e /\ incl (aliases e) (aliases e').

Definition same_edge (r r' : Relationship) : Prop :=
  entity1_id r' = entity1_id r /\ entity2_id r' = entity2_id r
  /\ relationship_type r' = relationship_type r
  /\ rel_metadata r' = rel_metadata r
  /\ rel_first_seen r' = rel_first_seen r.

Definition same_thread (th th' : ConversationThread) : Prop :=
  thread_id th' = thread_id th /\ subject th' = subject th
  /\ incl (participants th) (participants th')
  /\ exists more, messages th' = (messages th ++ more)%list.

(** Every entity is filed under the id computed from its own name and type;
    every relationship is filed under the id computed from its own fields,
    and both its endpoints are stored entities. *)
Definition graph_consistent (st : ConversationMemoryStore) : Prop :=
  (forall k e, In (k, e) (entities st) -> k = entity_key (name e) (type e))
  /\ (forall k r, In (k, r) (relationships st) ->
         Dict.mem (entity1_id r) (entities st) = true
         /\ Dict.mem (entity2_id r) (entities st) = true
         /\ k = relationship_key (entity1_id r) (entity2_id r)
                                 (relationship_type r)).

(** Every thread is filed under its own id; each of its messages names that
    thread, has its sender and recipients among the participants, and
    mentions only stored entities. *)
Definition threads_consistent (st : ConversationMemoryStore) : Prop :=
  forall k th, In (k, th) (threads st) ->
    thread_id th = k
    /\ forall m, In m (messages th) ->
         msg_thread_id m = k
         /\ In (sender m) (participants th)
         /\ incl (recipients m) (participants th)
         /\ forall id, In id (msg_entities m) ->
                       Dict.mem id (entities st) = true.

(** The Python containers hold what they hold once: dictionary keys, and
    the elements of the alias and participant sets. *)
Definition containers_proper (st : ConversationMemoryStore) : Prop :=
  Dict.wf (entities st) /\ Dict.wf (relationships st) /\ Dict.wf (threads st)
  /\ (forall k e, In (k, e) (entities st) -> NoDup (aliases e))
  /\ (forall k th, In (k, th) (threads st) -> NoDup (participants th)).

(** A computation that leaves the messages of every thread as they are,
    whether it returns or raises. *)
Definition keeps_messages {A} (c : M A) : Prop :=
  forall st id, messages_of (snd (c st)) id = messages_of st id.

(** The store after [n] successive calls [add_relationship(a, b, t)]. *)
Fixpoint relate_repeatedly (clock : nat -> Z) (a b t : string) (n : nat)
         (st : ConversationMemoryStore) : ConversationMemoryStore :=
  match n with
  | O => st
  | S k => snd (add_relationship clock a b t (relate_repeatedly clock a b t k st))
  end.

(** ** A small store *)

(** A clock that advances by one at each reading. *)
Definition tick (n : nat) : Z := Z.of_nat n.

Definition acme_calls : list op :=
  [AddEntity "Alice Smith" "person" (Some ["Alice Smith <alice@acme.de>"]);
   AddEntity "Acme" "organization" None;
   AddRelationship "person_alice_smith" "organization_acme" "works_at";
   AddMessage "m1" "t1" "Alice Smith <alice@acme.de>" ["sofia@yourdomain.com"]
              "Offer" "Alice Smith from Acme sends the offer." false;
   AddRelationship "organization_acme" "person_alice_smith" "works_at";
   AddMessage "m2" "t1" "sofia@yourdomain.com" ["Alice Smith <alice@acme.de>"]
              "Re: Offer" "Thank you, received." true].

Definition acme_store : ConversationMemoryStore :=
  run_ops tick acme_calls empty_store.

(** Three threads, the first of which receives a message after the other
    two were opened. *)
Definition three_threads_calls : list op :=
  [AddThread "t1" "Offer";
   AddThread "t2" "Invoice";
   AddThread "t3" "Contract";
   AddMessage "m1" "t1" "Alice Smith <alice@acme.de>" ["sofia@yourdomain.com"]
              "Offer" "Here is the offer." false].

Definition three_threads_store : ConversationMemoryStore :=
  run_ops tick three_threads_calls empty_store.

(** ** Two small threads *)

Definition fixed_date (t : Z) : string := "2024-05-01 09:00:00".

Definition question : ConversationMessage :=
  mkConversationMessage "m1" "t1" "Alice <alice@corp.example>"
    ["sofia@yourdomain.com"] "Budget" "When is the budget due?" 100 false [].

Definition answer : ConversationMessage :=
  mkConversationMessage "m2" "t1" "sofia@yourdomain.com"
    ["Alice <alice@corp.example>"] "Re: Budget" "It is due on Friday." 200
    true [].

(** The answer was filed before the question. *)
Definition budget_thread : ConversationThread :=
  mkConversationThread "t1" "Budget"
    ["Alice <alice@corp.example>"; "sofia@yourdomain.com"]
    [answer; question] 300 [].

End Memory.

(* ================================================================== *)
(** * The stored document ([load] and [save]) *)
(* ================================================================== *)

Module Persistence.

Import Memory.

(** The dictionaries of the JSON document, as [json.load] returns them and
    [save] builds them, with values of the types [save] writes.  A field
    that is [None] is a key the dictionary does not have. *)
Record EntityData := mkEntityData {
  e_name : option string;
  e_type : option string;
  e_aliases : option (list string);
  e_metadata : option (list (string * string));
  e_first_seen : option Z;
  e_last_seen : option Z
}.

Record RelationshipData := mkRelationshipData {
  r_entity1_id : option string;
  r_entity2_id : option string;
  r_relationship_type : option string;
  r_strength : option spec_float;
  r_metadata : option (list (string * string));
  r_first_seen : option Z;
  r_last_seen : option Z
}.

Record MessageData := mkMessageData {
  m_message_id : option string;
  m_thread_id : option string;
  m_sender : option string;
  m_recipients : option (list string);
  m_subject : option string;
  m_content : option string;
  m_timestamp : option Z;
  m_is_from_agent : option bool;
  m_entities : option (list string)
}.

Record ThreadData := mkThreadData {
  t_subject : option string;
  t_participants : option (list string);
  t_last_updated : option Z;
  t_topics : option (list string);
  t_messages : option (list MessageData)
}.

Record Data := mkData {
  data_entities : option (Dict.t EntityData);
  data_relationships : option (Dict.t RelationshipData);
  data_threads : option (Dict.t ThreadData)
}.

(** ** [save] *)

Definition entity_data (entity : Entity) : EntityData :=
  mkEntityData (Some (name entity)) (Some (type entity))
               (Some (aliases entity)) (Some (metadata entity))
               (Some (first_seen entity)) (Some (last_seen entity)).

Definition rel_data (rel : Relationship) : RelationshipData :=
  mkRelationshipData (Some (entity1_id rel)) (Some (entity2_id rel))
                     (Some (relationship_type rel)) (Some (strength rel))
                     (Some (rel_metadata rel)) (Some (rel_first_seen rel))
                     (Some (rel_last_seen rel)).

Definition msg_data (msg : ConversationMessage) : MessageData :=
  mkMessageData (Some (message_id msg)) (Some (msg_thread_id msg))
                (Some (sender msg)) (Some (recipients msg))
                (Some (msg_subject msg)) (Some (content msg))
                (Some (timestamp msg)) (Some (is_from_agent msg))
                (Some (msg_entities msg)).

Definition thread_data (thread : ConversationThread) : ThreadData :=
  mkThreadData (Some (subject thread)) (Some (participants thread))
               (Some (last_updated thread)) (Some (topics thread))
               (Some (map msg_data (messages thread))).

(** The dictionary [data] that [save] hands to [json.dump]. *)
Definition save_data (st : ConversationMemoryStore) : Data :=
  mkData
    (Some (map (fun '(entity_id, entity) => (entity_id, entity_data entity))
               (entities st)))
    (Some (map (fun '(rel_id, rel) => (rel_id, rel_data rel))
               (relationships st)))
    (Some (map (fun '(thread_id, thread) => (thread_id, thread_data thread))
               (threads st))).

(** ** [load] *)

(** A step of [load]: [None] is a [KeyError] on its way to the [except] of
    [load]; what was stored before it stays stored. *)
Definition Loader (A : Type) : Type :=
  ConversationMemoryStore -> option A * ConversationMemoryStore.

Definition done {A} (a : A) : Loader A := fun st => (Some a, st).

Definition and_then {A B} (c : Loader A) (k : A -> Loader B) : Loader B :=
  fun st =>
    match c st with
    | (Some a, st') => k a st'
    | (None, st') => (None, st')
    end.

(** [d[key]] *)
Definition item {A} (field : option A) : Loader A := fun st => (field, st).

(** [d.get(key, default)] *)
Definition get_or {A} (field : option A) (default : A) : A :=
  match field with Some v => v | None => default end.

Declare Scope loader_scope.
Delimit Scope loader_scope with loader.
Notation "x <- c ;; k" := (and_then c (fun x => k))
  (at level 61, c at next level, right associativity) : loader_scope.
Notation "c ;;; k" := (and_then c (fun _ => k))
  (at level 61, right associativity) : loader_scope.
Local Open Scope loader_scope.

Fixpoint each {A} (l : list A) (body : A -> Loader unit) : Loader unit :=
  match l with
  | [] => done tt
  | x :: l' => body x ;;; each l' body
  end.

Definition store_entity (k : string) (e : Entity) : Loader unit :=
  fun st => (Some tt, mkStore (Dict.set k e (entities st)) (relationships st)
                              (threads st) (reads st)).
Definition store_relationship (k : string) (r : Relationship) : Loader unit :=
  fun st => (Some tt, mkStore (entities st) (Dict.set k r (relationships st))
                              (threads st) (reads st)).
Definition store_thread (k : string) (th : ConversationThread) : Loader unit :=
  fun st => (Some tt, mkStore (entities st) (relationships st)
                              (Dict.set k th (threads st)) (reads st)).

Section Load.

Variable clock : nat -> Z.

(** [time.time()], which the [.get(key, time.time())] calls evaluate whether
    or not the key is there. *)
Definition now : Loader Z :=
  fun st =>
    (Some (clock (reads st)),
     mkStore (entities st) (relationships st) (threads st) (S (reads st))).

Definition load_entity (entity_data : EntityData) : Loader Entity :=
  name <- item (e_name entity_data) ;;
  type <- item (e_type entity_data) ;;
  t1 <- now ;;
  t2 <- now ;;
  done (mkEntity name type
                 (set_of_list (get_or (e_aliases entity_data) []))
                 (get_or (e_metadata entity_data) [])
                 (get_or (e_first_seen entity_data) t1)
                 (get_or (e_last_seen entity_data) t2)).

Definition load_relationship (rel_data : RelationshipData)
  : Loader Relationship :=
  entity1_id <- item (r_entity1_id rel_data) ;;
  entity2_id <- item (r_entity2_id rel_data) ;;
  relationship_type <- item (r_relationship_type rel_data) ;;
  t1 <- now ;;
  t2 <- now ;;
  done (mkRelationship entity1_id entity2_id relationship_type
                       (get_or (r_strength rel_data) F64.zero)
                       (get_or (r_metadata rel_data) [])
                       (get_or (r_first_seen rel_data) t1)
                       (get_or (r_last_seen rel_data) t2)).

(** The message is given the id of the thread it is listed under, not the
    [thread_id] written in its own dictionary. *)
Definition load_message (thread_id : string) (msg_data : MessageData)
  : Loader ConversationMessage :=
  message_id <- item (m_message_id msg_data) ;;
  sender <- item (m_sender msg_data) ;;
  recipients <- item (m_recipients msg_data) ;;
  subject <- item (m_subject msg_data) ;;
  content <- item (m_content msg_data) ;;
  timestamp <- item (m_timestamp msg_data) ;;
  done (mkConversationMessage message_id thread_id sender recipients subject
                              content timestamp
                              (get_or (m_is_from_agent msg_data) false)
                              (get_or (m_entities msg_data) [])).

Fixpoint load_messages (thread_id : string) (l : list MessageData)
         (thread : ConversationThread) : Loader ConversationThread :=
  match l with
  | [] => done thread
  | msg_data :: l' =>
      message <- load_message thread_id msg_data ;;
      load_messages thread_id l'
        (mkConversationThread (Memory.thread_id thread) (subject thread)
                              (participants thread)
                              (messages thread ++ [message])
                              (last_updated thread) (topics thread))
  end.

Definition load_thread (thread_id : string) (thread_data : ThreadData)
  : Loader ConversationThread :=
  subject <- item (t_subject thread_data) ;;
  t <- now ;;
  load_messages thread_id (get_or (t_messages thread_data) [])
    (mkConversationThread thread_id subject
                          (set_of_list (get_or (t_participants thread_data) []))
                          []
                          (get_or (t_last_updated thread_data) t)
                          (get_or (t_topics thread_data) [])).

Definition load_data (data : Data) : Loader unit :=
  each (get_or (data_entities data) [])
       (fun '(entity_id, entity_data) =>
          entity <- load_entity entity_data ;;
          store_entity entity_id entity) ;;;
  each (get_or (data_relationships data) [])
       (fun '(rel_id, rel_data) =>
          rel <- load_relationship rel_data ;;
          store_relationship rel_id rel) ;;;
  each (get_or (data_threads data) [])
       (fun '(thread_id, thread_data) =>
          thread <- load_thread thread_id thread_data ;;
          store_thread thread_id thread).

(** [load]: [file] is [None] when there is no file at the storage path or
    it does not hold a JSON document; an exception on the way is printed
    and the store stays as far as it was loaded. *)
Definition load (file : option Data) (st : ConversationMemoryStore)
  : ConversationMemoryStore :=
  match file with
  | None => st
  | Some data => snd (load_data data st)
  end.

End Load.

(** A document whose second entity has lost its [type]. *)
Definition damaged_data : Data :=
  mkData
    (Some [("person_alice_smith",
            mkEntityData (Some "Alice Smith") (Some "person") None None None
                         None);
           ("organization_acme",
            mkEntityData (Some "Acme") None None None None None);
           ("topic_offer",
            mkEntityData (Some "Offer") (Some "topic") None None None None)])
    None
    (Some [("t1", mkThreadData (Some "Offer") None None None None)]).

End Persistence.

(* ================================================================== *)
(** * Extraction ([memory/memory_integration.py]) *)
(* ================================================================== *)

Module Integration.

Import Memory.
Local Open Scope monad_scope.

Definition org_patterns : list string :=
  ["(?:at|from|with|for) ([A-Z][A-Za-z0-9\s]+(?:Inc|LLC|Ltd|Corp|Corporation|Company|Technologies|Systems|Solutions))";
   "([A-Z][A-Za-z0-9\s]+(?:Inc|LLC|Ltd|Corp|Corporation|Company|Technologies|Systems|Solutions))";
   "(?:at|from|with|for) ([A-Z][A-Za-z0-9\s&]+)"].

Definition project_patterns : list string :=
  ["[Pp]roject\s+([A-Z][A-Za-z0-9\s]+)";
   "[Pp]roject\s+([A-Z][A-Za-z0-9\s\-_]+)";
   "[Tt]he\s+([A-Z][A-Za-z0-9\s]+)\s+[Pp]roject";
   "[Ii]nitiative\s+([A-Z][A-Za-z0-9\s\-_]+)"].

Definition person_patterns : list string :=
  ["[A-Z][a-z]+\s+[A-Z][a-z]+";
   "Mr\.\s+[A-Z][a-z]+";
   "Ms\.\s+[A-Z][a-z]+";
   "Mrs\.\s+[A-Z][a-z]+";
   "Dr\.\s+[A-Z][a-z]+"].

Definition common_words : list string :=
  ["This"; "That"; "These"; "Those"; "First"; "Last"; "Monday"; "Tuesday";
   "Wednesday"; "Thursday"; "Friday"; "Saturday"; "Sunday"; "January";
   "February"; "March"; "April"; "May"; "June"; "July"; "August";
   "September"; "October"; "November"; "December"].

Definition date_patterns : list string :=
  ["[Dd]eadline\s*:\s*([A-Za-z0-9\s,]+)";
   "[Dd]ue\s*(?:by|on|date)?\s*:\s*([A-Za-z0-9\s,]+)";
   "(?:on|by)\s+([A-Za-z]+\s+\d{1,2}(?:st|nd|rd|th)?)";
   "(?:on|by)\s+(\d{1,2}\/\d{1,2}(?:\/\d{2,4})?)"].

Definition action_patterns : list string :=
  ["(?:[Pp]lease|[Cc]ould you|[Cc]an you)(?:\s+(?:[a-z]+\s+)?)?([^?\.]+\??)";
   "(?:[Nn]eed to|[Ss]hould|[Mm]ust)(?:\s+(?:[a-z]+\s+)?)?([^?\.]+)";
   "(?:[Ww]ould appreciate if you)(?:\s+(?:[a-z]+\s+)?)?([^?\.]+)";
   "(?:[Aa]ction(?:\s+[Ii]tem)?:)(?:\s+(?:[a-z]+\s+)?)?([^?\.]+)";
   "(?:[Tt]o-[Dd]o:)(?:\s+(?:[a-z]+\s+)?)?([^?\.]+)";
   "(?:[Ff]ollow[\s-]*up:)(?:\s+(?:[a-z]+\s+)?)?([^?\.]+)"].

Definition public_suffixes : list string :=
  [".com"; ".org"; ".net"; ".io"; ".gov"; ".edu"].

(** Parameter names of [add_entity(self, name, entity_type, aliases=None)]
    that a call may pass by keyword. *)
Definition add_entity_parameters : list string :=
  ["name"; "entity_type"; "aliases"].

Record ActionItem := mkActionItem {
  text : string;
  is_completed : bool;
  source : string;
  created_at : Z
}.

Record MemoryContext := mkMemoryContext {
  thread_context : string;
  ctx_topics : list string;
  ctx_entities : list EntityInfo;
  action_items : list ActionItem
}.

Section Extractors.

Variable clock : nat -> Z.

(** Python's [re] module, on the patterns above: [re.findall] (every
    pattern has at most one group, so each match is one string),
    [.group(1)] of [re.match] and [re.search], [re.sub], and [re.search]
    on a pattern assembled at run time, which is [None] when the pattern
    does not compile ([re.error]). *)
Variable re_findall : string -> string -> list string.
Variable re_match_group : string -> string -> option string.
Variable re_search_group : string -> string -> option string.
Variable re_sub : string -> string -> string -> string.
Variable re_search : string -> string -> option bool.

(** [_extract_content] (base64 and HTML clean-up of the payload). *)
Variable extract_content : Gmail.Message -> string.
Variable strftime_local : Z -> string.

(** A call [self.memory.add_entity(name, entity_type, k1=..., k2=...)]:
    a keyword that names no parameter is a [TypeError] at the call. *)
Definition call_add_entity (name entity_type : string)
           (keywords : list string) : M string :=
  match find (fun k => negb (existsb (String.eqb k) add_entity_parameters))
             keywords with
  | Some k =>
      raise (TypeError
               ("add_entity() got an unexpected keyword argument '"
                  ++ k ++ "'"))
  | None => add_entity clock name entity_type None
  end.

Definition extract_sender (sender : string) : M unit :=
  if Str.nonempty sender then
    match re_match_group "^([^<]+)" sender with
    | Some g =>
        let name := Str.strip g in
        add_entity clock name "person" (Some [sender]) ;;;
        match re_search_group "<([^>]+)>" sender with
        | Some email =>
            let domain := last (Str.split_on "@" email) "" in
            if andb (Str.nonempty domain)
                 (andb (Str.contains "." domain)
                       (negb (existsb (fun suf => Str.ends_with suf domain)
                                      public_suffixes)))
            then
              let org_name :=
                Str.capitalize (hd "" (Str.split_on "." domain)) in
              add_entity clock org_name "organization" None ;;;
              let person_id :=
                "person_" ++ Str.replace_char " " "_" (Str.lower name) in
              let org_id :=
                "organization_"
                  ++ Str.replace_char " " "_" (Str.lower org_name) in
              add_relationship clock person_id org_id "works_at" ;;;
              ret tt
            else ret tt
        | None => ret tt
        end
    | None => ret tt
    end
  else ret tt.

(** [for pattern in patterns: for match in re.findall(pattern, content)] *)
Definition for_matches (patterns : list string) (content : string)
           (body : string -> M unit) : M unit :=
  for_each patterns
           (fun pattern => for_each (re_findall pattern content) body).

Definition extract_named (entity_type : string) (m : string) : M unit :=
  let n := Str.strip m in
  if andb (Str.nonempty n) (3 <? String.length n)%nat
  then add_entity clock n entity_type None ;;; ret tt
  else ret tt.

Definition extract_person (m : string) : M unit :=
  let person_name := Str.strip m in
  if andb (Str.nonempty person_name)
          (andb (3 <? String.length person_name)%nat
                (negb (existsb (String.eqb person_name) common_words)))
  then add_entity clock person_name "person" None ;;; ret tt
  else ret tt.

Definition extract_topic (subject : string) : M unit :=
  if Str.nonempty subject then
    let clean_subject :=
      Str.strip (re_sub "^(Re|Fwd|FW|RE|FWD):\s*" "" subject) in
    if Str.nonempty clean_subject
    then add_entity clock clean_subject "topic" None ;;; ret tt
    else ret tt
  else ret tt.

Definition extract_date (m : string) : M unit :=
  let date_str := Str.strip m in
  if Str.nonempty date_str
  then call_add_entity date_str "date" ["metadata"] ;;; ret tt
  else ret tt.

Definition _extract_entities_from_email (content sender subject : string)
  : M unit :=
  extract_sender sender ;;;
  for_matches org_patterns content (extract_named "organization") ;;;
  for_matches project_patterns content (extract_named "project") ;;;
  for_matches person_patterns content extract_person ;;;
  extract_topic subject ;;;
  for_matches date_patterns content extract_date.

Definition _extract_action_items (content : string) : M (list ActionItem) :=
  fold_left
    (fun acc m =>
       action_items <- acc ;;
       let item := Str.strip m in
       if andb (Str.nonempty item) (10 <? String.length item)%nat
       then
         now <- time clock ;;
         ret (action_items ++ [mkActionItem item false "email" now])%list
       else ret action_items)
    (flat_map (fun pattern => re_findall pattern content) action_patterns)
    (ret []).

(** [re.search] on a pattern built from entity names. *)
Definition search (pattern content : string) : M bool :=
  match re_search pattern content with
  | Some b => ret b
  | None => raise (ReError pattern)
  end.

(** One [if re.search(...): ... elif re.search(...): ...] pair. *)
Definition first_matching (content entity_id1 entity_id2 : string)
           (pattern1 type1 pattern2 type2 : string) : M unit :=
  found <- search pattern1 content ;;
  if (found : bool)
  then add_relationship clock entity_id1 entity_id2 type1 ;;; ret tt
  else
    found <- search pattern2 content ;;
    if (found : bool)
    then add_relationship clock entity_id1 entity_id2 type2 ;;; ret tt
    else ret tt.

Definition relate (content entity_id1 entity_id2 : string)
           (entity1 entity2 : EntityInfo) : M unit :=
  let entity1_name := info_name entity1 in
  let entity1_type := info_type entity1 in
  let entity2_name := info_name entity2 in
  let entity2_type := info_type entity2 in
  let both (t1 t2 : string) :=
    andb (String.eqb entity1_type t1) (String.eqb entity2_type t2) in
  let go := first_matching content entity_id1 entity_id2 in
  if both "person" "organization" then
    go (entity1_name ++ ".*(?:at|from|with|for).*" ++ entity2_name)
       "works_at"
       (entity1_name ++ ".*(?:leads|manages|runs|heads).*" ++ entity2_name)
       "leads"
  else if both "person" "project" then
    go (entity1_name ++ ".*(?:manages|leads|runs|works on).*" ++ entity2_name)
       "manages"
       (entity1_name ++ ".*(?:contributes to|supports).*" ++ entity2_name)
       "contributes_to"
  else if both "person" "person" then
    go (entity1_name ++ ".*(?:manages|supervises|leads).*" ++ entity2_name)
       "manages"
       (entity1_name ++ ".*(?:colleague|coworker|teammate).*" ++ entity2_name)
       "colleague_of"
  else if both "organization" "project" then
    go (entity1_name ++ ".*(?:sponsors|funds|supports).*" ++ entity2_name)
       "sponsors"
       (entity1_name ++ ".*(?:develops|creates|builds).*" ++ entity2_name)
       "develops"
  else ret tt.

Definition _extract_relationships (content sender : string) : M unit :=
  entity_ids <- extract_entities_from_text clock content ;;
  let indexed := combine (seq 0 (List.length entity_ids)) entity_ids in
  for_each indexed
    (fun '(i, entity_id1) =>
       st <- get_store ;;
       match get_entity_info st entity_id1 with
       | None => ret tt
       | Some entity1 =>
           for_each indexed
             (fun '(j, entity_id2) =>
                if (i =? j)%nat then ret tt
                else
                  st <- get_store ;;
                  match get_entity_info st entity_id2 with
                  | None => ret tt
                  | Some entity2 =>
                      relate content entity_id1 entity_id2 entity1 entity2
                  end)
       end).

Definition _get_relevant_entities (content : string) : M (list EntityInfo) :=
  try_except
    (entity_ids <- extract_entities_from_text clock content ;;
     st <- get_store ;;
     ret (flat_map (fun entity_id =>
                      match get_entity_info st entity_id with
                      | Some info => [info]
                      | None => []
                      end)
                   entity_ids))
    (fun _ => ret []).

Definition header_or_empty (n : string) (email_data : Gmail.Message)
  : string :=
  match Gmail.last_header n email_data with
  | Some v => v
  | None => ""
  end.

Definition process_email (email_data : Gmail.Message) (is_from_agent : bool)
  : M MemoryContext :=
  let message_id := Gmail.id email_data in
  let thread_id := Gmail.threadId email_data in
  let sender := header_or_empty "from" email_data in
  let recipients :=
    match Gmail.last_header "to" email_data with
    | Some v => map Str.strip (Str.split_on "," v)
    | None => []
    end in
  let subject := header_or_empty "subject" email_data in
  let content := extract_content email_data in
  let content :=
    if Str.nonempty content then content else "[No content available]" in
  try_except
    (add_message clock message_id thread_id sender recipients subject
                 content is_from_agent ;;;
     _extract_entities_from_email content sender subject ;;;
     _extract_relationships content sender ;;;
     topics <- analyze_thread_topics thread_id ;;
     action_items <- _extract_action_items content ;;
     st <- get_store ;;
     let thread_context :=
       get_thread_context strftime_local st thread_id default_max_messages in
     entities <- _get_relevant_entities content ;;
     ret (mkMemoryContext thread_context topics entities action_items))
    (fun _ =>
       ret (mkMemoryContext
              ("Subject: " ++ subject ++ Str.nl ++ Str.nl
                 ++ "From: " ++ sender)
              [] [] [])).


End Extractors.



(** The exception raised by the call in the date rule. *)
Definition unexpected_metadata : exn :=
  TypeError "add_entity() got an unexpected keyword argument 'metadata'".

(** ** An e-mail that mentions a deadline *)

Definition deadline_content : string :=
  "Please send the signed contract. Deadline: Friday".

(** What [re.findall] returns on [deadline_content] for the patterns that
    match it (the first action pattern and the first date pattern), and
    the empty list elsewhere. *)
Definition findall_on_deadline (pattern content : string) : list string :=
  if String.eqb content deadline_content then
    if String.eqb pattern
         "(?:[Pp]lease|[Cc]ould you|[Cc]an you)(?:\s+(?:[a-z]+\s+)?)?([^?\.]+\??)"
    then ["the signed contract"]
    else if String.eqb pattern "[Dd]eadline\s*:\s*([A-Za-z0-9\s,]+)"
    then ["Friday"]
    else []
  else [].

Definition no_group (pattern s : string) : option string := None.
Definition sub_identity (pattern repl s : string) : string := s.
Definition search_false (pattern s : string) : option bool := Some false.
(** ** A sender whose display name holds a parenthesis *)

Definition sales_calls : list op :=
  [AddEntity "Bob (Sales" "person" (Some ["Bob (Sales <bob@acme.de>"]);
   AddEntity "Acme" "organization" None].

Definition sales_store : ConversationMemoryStore :=
  run_ops tick sales_calls empty_store.

Definition sales_content : string := "Bob (Sales works at Acme".

(** [re.search] on the pattern built from the two names: it does not
    compile ("missing ), unterminated subpattern"). *)
Definition search_on_sales (pattern s : string) : option bool :=
  if String.eqb pattern "Bob (Sales.*(?:at|from|with|for).*Acme"
  then None
  else Some false.

Definition deadline_email : Gmail.Message :=
  Gmail.mkMessage "m7" "t7" ["INBOX"; "UNREAD"] (Some 1000%Z)
    [Gmail.mkHeader "Subject" "Contract"] deadline_content.

(** ** An e-mail that names its sender and her employer *)









End Integration.

(* ================================================================== *)
(** * Properties of the decision engine *)
(* ================================================================== *)

Module GmailProofs.

Import Gmail.

Lemma has_label_In (l : string) (m : Message) :
  has_label l m = true <-> In l (labelIds m).
Proof.
  unfold has_label. rewrite existsb_exists. split.
  - intros [x [Hin Heq]]. apply String.eqb_eq in Heq. now subst.
  - intros Hin. exists l. split; [assumption | apply String.eqb_refl].
Qed.

(** ** The sort *)

Lemma insert_In (x m : Message) (l : list Message) :
  In m (insert_newest_first x l) <-> m = x \/ In m l.
Proof.
  induction l as [|y l IH]; simpl.
  - intuition.
  - destruct (date_key y <=? date_key x)%Z; simpl.
    + intuition.
    + rewrite IH. intuition.
Qed.

Lemma sort_In (m : Message) (l : list Message) :
  In m (sort_newest_first l) <-> In m l.
Proof.
  induction l as [|x l IH]; simpl.
  - reflexivity.
  - rewrite insert_In, IH. intuition.
Qed.

Lemma insert_length (x : Message) (l : list Message) :
  List.length (insert_newest_first x l) = S (List.length l).
Proof.
  induction l as [|y l IH]; simpl; [reflexivity|].
  destruct (date_key y <=? date_key x)%Z; simpl; [reflexivity|].
  now rewrite IH.
Qed.

Lemma sort_length (l : list Message) :
  List.length (sort_newest_first l) = List.length l.
Proof.
  induction l as [|x l IH]; simpl; [reflexivity|].
  now rewrite insert_length, IH.
Qed.

Lemma sort_nil_iff (l : list Message) : sort_newest_first l = [] <-> l = [].
Proof.
  split; intros H.
  - apply length_zero_iff_nil. rewrite <- sort_length, H. reflexivity.
  - now subst.
Qed.

Lemma insert_sorted (x : Message) (l : list Message) :
  newest_first l -> newest_first (insert_newest_first x l).
Proof.
  unfold newest_first. induction l as [|y l IH]; simpl; intros Hs.
  - constructor; constructor.
  - destruct (date_key y <=? date_key x)%Z eqn:E.
    + apply Z.leb_le in E. constructor; [assumption|].
      inversion Hs as [|? ? Hl Hall]; subst.
      constructor; [assumption|].
      rewrite Forall_forall in *. intros z Hz. specialize (Hall z Hz). lia.
    + apply Z.leb_gt in E.
      inversion Hs as [|? ? Hl Hall]; subst.
      constructor; [now apply IH|].
      rewrite Forall_forall in *. intros z Hz.
      apply insert_In in Hz. destruct Hz as [-> | Hz]; [lia | now apply Hall].
Qed.

Lemma sort_sorted (l : list Message) : newest_first (sort_newest_first l).
Proof.
  induction l as [|x l IH]; simpl.
  - constructor.
  - now apply insert_sorted.
Qed.

Lemma insert_perm (x : Message) (l : list Message) :
  Permutation (x :: l) (insert_newest_first x l).
Proof.
  induction l as [|y l IH]; simpl; [reflexivity|].
  destruct (date_key y <=? date_key x)%Z; [reflexivity|].
  rewrite perm_swap. now constructor.
Qed.

Lemma sort_perm (l : list Message) : Permutation l (sort_newest_first l).
Proof.
  induction l as [|x l IH]; simpl; [reflexivity|].
  rewrite <- insert_perm. now constructor.
Qed.

(** The head of the sorted list is a message of the thread that no other
    message is newer than. *)
Lemma sort_head_newest (l : list Message) (m : Message) (rest : list Message) :
  sort_newest_first l = m :: rest ->
  In m l /\ forall m', In m' l -> (date_key m' <= date_key m)%Z.
Proof.
  intros E. split.
  - apply (proj1 (sort_In m l)). rewrite E. now left.
  - intros m' Hin. apply (proj2 (sort_In m' l)) in Hin. rewrite E in Hin.
    pose proof (sort_sorted l) as Hs. rewrite E in Hs.
    inversion Hs as [|? ? _ Hall]; subst.
    destruct Hin as [-> | Hin]; [lia|].
    rewrite Forall_forall in Hall. now apply Hall.
Qed.

(** A message strictly newer than every other one is the head, wherever it
    is listed. *)
Lemma sort_head_strictly_newest (l : list Message) (m : Message) :
  In m l ->
  (forall m', In m' l -> m' = m \/ (date_key m' < date_key m)%Z) ->
  exists rest, sort_newest_first l = m :: rest.
Proof.
  intros Hin Hnew.
  destruct (sort_newest_first l) as [|h rest] eqn:E.
  - apply (proj1 (sort_nil_iff l)) in E. subst. contradiction.
  - destruct (sort_head_newest l h rest E) as [Hh Hmax].
    destruct (Hnew h Hh) as [-> | Hlt]; [now exists rest|].
    specialize (Hmax m Hin). lia.
Qed.

Lemma has_unread_sorted (l : list Message) :
  existsb (has_label "UNREAD") (sort_newest_first l) = true <->
  exists m, In m l /\ In "UNREAD" (labelIds m).
Proof.
  rewrite existsb_exists. split; intros [m [Hin Hl]]; exists m.
  - split; [exact (proj1 (sort_In m l) Hin)
           | exact (proj1 (has_label_In _ m) Hl)].
  - split; [exact (proj2 (sort_In m l) Hin)
           | exact (proj2 (has_label_In _ m) Hl)].
Qed.

(** The decision in the code's own terms: it is "process" exactly when the
    thread is non-empty, the newest message (head of the stable
    newest-first sort) has no From header carrying one of the three
    literal markers, and some message of the thread carries the UNREAD
    label.  The clock reading only feeds the logged [is_recent] flag and
    never changes the decision, and the empty thread is skipped. *)
Lemma decision_postcondition :
  forall (current_time : Z) (messages : list Message),
    (snd (fst (latest_message_decision current_time messages)) = true <->
       (messages <> []
        /\ (exists latest_message,
               hd_error (sort_newest_first messages) = Some latest_message
               /\ In latest_message messages
               /\ (forall m, In m messages ->
                             (date_key m <= date_key latest_message)%Z)
               /\ from_matches agent_markers latest_message = false)
        /\ (exists m, In m messages /\ In "UNREAD" (labelIds m))))
    /\ (forall other_time : Z,
           fst (latest_message_decision other_time messages)
           = fst (latest_message_decision current_time messages))
    /\ latest_message_decision current_time [] = (None, false, None).
Proof.
  intros current_time messages. split; [|split]; [| |reflexivity].
  - unfold latest_message_decision.
    destruct (sort_newest_first messages) as [|latest rest] eqn:E.
    + simpl. split; [discriminate|].
      intros [Hne _]. apply (proj1 (sort_nil_iff messages)) in E.
      contradiction.
    + destruct (sort_head_newest _ _ _ E) as [Hin Hmax].
      destruct (from_matches agent_markers latest) eqn:Hfrom.
      * simpl. split; [discriminate|].
        intros [_ [[lm [Hhd [_ [_ Hno]]]] _]].
        simpl in Hhd. injection Hhd as <-. congruence.
      * cbn [fst snd]. rewrite <- E, has_unread_sorted. split.
        -- intros Hun. split; [|split].
           ++ intros ->. discriminate E.
           ++ exists latest. rewrite E. repeat split; auto.
           ++ exact Hun.
        -- intros [_ [_ Hun]]. exact Hun.
  - intros other_time. unfold latest_message_decision.
    destruct (sort_newest_first messages) as [|latest rest]; [reflexivity|].
    destruct (from_matches agent_markers latest); reflexivity.
Qed.

(** Recency alone does not authorise a reply: a thread whose newest message
    arrived a second ago, with nothing unread, is skipped. *)
Example recent_but_read_is_skipped :
  latest_message_decision 1001000
    [mkMessage "m1" "t1" ["INBOX"] (Some 1000000%Z)
               [mkHeader "From" "Alice <alice@corp.example>"] "hello"]
  = (Some (mkMessage "m1" "t1" ["INBOX"] (Some 1000000%Z)
                     [mkHeader "From" "Alice <alice@corp.example>"] "hello"),
     false,
     Some (mkReason false true false)).
Proof. reflexivity. Qed.

(** C2.  The From header of the newest message is not compared with the
    identity of the account but searched for three literal markers.  In the
    mailbox of bob@example.com the newest message of Alice's thread is
    Bob's own reply, its From header is the one Gmail writes for the
    account, Alice's message is still unread, and the decision is
    "process".  In the same mailbox the unread mail of two outside senders,
    whose From headers are not the account's, is skipped as the agent's
    own: "jaime@" holds "me@" and "Sofia Rossi" holds "sofia". *)
Theorem decision_misjudges_own_identity :
  (last_header "from" bob_reply = Some (account bob_mailbox_later)
   /\ (exists m, In m (thread_messages bob_mailbox_later "t1")
                 /\ has_label "UNREAD" m = true)
   /\ get_latest_message_in_thread bob_mailbox_later 5000 "a1"
      = (Some bob_reply, true))
  /\ (last_header "from" jaime_first <> Some (account bob_mailbox_later)
      /\ has_label "UNREAD" jaime_first = true
      /\ thread_messages bob_mailbox_later "t2" = [jaime_first]
      /\ get_latest_message_in_thread bob_mailbox_later 5000 "j1"
         = (Some jaime_first, false))
  /\ (last_header "from" rossi_first <> Some (account bob_mailbox_later)
      /\ has_label "UNREAD" rossi_first = true
      /\ thread_messages bob_mailbox_later "t3" = [rossi_first]
      /\ get_latest_message_in_thread bob_mailbox_later 5000 "r1"
         = (Some rossi_first, false)).
Proof.
  split; [|split].
  - split; [reflexivity|]. split; [|vm_compute; reflexivity].
    exists alice_first_unstarred. split; [now left | reflexivity].
  - split; [vm_compute; discriminate|]. repeat split.
  - split; [vm_compute; discriminate|]. repeat split.
Qed.

(** C10.  A thread of at most one message is never reported as replied to,
    whatever that message's From header says. *)
Theorem single_message_never_replied :
  forall (mb : Mailbox) (message_id : string),
    (forall message,
        find_message mb message_id = Some message ->
        (List.length (thread_messages mb (threadId message)) <= 1)%nat) ->
    has_been_replied_to_by_agent mb message_id = false.
Proof.
  intros mb message_id Hlen. unfold has_been_replied_to_by_agent.
  destruct (find_message mb message_id) as [message|]; [|reflexivity].
  specialize (Hlen message eq_refl).
  unfold replied_decision. rewrite sort_length.
  destruct (Nat.leb_spec (List.length (thread_messages mb (threadId message))) 1);
    [reflexivity | lia].
Qed.

(** A thread holding one message, sent from an address with the marker
    [me@], is not reported as replied to. *)
Lemma single_message_never_replied_witness :
  (forall message,
      find_message lone_agent_mailbox "s1" = Some message ->
      (List.length (thread_messages lone_agent_mailbox (threadId message))
       <= 1)%nat)
  /\ has_been_replied_to_by_agent lone_agent_mailbox "s1" = false.
Proof.
  assert (H : forall message,
             find_message lone_agent_mailbox "s1" = Some message ->
             (List.length
                (thread_messages lone_agent_mailbox (threadId message))
              <= 1)%nat).
  { intros message E. vm_compute in E. injection E as <-.
    vm_compute. lia. }
  split; [exact H|].
  exact (single_message_never_replied lone_agent_mailbox "s1" H).
Defined.

(** ** Re-evaluating a thread after a reply *)

Lemma reply_markers_are_agent_markers (m : Message) :
  from_matches reply_markers m = true -> from_matches agent_markers m = true.
Proof.
  unfold from_matches. rewrite !existsb_exists.
  intros [h [Hin Hh]]. exists h. split; [assumption|].
  apply andb_true_iff in Hh. destruct Hh as [Hf Hk].
  apply andb_true_iff. split; [assumption|].
  apply existsb_exists in Hk. destruct Hk as [k [Hk Hc]].
  apply existsb_exists. exists k. split; [|assumption].
  simpl in *. tauto.
Qed.

(** Once [get_latest_message_in_thread] has answered "process", the
    already-replied check on the same thread is always negative. *)
Lemma replied_check_is_negative_after_process
      (current_time : Z) (messages : list Message) :
  snd (fst (latest_message_decision current_time messages)) = true ->
  replied_decision messages = false.
Proof.
  unfold latest_message_decision, replied_decision.
  destruct (sort_newest_first messages) as [|latest rest]; [reflexivity|].
  destruct (from_matches agent_markers latest) eqn:Hfrom; [discriminate|].
  intros _. destruct (List.length (latest :: rest) <=? 1)%nat; [reflexivity|].
  destruct (from_matches reply_markers latest) eqn:Hr; [|reflexivity].
  apply reply_markers_are_agent_markers in Hr. congruence.
Qed.

Lemma reply_is_latest (messages : list Message) (reply : Message) :
  (forall m, In m messages -> (date_key m < date_key reply)%Z) ->
  exists rest, sort_newest_first (messages ++ [reply]) = reply :: rest.
Proof.
  intros Hnew. apply sort_head_strictly_newest.
  - apply in_or_app. right. now left.
  - intros m' Hin. apply in_app_or in Hin. destruct Hin as [Hin | [<- | []]].
    + right. now apply Hnew.
    + now left.
Qed.

(** When the reply filed in the thread carries one of the agent markers in
    its From header, the next evaluation skips the thread. *)
Lemma recognised_reply_is_skipped
      (current_time : Z) (messages : list Message) (reply : Message) :
  from_matches agent_markers reply = true ->
  (forall m, In m messages -> (date_key m < date_key reply)%Z) ->
  latest_message_decision current_time (messages ++ [reply])
  = (Some reply, false, None).
Proof.
  intros Hfrom Hnew. unfold latest_message_decision.
  destruct (reply_is_latest messages reply Hnew) as [rest ->].
  now rewrite Hfrom.
Qed.

(** When it carries none of them, the thread is selected again as long as
    a message in it is still unread. *)
Lemma unrecognised_reply_is_answered_again
      (current_time : Z) (messages : list Message) (reply : Message) :
  from_matches agent_markers reply = false ->
  (forall m, In m messages -> (date_key m < date_key reply)%Z) ->
  (exists m, In m messages /\ In "UNREAD" (labelIds m)) ->
  fst (latest_message_decision current_time (messages ++ [reply]))
  = (Some reply, true)
  /\ replied_decision (messages ++ [reply]) = false.
Proof.
  intros Hfrom Hnew [u [Hu Hl]].
  assert (Hd : fst (latest_message_decision current_time (messages ++ [reply]))
               = (Some reply, true)).
  { unfold latest_message_decision.
    destruct (reply_is_latest messages reply Hnew) as [rest E].
    rewrite E, Hfrom. cbn [fst]. rewrite <- E.
    replace (existsb (has_label "UNREAD")
                     (sort_newest_first (messages ++ [reply]))) with true;
      [reflexivity|].
    symmetry. apply has_unread_sorted. exists u. split; [|assumption].
    apply in_or_app. now left. }
  split; [assumption|].
  apply (replied_check_is_negative_after_process current_time).
  now rewrite Hd.
Qed.

(** C1.  On the mailbox of bob@example.com the thread is selected, answered
    and un-starred; evaluated again with no new message from outside, it
    is selected a second time, because the reply just sent is not
    recognised as the agent's.  With two starred messages in the thread,
    one run of the main loop sends two replies. *)
Theorem reevaluation_after_reply_selects_again :
  get_latest_message_in_thread bob_mailbox 5000 "a1"
  = (Some alice_first, true)
  /\ has_been_replied_to_by_agent bob_mailbox "a1" = false
  /\ process_starred_email canned_reply snippet 5000 (bob_mailbox, O) "a1"
     = (mkMailbox [alice_first_unstarred; bob_reply] "Bob <bob@example.com>",
        1%nat)
  /\ get_latest_message_in_thread
       (mkMailbox [alice_first_unstarred; bob_reply] "Bob <bob@example.com>")
       5000 "a1"
     = (Some bob_reply, true)
  /\ has_been_replied_to_by_agent
       (mkMailbox [alice_first_unstarred; bob_reply] "Bob <bob@example.com>")
       "sent1" = false
  /\ snd (main canned_reply snippet 5000 bob_mailbox_two_starred) = 2%nat.
Proof. repeat split; vm_compute; reflexivity. Qed.

End GmailProofs.

(* ================================================================== *)
(** * Further properties of the agent loop *)
(* ================================================================== *)

Module GmailLoop.

Import Gmail GmailProofs.

(** ** Message ids *)

Lemma find_message_In (mb : Mailbox) (message_id : string) (m : Message) :
  find_message mb message_id = Some m ->
  In m (messages mb) /\ id m = message_id.
Proof.
  unfold find_message. intros H. apply find_some in H.
  destruct H as [Hin Heq]. apply String.eqb_eq in Heq. now split.
Qed.

Lemma find_unique (l : list Message) (m : Message) :
  NoDup (map id l) -> In m l ->
  find (fun x => String.eqb (id x) (id m)) l = Some m.
Proof.
  induction l as [|y l IH]; simpl; intros Hnd Hin; [contradiction|].
  inversion Hnd as [|? ? Hy Hl]; subst.
  destruct Hin as [-> | Hin].
  - now rewrite String.eqb_refl.
  - destruct (String.eqb_spec (id y) (id m)) as [E|_]; [|now apply IH].
    exfalso. apply Hy. rewrite E. now apply in_map.
Qed.

Lemma decision_latest_In (current_time : Z) (l : list Message)
      (latest : Message) (b : bool) :
  fst (latest_message_decision current_time l) = (Some latest, b) ->
  In latest l.
Proof.
  unfold latest_message_decision.
  destruct (sort_newest_first l) as [|h rest] eqn:E; [discriminate|].
  destruct (sort_head_newest l h rest E) as [Hin _].
  destruct (from_matches agent_markers h); simpl; intros [= <- _]; exact Hin.
Qed.

(** X1.  With distinct message ids, whenever [get_latest_message_in_thread]
    answers "process", the check [has_been_replied_to_by_agent] on the
    message it returned answers [False]: the "already replied" branch of the
    main loop is never taken. *)
Theorem replied_branch_is_never_taken :
  forall (mb : Mailbox) (current_time : Z) (email_id : string)
         (latest : Message),
    NoDup (map id (messages mb)) ->
    get_latest_message_in_thread mb current_time email_id
    = (Some latest, true) ->
    has_been_replied_to_by_agent mb (id latest) = false.
Proof.
  intros mb current_time email_id latest Hnd H.
  unfold get_latest_message_in_thread in H.
  destruct (find_message mb email_id) as [message|]; [|discriminate].
  pose proof (decision_latest_In _ _ _ _ H) as Hin.
  unfold thread_messages in Hin. apply filter_In in Hin.
  destruct Hin as [Hin Hthread]. apply String.eqb_eq in Hthread.
  unfold has_been_replied_to_by_agent, find_message.
  rewrite (find_unique _ latest Hnd Hin), Hthread.
  apply (replied_check_is_negative_after_process current_time).
  now rewrite H.
Qed.

Lemma replied_branch_is_never_taken_witness :
  NoDup (map id (messages bob_mailbox_two_starred))
  /\ get_latest_message_in_thread bob_mailbox_two_starred 5000 "a1"
     = (Some alice_second, true)
  /\ has_been_replied_to_by_agent bob_mailbox_two_starred (id alice_second)
     = false.
Proof.
  assert (Hnd : NoDup (map id (messages bob_mailbox_two_starred))).
  { simpl. repeat constructor; simpl; intuition discriminate. }
  assert (H : get_latest_message_in_thread bob_mailbox_two_starred 5000 "a1"
              = (Some alice_second, true)) by reflexivity.
  split; [exact Hnd|]. split; [exact H|].
  exact (replied_branch_is_never_taken bob_mailbox_two_starred 5000 "a1"
           alice_second Hnd H).
Defined.

(** ** Which message is the latest *)

Lemma sort_cons_le (m : Message) (l : list Message) :
  (forall x, In x l -> (date_key x <= date_key m)%Z) ->
  sort_newest_first (m :: l) = m :: sort_newest_first l.
Proof.
  intros H. simpl.
  destruct (sort_newest_first l) as [|y r] eqn:E; [reflexivity|].
  simpl. destruct (sort_head_newest l y r E) as [Hy _].
  specialize (H y Hy). apply Z.leb_le in H. now rewrite H.
Qed.

(** X2.  Among the messages that carry the greatest [internalDate], the one
    listed first by the mailbox is taken as the latest: a message preceded
    only by strictly older ones and followed by none newer is the one the
    decision returns. *)
Theorem first_listed_among_newest_is_latest :
  forall (current_time : Z) (before : list Message) (m : Message)
         (after : list Message),
    (forall x, In x before -> (date_key x < date_key m)%Z) ->
    (forall x, In x after -> (date_key x <= date_key m)%Z) ->
    fst (fst (latest_message_decision current_time (before ++ m :: after)))
    = Some m.
Proof.
  intros current_time before m after Hb Ha.
  assert (H : exists rest,
             sort_newest_first (before ++ m :: after) = m :: rest).
  { induction before as [|x before IH].
    - simpl app. rewrite sort_cons_le by assumption. eauto.
    - destruct IH as [rest E]; [intros y Hy; apply Hb; now right|].
      simpl. change (fold_right insert_newest_first [] (before ++ m :: after))
        with (sort_newest_first (before ++ m :: after)).
      rewrite E. simpl.
      assert (Hx : (date_key x < date_key m)%Z) by (apply Hb; now left).
      apply Z.leb_gt in Hx. rewrite Hx. eauto. }
  destruct H as [rest E]. unfold latest_message_decision. rewrite E.
  destruct (from_matches agent_markers m); reflexivity.
Qed.

Lemma first_listed_among_newest_is_latest_witness :
  date_key alice_third = date_key alice_second
  /\ (forall x, In x [alice_first] -> (date_key x < date_key alice_second)%Z)
  /\ (forall x, In x [alice_third; bob_reply] ->
                (date_key x <= date_key alice_second)%Z)
  /\ fst (fst (latest_message_decision
                 0 ([alice_first] ++ alice_second
                                  :: [alice_third; bob_reply])))
     = Some alice_second.
Proof.
  assert (Hb : forall x, In x [alice_first] ->
                         (date_key x < date_key alice_second)%Z).
  { intros x [<- | []]. vm_compute. reflexivity. }
  assert (Ha : forall x, In x [alice_third; bob_reply] ->
                         (date_key x <= date_key alice_second)%Z).
  { intros x [<- | [<- | []]]; vm_compute; discriminate. }
  split; [reflexivity|]. split; [exact Hb|]. split; [exact Ha|].
  exact (first_listed_among_newest_is_latest 0 [alice_first] alice_second
           [alice_third; bob_reply] Hb Ha).
Defined.

(** X3.  When one message is strictly newer than all others, the message
    returned and the decision do not depend on the order in which the
    mailbox lists the thread. *)
Theorem decision_ignores_listing_order :
  forall (current_time : Z) (l l' : list Message) (m : Message),
    Permutation l l' ->
    In m l ->
    (forall x, In x l -> x = m \/ (date_key x < date_key m)%Z) ->
    fst (latest_message_decision current_time l')
    = fst (latest_message_decision current_time l).
Proof.
  intros current_time l l' m Hp Hin Hnew.
  destruct (sort_head_strictly_newest l m Hin Hnew) as [r E].
  destruct (sort_head_strictly_newest l' m) as [r' E'].
  { now apply (Permutation_in _ Hp). }
  { intros x Hx. apply Hnew. now apply (Permutation_in _ (Permutation_sym Hp)). }
  unfold latest_message_decision. rewrite E, E'.
  destruct (from_matches agent_markers m); [reflexivity|].
  cbn [fst]. f_equal. rewrite <- E, <- E'.
  destruct (existsb (has_label "UNREAD") (sort_newest_first l)) eqn:U.
  - apply has_unread_sorted. apply has_unread_sorted in U.
    destruct U as [u [Hu Hl]]. exists u.
    split; [now apply (Permutation_in _ Hp) | assumption].
  - destruct (existsb (has_label "UNREAD") (sort_newest_first l')) eqn:U';
      [|reflexivity].
    apply has_unread_sorted in U'. destruct U' as [u [Hu Hl]].
    assert (existsb (has_label "UNREAD") (sort_newest_first l) = true).
    { apply has_unread_sorted. exists u.
      split; [now apply (Permutation_in _ (Permutation_sym Hp)) | assumption]. }
    congruence.
Qed.

Lemma decision_ignores_listing_order_witness :
  Permutation [alice_first; alice_second] [alice_second; alice_first]
  /\ In alice_second [alice_first; alice_second]
  /\ fst (latest_message_decision 0 [alice_second; alice_first])
     = fst (latest_message_decision 0 [alice_first; alice_second]).
Proof.
  assert (Hp : Permutation [alice_first; alice_second]
                           [alice_second; alice_first]) by apply perm_swap.
  assert (Hin : In alice_second [alice_first; alice_second])
    by (right; left; reflexivity).
  assert (Hnew : forall x, In x [alice_first; alice_second] ->
                           x = alice_second
                           \/ (date_key x < date_key alice_second)%Z).
  { intros x [<- | [<- | []]]; [right; vm_compute; reflexivity | now left]. }
  split; [exact Hp|]. split; [exact Hin|].
  exact (decision_ignores_listing_order 0 _ _ alice_second Hp Hin Hnew).
Defined.

(** ** Removing the star *)

Lemma remove_star_messages (mb : Mailbox) (message_id : string) :
  messages (remove_star_from_email mb message_id)
  = map (unstar message_id) (messages mb).
Proof. reflexivity. Qed.

Lemma unstar_fields (x : string) (m : Message) :
  id (unstar x m) = id m /\ threadId (unstar x m) = threadId m
  /\ date_key (unstar x m) = date_key m /\ headers (unstar x m) = headers m.
Proof. unfold unstar. destruct (String.eqb (id m) x); repeat split. Qed.

Lemma unstar_other_label (x l : string) (m : Message) :
  l <> "STARRED" -> has_label l (unstar x m) = has_label l m.
Proof.
  intros Hl. unfold unstar. destruct (String.eqb (id m) x); [|reflexivity].
  unfold has_label. simpl.
  induction (labelIds m) as [|a ls IH]; simpl; [reflexivity|].
  destruct (String.eqb_spec a "STARRED") as [->|Ha]; simpl.
  - destruct (String.eqb_spec l "STARRED"); [contradiction | exact IH].
  - now rewrite IH.
Qed.

Lemma unstar_from_matches (x : string) (markers : list string) (m : Message) :
  from_matches markers (unstar x m) = from_matches markers m.
Proof.
  unfold from_matches. now destruct (unstar_fields x m) as (_ & _ & _ & ->).
Qed.

Lemma insert_unstar (x : string) (m : Message) (l : list Message) :
  insert_newest_first (unstar x m) (map (unstar x) l)
  = map (unstar x) (insert_newest_first m l).
Proof.
  induction l as [|y l IH]; simpl; [reflexivity|].
  destruct (unstar_fields x m) as (_ & _ & -> & _).
  destruct (unstar_fields x y) as (_ & _ & -> & _).
  destruct (date_key y <=? date_key m)%Z; simpl; [reflexivity|].
  now rewrite IH.
Qed.

Lemma sort_unstar (x : string) (l : list Message) :
  sort_newest_first (map (unstar x) l) = map (unstar x) (sort_newest_first l).
Proof.
  unfold sort_newest_first.
  induction l as [|m l IH]; simpl; [reflexivity|].
  now rewrite IH, insert_unstar.
Qed.

Lemma thread_unstar (mb : Mailbox) (x tid : string) :
  thread_messages (remove_star_from_email mb x) tid
  = map (unstar x) (thread_messages mb tid).
Proof.
  unfold thread_messages. rewrite remove_star_messages.
  induction (messages mb) as [|m l IH]; simpl; [reflexivity|].
  destruct (unstar_fields x m) as (_ & -> & _).
  destruct (String.eqb (threadId m) tid); simpl; now rewrite IH.
Qed.

Lemma find_unstar (mb : Mailbox) (x message_id : string) :
  find_message (remove_star_from_email mb x) message_id
  = option_map (unstar x) (find_message mb message_id).
Proof.
  unfold find_message. rewrite remove_star_messages.
  induction (messages mb) as [|m l IH]; simpl; [reflexivity|].
  destruct (unstar_fields x m) as (-> & _).
  destruct (String.eqb (id m) message_id); [reflexivity | exact IH].
Qed.

Lemma existsb_unread_unstar (x : string) (l : list Message) :
  existsb (has_label "UNREAD") (map (unstar x) l)
  = existsb (has_label "UNREAD") l.
Proof.
  induction l as [|m l IH]; simpl; [reflexivity|].
  rewrite IH, unstar_other_label by discriminate. reflexivity.
Qed.

Lemma decision_unstar (current_time : Z) (x : string) (l : list Message) :
  fst (latest_message_decision current_time (map (unstar x) l))
  = (option_map (unstar x)
                (fst (fst (latest_message_decision current_time l))),
     snd (fst (latest_message_decision current_time l))).
Proof.
  unfold latest_message_decision. rewrite sort_unstar.
  destruct (sort_newest_first l) as [|h rest]; [reflexivity|].
  cbn [map]. rewrite unstar_from_matches.
  destruct (from_matches agent_markers h); [reflexivity|].
  cbn [fst snd option_map]. f_equal.
  change (unstar x h :: map (unstar x) rest) with (map (unstar x) (h :: rest)).
  apply existsb_unread_unstar.
Qed.

(** X4.  Removing the star from any message changes neither the decision
    for a thread nor the already-replied check: the star is not an input of
    either, and the message returned is the same one up to its own star. *)
Theorem star_is_not_an_input_of_the_decision :
  forall (mb : Mailbox) (current_time : Z) (starred message_id : string),
    get_latest_message_in_thread (remove_star_from_email mb starred)
                                 current_time message_id
    = (option_map (unstar starred)
                  (fst (get_latest_message_in_thread mb current_time
                                                     message_id)),
       snd (get_latest_message_in_thread mb current_time message_id))
    /\ has_been_replied_to_by_agent (remove_star_from_email mb starred)
                                    message_id
       = has_been_replied_to_by_agent mb message_id.
Proof.
  intros mb current_time starred message_id. split.
  - unfold get_latest_message_in_thread. rewrite find_unstar.
    destruct (find_message mb message_id) as [m|]; [|reflexivity].
    cbn [option_map]. destruct (unstar_fields starred m) as (_ & -> & _).
    rewrite thread_unstar. apply decision_unstar.
  - unfold has_been_replied_to_by_agent. rewrite find_unstar.
    destruct (find_message mb message_id) as [m|]; [|reflexivity].
    cbn [option_map]. destruct (unstar_fields starred m) as (_ & -> & _).
    rewrite thread_unstar. unfold replied_decision.
    rewrite sort_unstar, length_map.
    destruct (List.length (sort_newest_first _) <=? 1)%nat; [reflexivity|].
    destruct (sort_newest_first (thread_messages mb (threadId m)))
      as [|h rest]; [reflexivity|].
    cbn [map]. apply unstar_from_matches.
Qed.

Lemma In_firstn {A} (n : nat) (l : list A) (x : A) :
  In x (firstn n l) -> In x l.
Proof.
  intros H. rewrite <- (firstn_skipn n l). apply in_or_app. now left.
Qed.

(** X5.  Once its star is removed a message is not fetched again, while
    every other starred message keeps its star. *)
Theorem unstarred_message_is_not_fetched :
  forall (mb : Mailbox) (message_id : string),
    (forall m, In m (fetch_starred_emails
                       (remove_star_from_email mb message_id)) ->
               id m <> message_id)
    /\ (forall m, In m (messages mb) -> id m <> message_id ->
                  has_label "STARRED" m = true ->
                  In m (messages (remove_star_from_email mb message_id))
                  /\ has_label "STARRED" m = true).
Proof.
  intros mb message_id. split.
  - intros m Hin. unfold fetch_starred_emails in Hin.
    apply In_firstn in Hin. apply filter_In in Hin.
    destruct Hin as [Hin Hstar]. rewrite remove_star_messages in Hin.
    apply in_map_iff in Hin. destruct Hin as [m0 [<- Hm0]].
    unfold unstar in *.
    destruct (String.eqb_spec (id m0) message_id) as [E|E]; [|exact E].
    exfalso. unfold has_label in Hstar. cbn [labelIds] in Hstar.
    apply existsb_exists in Hstar. destruct Hstar as [l [Hl Heq]].
    apply String.eqb_eq in Heq. subst l.
    apply filter_In in Hl. destruct Hl as [_ Hl].
    now rewrite String.eqb_refl in Hl.
  - intros m Hin Hne Hstar. split; [|assumption].
    rewrite remove_star_messages. apply in_map_iff. exists m.
    split; [|assumption]. unfold unstar.
    destruct (String.eqb_spec (id m) message_id); [contradiction|reflexivity].
Qed.

(** ** The loop *)

Section Loop.

Variable generate_response : string -> option string.
Variable extract_email_content : Message -> string.
Variable current_time : Z.

Lemma process_starred_email_count (st : Mailbox * nat) (email_id : string) :
  (snd st
   <= snd (process_starred_email generate_response extract_email_content
             current_time st email_id)
   <= S (snd st))%nat.
Proof.
  destruct st as [mb n]. unfold process_starred_email.
  destruct (get_latest_message_in_thread mb current_time email_id)
    as [[latest|] should]; simpl; [|lia].
  destruct should; simpl; [|lia].
  destruct (has_been_replied_to_by_agent mb (id latest)); simpl; [lia|].
  destruct (Str.nonempty (extract_email_content latest)); simpl; [|lia].
  destruct (generate_response (extract_email_content latest)); simpl; [|lia].
  destruct (send_reply mb (id latest) s) as [[b mb']|]; simpl; lia.
Qed.

Lemma fold_count (ids : list string) (st : Mailbox * nat) :
  (snd (fold_left (process_starred_email generate_response
                     extract_email_content current_time) ids st)
   <= snd st + List.length ids)%nat.
Proof.
  revert st. induction ids as [|x ids IH]; intros st; simpl; [lia|].
  specialize (IH (process_starred_email generate_response
                    extract_email_content current_time st x)).
  pose proof (process_starred_email_count st x). lia.
Qed.

(** X6.  One run of the main loop sends at most one reply per starred
    e-mail it fetched, hence at most ten. *)
Theorem main_sends_at_most_ten :
  forall mb : Mailbox,
    (snd (main generate_response extract_email_content current_time mb)
     <= List.length (fetch_starred_emails mb))%nat
    /\ (List.length (fetch_starred_emails mb) <= 10)%nat.
Proof.
  intros mb. split.
  - unfold main.
    pose proof (fold_count (map id (fetch_starred_emails mb)) (mb, O)) as H.
    rewrite length_map in H. exact H.
  - unfold fetch_starred_emails. apply firstn_le_length.
Qed.

(** X7.  [sent_replies] counts attempts, not deliveries: when the message
    to answer yields no recipient (no From header, or no To header on a
    message of the account itself), [send_reply] sends nothing and returns
    [False], yet the loop still counts a reply and removes the star. *)
Theorem reply_counted_though_nothing_sent :
  forall (mb : Mailbox) (sent_replies : nat) (email_id reply : string)
         (latest original : Message),
    get_latest_message_in_thread mb current_time email_id
    = (Some latest, true) ->
    has_been_replied_to_by_agent mb (id latest) = false ->
    Str.nonempty (extract_email_content latest) = true ->
    generate_response (extract_email_content latest) = Some reply ->
    find_message mb (id latest) = Some original ->
    (reply_recipient original = None \/ reply_recipient original = Some "") ->
    send_reply mb (id latest) reply = Some (false, mb)
    /\ process_starred_email generate_response extract_email_content
                             current_time (mb, sent_replies) email_id
       = (remove_star_from_email mb email_id, S sent_replies).
Proof.
  intros mb n email_id reply latest original Hd Hr Hc Hg Hf Hto.
  assert (Hs : send_reply mb (id latest) reply = Some (false, mb)).
  { unfold send_reply. rewrite Hf. destruct Hto as [-> | ->]; reflexivity. }
  split; [exact Hs|].
  unfold process_starred_email. rewrite Hd. cbn [negb].
  now rewrite Hr, Hc, Hg, Hs.
Qed.

End Loop.

Lemma reply_counted_though_nothing_sent_witness :
  process_starred_email canned_reply snippet 5000 (nameless_mailbox, O) "n1"
  = (remove_star_from_email nameless_mailbox "n1", 1%nat).
Proof.
  refine (proj2 (reply_counted_though_nothing_sent canned_reply snippet 5000
                   nameless_mailbox O "n1"
                   "Thank you, I will take care of it."
                   (hd alice_first (messages nameless_mailbox))
                   (hd alice_first (messages nameless_mailbox))
                   _ _ _ _ _ _)).
  - reflexivity.
  - reflexivity.
  - reflexivity.
  - reflexivity.
  - reflexivity.
  - left. reflexivity.
Defined.

(** ** The subject of a reply *)

Lemma lower_app (a b : string) :
  Str.lower (a ++ b) = (Str.lower a ++ Str.lower b)%string.
Proof. induction a as [|c a IH]; simpl; [reflexivity | now rewrite IH]. Qed.

(** X8.  The subject of a reply always begins with "re:" (in any case), and
    a subject that already does is kept as it is: answering an answer never
    stacks a second "Re:". *)
Theorem reply_subject_has_one_prefix :
  forall original : Message,
    String.prefix "re:" (Str.lower (reply_subject original)) = true
    /\ (forall subject_value,
           last_header "subject" original = Some subject_value ->
           String.prefix "re:" (Str.lower subject_value) = true ->
           reply_subject original = subject_value)
    /\ (forall answer,
           last_header "subject" answer = Some (reply_subject original) ->
           reply_subject answer = reply_subject original).
Proof.
  intros original.
  assert (H1 : String.prefix "re:" (Str.lower (reply_subject original)) = true).
  { unfold reply_subject.
    destruct (last_header "subject" original) as [v|]; [|reflexivity].
    destruct (String.prefix "re:" (Str.lower v)) eqn:E; [exact E|].
    rewrite lower_app. reflexivity. }
  split; [exact H1|]. split.
  - intros v Hv Hp. unfold reply_subject. now rewrite Hv, Hp.
  - intros answer Ha. unfold reply_subject at 1. now rewrite Ha, H1.
Qed.

End GmailLoop.

(* ================================================================== *)
(** * Properties of dictionaries *)
(* ================================================================== *)

Module DictProofs.

Section Lemmas.
Context {V : Type}.
Implicit Types (d : Dict.t V) (k : string) (v : V).

Lemma get_set_same k v d : Dict.get k (Dict.set k v d) = Some v.
Proof.
  induction d as [|[k' v'] d IH]; simpl.
  - now rewrite String.eqb_refl.
  - destruct (String.eqb k' k) eqn:E; simpl.
    + now rewrite String.eqb_refl.
    + now rewrite E.
Qed.

Lemma get_set_other k k' v d :
  k <> k' -> Dict.get k' (Dict.set k v d) = Dict.get k' d.
Proof.
  intros Hne. induction d as [|[k0 v0] d IH]; simpl.
  - destruct (String.eqb_spec k k'); [contradiction | reflexivity].
  - destruct (String.eqb_spec k0 k) as [->|Hk]; simpl.
    + destruct (String.eqb_spec k k'); [contradiction | reflexivity].
    + destruct (String.eqb_spec k0 k'); [reflexivity | exact IH].
Qed.

Lemma mem_set k k' v d :
  Dict.mem k' (Dict.set k v d) = orb (String.eqb k k') (Dict.mem k' d).
Proof.
  unfold Dict.mem. destruct (String.eqb_spec k k') as [->|Hne].
  - now rewrite get_set_same.
  - now rewrite get_set_other.
Qed.

Lemma mem_In_keys k d : Dict.mem k d = true <-> In k (Dict.keys d).
Proof.
  unfold Dict.mem. induction d as [|[k' v'] d IH]; simpl.
  - split; [discriminate | contradiction].
  - destruct (String.eqb_spec k' k) as [->|Hne].
    + split; auto.
    + rewrite IH. split; [auto | intros [?|?]; [contradiction | assumption]].
Qed.

(** Assigning to a key that is present keeps the keys as they are. *)
Lemma keys_set_present k v d :
  Dict.mem k d = true -> Dict.keys (Dict.set k v d) = Dict.keys d.
Proof.
  unfold Dict.mem. induction d as [|[k' v'] d IH]; simpl; [discriminate|].
  destruct (String.eqb_spec k' k) as [->|Hne]; simpl; [reflexivity|].
  intros H. now rewrite IH.
Qed.

(** Assigning to a new key appends it. *)
Lemma keys_set_absent k v d :
  Dict.mem k d = false -> Dict.keys (Dict.set k v d) = (Dict.keys d ++ [k])%list.
Proof.
  unfold Dict.mem. induction d as [|[k' v'] d IH]; simpl; [reflexivity|].
  destruct (String.eqb_spec k' k) as [->|Hne]; simpl; [discriminate|].
  intros H. now rewrite IH.
Qed.

Lemma wf_set k v d : Dict.wf d -> Dict.wf (Dict.set k v d).
Proof.
  unfold Dict.wf. intros Hwf. destruct (Dict.mem k d) eqn:E.
  - now rewrite keys_set_present.
  - rewrite keys_set_absent by assumption.
    apply NoDup_app; [assumption | repeat constructor; auto |].
    intros x Hin [<-|[]]. apply mem_In_keys in Hin. congruence.
Qed.

Lemma wf_count k d :
  Dict.wf d -> Dict.mem k d = true ->
  count_occ string_dec (Dict.keys d) k = 1%nat.
Proof.
  unfold Dict.wf. intros Hwf Hmem. apply mem_In_keys in Hmem.
  apply NoDup_count_occ' with (decA := string_dec); assumption.
Qed.

Lemma get_In_values k v d : Dict.get k d = Some v -> In v (Dict.values d).
Proof.
  induction d as [|[k' v'] d IH]; simpl; [discriminate|].
  destruct (String.eqb k' k).
  - intros [= ->]. now left.
  - intros H. right. now apply IH.
Qed.

End Lemmas.

End DictProofs.

(* ================================================================== *)
(** * Properties of the memory store *)
(* ================================================================== *)

Module MemoryProofs.

Import Memory DictProofs.
Local Open Scope monad_scope.

Ltac unfold_monad :=
  unfold bind, ret, raise, get_store, time, put_entity, put_relationship,
    put_thread, set_entities, set_relationships, set_threads, save.

(** ** String order *)

Lemma min_comm (a b : string) : Str.min a b = Str.min b a.
Proof.
  unfold Str.min, String.ltb. rewrite (String.compare_antisym a b).
  destruct (String.compare b a) eqn:E; simpl; try reflexivity.
  apply String.compare_eq_iff in E. now subst.
Qed.

Lemma max_comm (a b : string) : Str.max a b = Str.max b a.
Proof.
  unfold Str.max, String.ltb. rewrite (String.compare_antisym a b).
  destruct (String.compare b a) eqn:E; simpl; try reflexivity.
  apply String.compare_eq_iff in E. now subst.
Qed.

Lemma relationship_key_sym (a b t : string) :
  relationship_key a b t = relationship_key b a t.
Proof. unfold relationship_key. now rewrite min_comm, max_comm. Qed.

(** [min] and [max] pick the two arguments, smaller first. *)
Lemma min_max_cases (a b : string) :
  (Str.min a b = a /\ Str.max a b = b /\ String.leb a b = true)
  \/ (Str.min a b = b /\ Str.max a b = a /\ String.ltb b a = true).
Proof.
  unfold Str.min, Str.max, String.ltb, String.leb.
  rewrite (String.compare_antisym a b).
  destruct (String.compare b a) eqn:E; simpl; auto.
  apply String.compare_eq_iff in E. subst. auto.
Qed.

Section Store.

Variable clock : nat -> Z.

(** ** What one call does to the store *)

Lemma add_entity_eq (n ty : string) (al : option (list string))
      (st : ConversationMemoryStore) :
  add_entity clock n ty al st =
  match Dict.get (entity_key n ty) (entities st) with
  | Some e =>
      (Ok (entity_key n ty),
       mkStore
         (Dict.set (entity_key n ty)
            (match al with
             | Some (a :: l) =>
                 fold_left add_alias (a :: l)
                           (update_seen e (clock (reads st)))
             | _ => update_seen e (clock (reads st))
             end)
            (entities st))
         (relationships st) (threads st) (S (reads st)))
  | None =>
      (Ok (entity_key n ty),
       mkStore
         (Dict.set (entity_key n ty)
            (mkEntity n ty
               (match al with
                | Some (a :: l) => set_of_list (a :: l)
                | _ => []
                end)
               [] (clock (reads st)) (clock (S (reads st))))
            (entities st))
         (relationships st) (threads st) (S (S (reads st))))
  end.
Proof.
  unfold add_entity. unfold_monad.
  destruct (Dict.get (entity_key n ty) (entities st)); reflexivity.
Qed.

Lemma add_relationship_eq (a b t : string) (st : ConversationMemoryStore) :
  add_relationship clock a b t st =
  if orb (negb (Dict.mem a (entities st))) (negb (Dict.mem b (entities st)))
  then (Raise (ValueError
                 "Both entities must exist before creating a relationship"),
        st)
  else
    match Dict.get (relationship_key a b t) (relationships st) with
    | Some r =>
        (Ok (relationship_key a b t),
         mkStore (entities st)
           (Dict.set (relationship_key a b t)
              (strengthen (rel_update_seen r (clock (reads st))) F64.tenth)
              (relationships st))
           (threads st) (S (reads st)))
    | None =>
        (Ok (relationship_key a b t),
         mkStore (entities st)
           (Dict.set (relationship_key a b t)
              (mkRelationship a b t F64.zero []
                              (clock (reads st)) (clock (S (reads st))))
              (relationships st))
           (threads st) (S (S (reads st))))
    end.
Proof.
  unfold add_relationship. unfold_monad.
  destruct (orb _ _); [reflexivity|].
  destruct (Dict.get (relationship_key a b t) (relationships st));
    reflexivity.
Qed.

(** C6.  With an endpoint missing from the entity store the call raises
    the validation error ([ValueError]) to its caller, and the store,
    relationships included, is left exactly as it was. *)
Theorem add_relationship_unknown_entity :
  forall (a b t : string) (st : ConversationMemoryStore),
    Dict.mem a (entities st) = false \/ Dict.mem b (entities st) = false ->
    add_relationship clock a b t st
    = (Raise (ValueError
                "Both entities must exist before creating a relationship"),
       st).
Proof.
  intros a b t st H. rewrite add_relationship_eq.
  destruct H as [-> | ->]; simpl; [reflexivity|].
  now rewrite orb_true_r.
Qed.

(** C4.  For entities that exist, recording (a, b, t) and then (b, a, t)
    yields the same id, built from the smaller id, the larger id and the
    type; the second call leaves the set of stored edges as it is and
    only strengthens that edge and sets its [last_seen] to the time of
    the call. *)
Theorem relationship_edge_symmetric :
  forall (a b t : string) (st : ConversationMemoryStore),
    Dict.mem a (entities st) = true ->
    Dict.mem b (entities st) = true ->
    let id := (Str.min a b ++ "_" ++ Str.max a b ++ "_" ++ t)%string in
    let st1 := snd (add_relationship clock a b t st) in
    let st2 := snd (add_relationship clock b a t st1) in
    fst (add_relationship clock a b t st) = Ok id
    /\ fst (add_relationship clock b a t st1) = Ok id
    /\ Dict.keys (relationships st2) = Dict.keys (relationships st1)
    /\ (forall k, k <> id ->
                  Dict.get k (relationships st2)
                  = Dict.get k (relationships st1))
    /\ exists r,
        Dict.get id (relationships st1) = Some r
        /\ Dict.get id (relationships st2)
           = Some (mkRelationship
                     (entity1_id r) (entity2_id r) (relationship_type r)
                     (F64.min F64.one (F64.add (strength r) F64.tenth))
                     (rel_metadata r) (rel_first_seen r)
                     (clock (reads st1))).
Proof.
  intros a b t st Ha Hb id st1 st2.
  assert (Hid : relationship_key a b t = id) by reflexivity.
  assert (Hid' : relationship_key b a t = id)
    by (rewrite relationship_key_sym; reflexivity).
  assert (H1 : exists r,
             add_relationship clock a b t st
             = (Ok id, mkStore (entities st)
                               (Dict.set id r (relationships st))
                               (threads st) (reads st1))).
  { subst st1. rewrite add_relationship_eq, Ha, Hb, Hid. simpl.
    destruct (Dict.get id (relationships st)); eexists; reflexivity. }
  destruct H1 as [r H1].
  assert (Hst1 : st1 = mkStore (entities st)
                               (Dict.set id r (relationships st))
                               (threads st) (reads st1))
    by (subst st1; now rewrite H1 at 1).
  assert (Hget : Dict.get id (relationships st1) = Some r)
    by (rewrite Hst1; simpl; apply get_set_same).
  assert (H2 : add_relationship clock b a t st1
               = (Ok id,
                  mkStore (entities st1)
                    (Dict.set id
                       (strengthen (rel_update_seen r (clock (reads st1)))
                                   F64.tenth)
                       (relationships st1))
                    (threads st1) (S (reads st1)))).
  { rewrite add_relationship_eq, Hid', Hget.
    replace (entities st1) with (entities st) by (now rewrite Hst1).
    now rewrite Ha, Hb. }
  subst st2. rewrite H1, H2. cbn [fst snd relationships].
  repeat split.
  - apply keys_set_present. unfold Dict.mem. now rewrite Hget.
  - intros k Hk. now apply get_set_other.
  - exists r. split; [assumption|]. now rewrite get_set_same.
Qed.

(** ** Aliases *)

Lemma nonempty_iff (x : string) : Str.nonempty x = true <-> x <> "".
Proof. destruct x; simpl; split; congruence. Qed.

Lemma set_add_In (a x : string) (l : list string) :
  In a (set_add x l) <-> a = x \/ In a l.
Proof.
  unfold set_add. destruct (existsb (String.eqb x) l) eqn:E.
  - split; [auto|]. intros [-> | H]; [|assumption].
    apply existsb_exists in E. destruct E as [y [Hy Heq]].
    apply String.eqb_eq in Heq. now subst.
  - rewrite in_app_iff. simpl. intuition.
Qed.

Lemma add_alias_In (e : Entity) (b a : string) :
  In a (aliases (add_alias e b))
  <-> In a (aliases e) \/ (a = Str.strip b /\ a <> "").
Proof.
  unfold add_alias.
  destruct (Str.nonempty b) eqn:Eb, (Str.nonempty (Str.strip b)) eqn:Es;
    simpl.
  - rewrite set_add_In. apply nonempty_iff in Es.
    split; [intros [-> | H]; auto | intros [H | [-> _]]; auto].
  - split; [auto|]. intros [H | [-> Hne]]; [assumption|].
    apply nonempty_iff in Hne. congruence.
  - destruct b; [|discriminate]. simpl in Es. discriminate.
  - split; [auto|]. intros [H | [-> Hne]]; [assumption|].
    apply nonempty_iff in Hne. congruence.
Qed.

Lemma add_alias_fields (e : Entity) (b : string) :
  name (add_alias e b) = name e /\ type (add_alias e b) = type e
  /\ metadata (add_alias e b) = metadata e
  /\ first_seen (add_alias e b) = first_seen e
  /\ last_seen (add_alias e b) = last_seen e.
Proof. unfold add_alias. destruct (andb _ _); simpl; auto. Qed.

Lemma fold_add_alias_fields (l : list string) (e : Entity) :
  name (fold_left add_alias l e) = name e
  /\ type (fold_left add_alias l e) = type e
  /\ metadata (fold_left add_alias l e) = metadata e
  /\ first_seen (fold_left add_alias l e) = first_seen e
  /\ last_seen (fold_left add_alias l e) = last_seen e.
Proof.
  revert e. induction l as [|b l IH]; intros e; simpl; [auto|].
  destruct (IH (add_alias e b)) as (H1 & H2 & H3 & H4 & H5).
  destruct (add_alias_fields e b) as (G1 & G2 & G3 & G4 & G5).
  repeat split; congruence.
Qed.

Lemma fold_add_alias_In (l : list string) (e : Entity) (a : string) :
  In a (aliases (fold_left add_alias l e))
  <-> In a (aliases e)
      \/ exists b, In b l /\ a = Str.strip b /\ a <> "".
Proof.
  revert e. induction l as [|b l IH]; intros e; simpl.
  - split; [auto | intros [H | [b [[] _]]]; assumption].
  - rewrite IH, add_alias_In. split.
    + intros [[H | H] | [b' [Hin H]]]; eauto.
    + intros [H | [b' [[<- | Hin] H]]]; eauto.
Qed.

Lemma add_entity_present (n ty : string) (al : option (list string))
      (st : ConversationMemoryStore) (e : Entity) :
  Dict.get (entity_key n ty) (entities st) = Some e ->
  add_entity clock n ty al st
  = (Ok (entity_key n ty),
     mkStore
       (Dict.set (entity_key n ty)
          (fold_left add_alias (given_aliases al)
                     (update_seen e (clock (reads st))))
          (entities st))
       (relationships st) (threads st) (S (reads st))).
Proof.
  intros H. rewrite add_entity_eq, H.
  destruct al as [[|a l]|]; reflexivity.
Qed.

Lemma add_entity_stores (n ty : string) (al : option (list string))
      (st : ConversationMemoryStore) :
  exists e,
    add_entity clock n ty al st
    = (Ok (entity_key n ty),
       mkStore (Dict.set (entity_key n ty) e (entities st))
               (relationships st) (threads st)
               (reads (snd (add_entity clock n ty al st)))).
Proof.
  rewrite add_entity_eq.
  destruct (Dict.get (entity_key n ty) (entities st));
    eexists; reflexivity.
Qed.

Lemma add_entity_twice (n ty : string) (al1 al2 : option (list string))
      (st : ConversationMemoryStore) :
  exists e1 r1,
    add_entity clock n ty al1 st
    = (Ok (entity_key n ty),
       mkStore (Dict.set (entity_key n ty) e1 (entities st))
               (relationships st) (threads st) r1)
    /\ add_entity clock n ty al2
         (mkStore (Dict.set (entity_key n ty) e1 (entities st))
                  (relationships st) (threads st) r1)
       = (Ok (entity_key n ty),
          mkStore
            (Dict.set (entity_key n ty)
               (fold_left add_alias (given_aliases al2)
                          (update_seen e1 (clock r1)))
               (Dict.set (entity_key n ty) e1 (entities st)))
            (relationships st) (threads st) (S r1)).
Proof.
  destruct (add_entity_stores n ty al1 st) as [e1 H1].
  exists e1, (reads (snd (add_entity clock n ty al1 st))).
  split; [exact H1|].
  rewrite (add_entity_present n ty al2 _ e1); [reflexivity|].
  simpl. apply get_set_same.
Qed.

(** C7 (as amended).  The id is the type as given, an underscore, and the
    lower-cased name with spaces turned into underscores.  Two calls with
    the same name and type never fail and return that id; the second
    leaves the keys of the entity store unchanged, with the id held once,
    touches no other record, and on the record itself changes only
    [last_seen] (the time of the call) and the aliases, to which it adds
    the stripped, non-blank ones among those passed. *)
Theorem add_entity_upsert :
  forall (n ty : string) (al1 al2 : option (list string))
         (st : ConversationMemoryStore),
    Dict.wf (entities st) ->
    let id := (ty ++ "_" ++ Str.replace_char " " "_" (Str.lower n))%string in
    let st1 := snd (add_entity clock n ty al1 st) in
    let st2 := snd (add_entity clock n ty al2 st1) in
    fst (add_entity clock n ty al1 st) = Ok id
    /\ fst (add_entity clock n ty al2 st1) = Ok id
    /\ Dict.keys (entities st2) = Dict.keys (entities st1)
    /\ count_occ string_dec (Dict.keys (entities st2)) id = 1%nat
    /\ (forall k, k <> id ->
                  Dict.get k (entities st2) = Dict.get k (entities st1))
    /\ relationships st2 = relationships st1
    /\ threads st2 = threads st1
    /\ exists e1 e2,
        Dict.get id (entities st1) = Some e1
        /\ Dict.get id (entities st2) = Some e2
        /\ name e2 = name e1 /\ type e2 = type e1
        /\ metadata e2 = metadata e1 /\ first_seen e2 = first_seen e1
        /\ last_seen e2 = clock (reads st1)
        /\ forall a,
            In a (aliases e2)
            <-> In a (aliases e1)
                \/ exists b, In b (given_aliases al2)
                             /\ a = Str.strip b /\ a <> "".
Proof.
  intros n ty al1 al2 st Hwf id st1 st2.
  destruct (add_entity_twice n ty al1 al2 st) as (e1 & r1 & H1 & H2).
  change (entity_key n ty) with id in H1, H2.
  subst st2 st1. rewrite H1. cbn [fst snd]. rewrite H2. cbn [fst snd].
  cbn [entities relationships threads reads].
  assert (Hget : Dict.get id (Dict.set id e1 (entities st)) = Some e1)
    by apply get_set_same.
  assert (Hmem : Dict.mem id (Dict.set id e1 (entities st)) = true)
    by (unfold Dict.mem; now rewrite Hget).
  assert (Hkeys : Dict.keys
                    (Dict.set id
                       (fold_left add_alias (given_aliases al2)
                                  (update_seen e1 (clock r1)))
                       (Dict.set id e1 (entities st)))
                  = Dict.keys (Dict.set id e1 (entities st)))
    by now apply keys_set_present.
  split; [reflexivity|]. split; [reflexivity|].
  split; [exact Hkeys|]. split.
  { rewrite Hkeys. apply wf_count; [now apply wf_set | assumption]. }
  split; [intros k Hk; now apply get_set_other|].
  split; [reflexivity|]. split; [reflexivity|].
  exists e1, (fold_left add_alias (given_aliases al2)
                        (update_seen e1 (clock r1))).
  split; [assumption|]. split; [apply get_set_same|].
  destruct (fold_add_alias_fields (given_aliases al2)
              (update_seen e1 (clock r1))) as (G1 & G2 & G3 & G4 & G5).
  split; [exact G1|]. split; [exact G2|]. split; [exact G3|].
  split; [exact G4|]. split; [exact G5|].
  intros a. apply (fold_add_alias_In (given_aliases al2)
                                     (update_seen e1 (clock r1)) a).
Qed.

(** ** Threads, messages and the clock *)

Lemma snd_then_ret {A} (c : M A) (st : ConversationMemoryStore) :
  snd ((c ;;; ret tt) st) = snd (c st).
Proof. unfold bind, ret. destruct (c st) as [[a|e] st']; reflexivity. Qed.

Lemma add_thread_eq (tid subj : string) (st : ConversationMemoryStore) :
  add_thread clock tid subj st =
  let th :=
    match Dict.get tid (threads st) with
    | Some th =>
        mkConversationThread (thread_id th) (subject th) (participants th)
                             (messages th) (clock (reads st)) (topics th)
    | None => mkConversationThread tid subj [] [] (clock (reads st)) []
    end in
  (Ok th, mkStore (entities st) (relationships st)
                  (Dict.set tid th (threads st)) (S (reads st))).
Proof.
  unfold add_thread. unfold_monad.
  destruct (Dict.get tid (threads st)); reflexivity.
Qed.

(** Scanning for known entities only touches entity records and reads
    the clock; it returns normally. *)
Lemma scan_entities_frame (items : list (string * Entity)) (text : string) :
  forall st, exists ids ents n,
    scan_entities clock items text st
    = (Ok ids, mkStore ents (relationships st) (threads st) (reads st + n)).
Proof.
  induction items as [|[k e] items IH]; intros st; simpl.
  - exists [], (entities st), 0%nat. unfold ret. rewrite Nat.add_0_r.
    now destruct st.
  - destruct (matches e text).
    + unfold_monad. simpl.
      match goal with
      | |- context [scan_entities clock items text ?s] =>
          destruct (IH s) as (ids & ents & n & ->)
      end.
      simpl. exists (k :: ids), ents, (S n).
      now rewrite Nat.add_succ_r.
    + apply IH.
Qed.

Lemma add_message_eq (mid tid snd_ : string) (rcp : list string)
      (subj body : string) (agent : bool) (st : ConversationMemoryStore) :
  exists ids ents n,
    let th :=
      match Dict.get tid (threads st) with
      | Some th =>
          mkConversationThread (thread_id th) (subject th) (participants th)
                               (messages th) (clock (reads st)) (topics th)
      | None => mkConversationThread tid subj [] [] (clock (reads st)) []
      end in
    let msg :=
      mkConversationMessage mid tid snd_ rcp subj body
                            (clock (S (reads st))) agent ids in
    add_message clock mid tid snd_ rcp subj body agent st
    = (Ok msg,
       mkStore ents (relationships st)
         (Dict.set tid
            (thread_add_message th msg (clock (S (S (reads st)) + n)))
            (Dict.set tid th (threads st)))
         (S (S (S (reads st)) + n))).
Proof.
  unfold add_message, bind at 1. rewrite add_thread_eq. cbv zeta.
  unfold bind at 1, time at 1. cbn [reads entities relationships threads].
  unfold bind at 1, extract_entities_from_text, bind at 1, get_store at 1.
  match goal with
  | |- context [scan_entities clock ?items body ?s] =>
      destruct (scan_entities_frame items body s) as (ids & ents & n & ->)
  end.
  exists ids, ents, n. unfold_monad. simpl. reflexivity.
Qed.

Lemma analyze_thread_topics_eq (tid : string) (st : ConversationMemoryStore) :
  analyze_thread_topics tid st =
  match Dict.get tid (threads st) with
  | None => (Ok [], st)
  | Some th =>
      let topics :=
        filter (fun topic =>
                  Str.contains topic
                    (Str.lower (Str.join " " (map content (messages th)))))
               common_topics in
      (Ok topics,
       mkStore (entities st) (relationships st)
               (Dict.set tid
                  (mkConversationThread (thread_id th) (subject th)
                     (participants th) (messages th) (last_updated th)
                     topics)
                  (threads st))
               (reads st))
  end.
Proof.
  unfold analyze_thread_topics. unfold_monad.
  destruct (Dict.get tid (threads st)); reflexivity.
Qed.

Lemma messages_of_set (st : ConversationMemoryStore) (ents : Dict.t Entity)
      (rels : Dict.t Relationship) (r : nat) (k id : string)
      (th : ConversationThread) :
  messages_of (mkStore ents rels (Dict.set k th (threads st)) r) id
  = if String.eqb k id then messages th else messages_of st id.
Proof.
  unfold messages_of. simpl. destruct (String.eqb_spec k id) as [->|Hne].
  - now rewrite get_set_same.
  - now rewrite get_set_other.
Qed.

Lemma messages_of_set_set (st : ConversationMemoryStore)
      (ents : Dict.t Entity) (rels : Dict.t Relationship) (r : nat)
      (k id : string) (th th' : ConversationThread) :
  messages_of
    (mkStore ents rels (Dict.set k th' (Dict.set k th (threads st))) r) id
  = if String.eqb k id then messages th' else messages_of st id.
Proof.
  unfold messages_of. simpl. destruct (String.eqb_spec k id) as [->|Hne].
  - now rewrite get_set_same.
  - now rewrite !get_set_other.
Qed.

(** What a call can do to the clock, the threads and the relationships:
    the clock only advances; a thread's messages stay as they are or
    get one message appended, stamped with a reading taken during the
    call; only [add_relationship] touches relationships. *)
Lemma op_effect (o : op) (st : ConversationMemoryStore) :
  (reads st <= reads (snd (run_op clock o st)))%nat
  /\ (forall id,
         messages_of (snd (run_op clock o st)) id = messages_of st id
         \/ exists msg i,
             messages_of (snd (run_op clock o st)) id
             = (messages_of st id ++ [msg])%list
             /\ timestamp msg = clock i
             /\ (reads st <= i < reads (snd (run_op clock o st)))%nat)
  /\ (relationships (snd (run_op clock o st)) = relationships st
      \/ exists a b t, o = AddRelationship a b t).
Proof.
  destruct o as [n ty al | a b t | tid subj
                 | mid tid sd rcp subj body agent | text | tid];
    unfold run_op; rewrite snd_then_ret.
  - rewrite add_entity_eq.
    destruct (Dict.get (entity_key n ty) (entities st)); simpl;
      (split; [lia | split; [intros id; left; reflexivity | now left]]).
  - rewrite add_relationship_eq.
    destruct (orb _ _);
      [|destruct (Dict.get (relationship_key a b t) (relationships st))];
      simpl;
      (split; [lia | split; [intros id; left; reflexivity | right; eauto]]).
  - rewrite add_thread_eq. cbv zeta. cbn [snd reads relationships].
    split; [lia|]. split; [|now left].
    intros id. left. rewrite messages_of_set.
    destruct (String.eqb_spec tid id) as [->|Hne]; [|reflexivity].
    unfold messages_of. destruct (Dict.get id (threads st)); reflexivity.
  - destruct (add_message_eq mid tid sd rcp subj body agent st)
      as (ids & ents & n & ->).
    cbn [snd reads relationships]. split; [lia|]. split; [|now left].
    intros id. rewrite messages_of_set_set.
    destruct (String.eqb_spec tid id) as [->|Hne].
    + right. eexists. exists (S (reads st)).
      split.
      { unfold thread_add_message, messages_of. cbn [messages].
        destruct (Dict.get id (threads st)); reflexivity. }
      split; [reflexivity | lia].
    + left. reflexivity.
  - unfold extract_entities_from_text, bind, get_store.
    destruct (scan_entities_frame (entities st) text st)
      as (ids & ents & n & ->).
    simpl. split; [lia|]. split; [intros id; now left | now left].
  - rewrite analyze_thread_topics_eq.
    destruct (Dict.get tid (threads st)) as [th|] eqn:E.
    + cbv zeta. cbn [snd reads relationships].
      split; [lia|]. split; [|now left].
      intros id. left. rewrite messages_of_set.
      destruct (String.eqb_spec tid id) as [->|Hne]; [|reflexivity].
      unfold messages_of. now rewrite E.
    + simpl. split; [lia|]. split; [intros id; now left | now left].
Qed.

Lemma sorted_snoc (l : list Z) (x : Z) :
  StronglySorted Z.le l -> Forall (fun y => (y <= x)%Z) l ->
  StronglySorted Z.le (l ++ [x]).
Proof.
  induction l as [|y l IH]; simpl; intros Hs Hall.
  - repeat constructor.
  - inversion Hs as [|? ? Hl Hy]; subst.
    inversion Hall as [|? ? Hyx Hrest]; subst.
    constructor; [now apply IH|].
    apply Forall_app. split; [assumption | now constructor].
Qed.

Lemma timestamps_in_order_step (o : op) (st : ConversationMemoryStore) :
  monotone clock ->
  timestamps_in_order clock st ->
  timestamps_in_order clock (snd (run_op clock o st)).
Proof.
  intros Hmono Hinv id.
  destruct (op_effect o st) as (Hreads & Hmsgs & _).
  destruct (Hinv id) as [Hsorted Hbound].
  destruct (Hmsgs id) as [-> | (msg & i & -> & Hts & Hi)].
  - split; [assumption|].
    eapply Forall_impl; [|exact Hbound]. simpl. intros m Hm.
    specialize (Hmono _ _ Hreads). lia.
  - assert (Hnow : (clock (reads st) <= clock i)%Z)
      by (apply Hmono; lia).
    assert (Hlater : (clock i <= clock (reads (snd (run_op clock o st))))%Z)
      by (apply Hmono; lia).
    split.
    + rewrite map_app. simpl. apply sorted_snoc.
      * assumption.
      * rewrite Forall_map. eapply Forall_impl; [|exact Hbound].
        simpl. intros m Hm. lia.
    + apply Forall_app. split.
      * eapply Forall_impl; [|exact Hbound]. simpl. intros m Hm. lia.
      * constructor; [lia | constructor].
Qed.

Lemma run_ops_snoc (ops : list op) (o : op) (st : ConversationMemoryStore) :
  run_ops clock (ops ++ [o]) st
  = snd (run_op clock o (run_ops clock ops st)).
Proof. unfold run_ops. now rewrite fold_left_app. Qed.

(** Induction over the calls that built a store. *)
Lemma reachable_ind (P : ConversationMemoryStore -> Prop) :
  P empty_store ->
  (forall o st, reachable clock st -> P st -> P (snd (run_op clock o st))) ->
  forall st, reachable clock st -> P st.
Proof.
  intros H0 Hstep st [ops ->].
  induction ops as [|o ops IH] using rev_ind; [exact H0|].
  rewrite run_ops_snoc. apply Hstep; [now exists ops | exact IH].
Qed.

Lemma reachable_timestamps_in_order (st : ConversationMemoryStore) :
  monotone clock -> reachable clock st -> timestamps_in_order clock st.
Proof.
  intros Hmono. apply reachable_ind.
  - intros id. split; constructor.
  - intros o s _ Hs. now apply timestamps_in_order_step.
Qed.

(** A list already in timestamp order is left as it is by the sort. *)
Lemma sorted_by_timestamp_id (l : list ConversationMessage) :
  StronglySorted Z.le (map timestamp l) -> sorted_by_timestamp l = l.
Proof.
  unfold sorted_by_timestamp.
  induction l as [|m l IH]; simpl; intros Hs; [reflexivity|].
  inversion Hs as [|? ? Hl Hall]; subst.
  rewrite (IH Hl).
  destruct l as [|y l']; [reflexivity|]. simpl.
  inversion Hall as [|? ? Hy _]; subst.
  apply Z.leb_le in Hy. now rewrite Hy.
Qed.

(** C9.  [add_message] returns normally and appends to the thread a
    message whose timestamp is the clock reading taken inside the call
    (the reading after the one [add_thread] takes); no argument carries a
    timestamp.  With a clock that never goes back, in every store built
    through the store's methods each thread's messages are in
    non-decreasing timestamp order as listed, so sorting them by
    timestamp gives back the insertion order. *)
Theorem ingestion_time_stamps :
  monotone clock ->
  forall st : ConversationMemoryStore,
    reachable clock st ->
    (forall (mid tid sd : string) (rcp : list string) (subj body : string)
            (agent : bool),
        exists msg,
          fst (add_message clock mid tid sd rcp subj body agent st) = Ok msg
          /\ timestamp msg = clock (S (reads st))
          /\ messages_of
               (snd (add_message clock mid tid sd rcp subj body agent st))
               tid
             = (messages_of st tid ++ [msg])%list)
    /\ (forall id th,
           Dict.get id (threads st) = Some th ->
           StronglySorted Z.le (map timestamp (messages th))
           /\ sorted_by_timestamp (messages th) = messages th).
Proof.
  intros Hmono st Hreach. split.
  - intros mid tid sd rcp subj body agent.
    destruct (add_message_eq mid tid sd rcp subj body agent st)
      as (ids & ents & n & ->).
    eexists. split; [reflexivity|]. split; [reflexivity|].
    cbn [snd]. rewrite messages_of_set_set, String.eqb_refl.
    unfold thread_add_message, messages_of. cbn [messages].
    destruct (Dict.get tid (threads st)); reflexivity.
  - intros id th Hget.
    destruct (reachable_timestamps_in_order st Hmono Hreach id)
      as [Hsorted _].
    unfold messages_of in Hsorted. rewrite Hget in Hsorted.
    split; [assumption | now apply sorted_by_timestamp_id].
Qed.

(** ** Strength *)

Ltac pick_level := repeat (first [left; reflexivity | right]).

(** The levels are closed under [strengthen()], lie in [0, 1], and each
    is no larger than its successor. *)
Lemma levels_facts (s : spec_float) :
  In s strength_levels ->
  In (strength_step s) strength_levels
  /\ in_unit_interval s
  /\ F64.leb s (strength_step s) = true
  /\ F64.leb s s = true.
Proof.
  unfold strength_levels. simpl.
  intros H.
  repeat (destruct H as [<- | H]; [vm_compute; repeat split; pick_level|]).
  contradiction.
Qed.

Lemma add_relationship_strengths (a b t : string)
      (st : ConversationMemoryStore) :
  strengths_on_levels st ->
  strengths_on_levels (snd (add_relationship clock a b t st)).
Proof.
  intros Hinv k r. rewrite add_relationship_eq.
  destruct (orb _ _); [apply Hinv|].
  destruct (Dict.get (relationship_key a b t) (relationships st))
    as [r0|] eqn:E; cbn [snd relationships];
    (destruct (String.eqb_spec (relationship_key a b t) k) as [<-|Hne];
     [rewrite get_set_same; intros [= <-]
     | rewrite get_set_other by assumption; apply Hinv]).
  - simpl. apply (levels_facts (strength r0)). exact (Hinv _ _ E).
  - simpl. now left.
Qed.

Lemma run_op_strengths (o : op) (st : ConversationMemoryStore) :
  strengths_on_levels st ->
  strengths_on_levels (snd (run_op clock o st)).
Proof.
  intros Hinv.
  destruct (op_effect o st) as (_ & _ & [Hsame | (a & b & t & ->)]).
  - unfold strengths_on_levels. rewrite Hsame. exact Hinv.
  - unfold run_op. rewrite snd_then_ret.
    now apply add_relationship_strengths.
Qed.

Lemma reachable_strengths (st : ConversationMemoryStore) :
  reachable clock st -> strengths_on_levels st.
Proof.
  apply reachable_ind.
  - intros k r. discriminate.
  - intros o s _ Hs. now apply run_op_strengths.
Qed.

(** Across one call an edge stays in the store and its strength does not
    go down. *)
Lemma run_op_strength_monotone (o : op) (st : ConversationMemoryStore)
      (k : string) (r : Relationship) :
  strengths_on_levels st ->
  Dict.get k (relationships st) = Some r ->
  exists r',
    Dict.get k (relationships (snd (run_op clock o st))) = Some r'
    /\ F64.leb (strength r) (strength r') = true.
Proof.
  intros Hinv Hget.
  destruct (levels_facts (strength r) (Hinv k r Hget))
    as (_ & _ & Hstep & Hrefl).
  destruct (op_effect o st) as (_ & _ & [Hsame | (a & b & t & ->)]).
  - exists r. rewrite Hsame. now split.
  - unfold run_op. rewrite snd_then_ret, add_relationship_eq.
    destruct (orb _ _); [exists r; now split|].
    destruct (Dict.get (relationship_key a b t) (relationships st))
      as [r0|] eqn:E; cbn [snd relationships];
      destruct (String.eqb_spec (relationship_key a b t) k) as [<-|Hne].
    + rewrite get_set_same. eexists. split; [reflexivity|].
      assert (r0 = r) by congruence. subst r0. exact Hstep.
    + rewrite get_set_other by assumption. exists r. now split.
    + congruence.
    + rewrite get_set_other by assumption. exists r. now split.
Qed.

(** C5.  In a store built through the store's methods every strength
    lies in [0, 1].  A call that creates the edge stores strength 0.0; a
    call on an edge already stored replaces its strength [s] by
    [min(1.0, s + 0.1)] in binary64 arithmetic, which is at least [s] and
    at most 1.0.  Whatever the call, a stored edge stays stored and its
    strength does not decrease. *)
Theorem strength_invariant :
  forall st : ConversationMemoryStore,
    reachable clock st ->
    (forall k r, Dict.get k (relationships st) = Some r ->
                 in_unit_interval (strength r))
    /\ (forall a b t,
           Dict.mem a (entities st) = true ->
           Dict.mem b (entities st) = true ->
           exists r',
             Dict.get (relationship_key a b t)
                      (relationships (snd (add_relationship clock a b t st)))
             = Some r'
             /\ match Dict.get (relationship_key a b t) (relationships st)
                with
                | None => strength r' = F64.zero
                | Some r =>
                    strength r'
                    = F64.min F64.one (F64.add (strength r) F64.tenth)
                    /\ F64.leb (strength r) (strength r') = true
                    /\ F64.leb (strength r') F64.one = true
                end)
    /\ (forall (o : op) k r,
           Dict.get k (relationships st) = Some r ->
           exists r',
             Dict.get k (relationships (snd (run_op clock o st))) = Some r'
             /\ F64.leb (strength r) (strength r') = true).
Proof.
  intros st Hreach.
  pose proof (reachable_strengths st Hreach) as Hinv.
  split; [|split].
  - intros k r Hget. apply (levels_facts (strength r)). exact (Hinv k r Hget).
  - intros a b t Ha Hb. rewrite add_relationship_eq, Ha, Hb. simpl.
    destruct (Dict.get (relationship_key a b t) (relationships st))
      as [r|] eqn:E; cbn [snd relationships]; rewrite get_set_same;
      eexists; (split; [reflexivity|]).
    + destruct (levels_facts (strength r) (Hinv _ _ E))
        as (Hnext & _ & Hstep & _).
      simpl. split; [reflexivity|]. split; [exact Hstep|].
      apply (levels_facts _ Hnext).
    + reflexivity.
  - intros o k r Hget. now apply run_op_strength_monotone.
Qed.

End Store.

(** ** The context summary *)

Lemma append_assoc (a b c : string) : ((a ++ b) ++ c = a ++ (b ++ c))%string.
Proof. induction a as [|x a IH]; simpl; [reflexivity | now rewrite IH]. Qed.

Lemma append_empty_r (a : string) : (a ++ "" = a)%string.
Proof. induction a as [|x a IH]; simpl; [reflexivity | now rewrite IH]. Qed.

Lemma insert_by_timestamp_perm (m : ConversationMessage)
      (l : list ConversationMessage) :
  Permutation (m :: l) (insert_by_timestamp m l).
Proof.
  induction l as [|y l IH]; simpl; [reflexivity|].
  destruct (timestamp m <=? timestamp y)%Z; [reflexivity|].
  rewrite perm_swap. now constructor.
Qed.

Lemma sorted_by_timestamp_perm (l : list ConversationMessage) :
  Permutation l (sorted_by_timestamp l).
Proof.
  unfold sorted_by_timestamp.
  induction l as [|m l IH]; simpl; [reflexivity|].
  rewrite <- insert_by_timestamp_perm. now constructor.
Qed.

Lemma insert_by_timestamp_sorted (m : ConversationMessage)
      (l : list ConversationMessage) :
  StronglySorted Z.le (map timestamp l) ->
  StronglySorted Z.le (map timestamp (insert_by_timestamp m l)).
Proof.
  induction l as [|y l IH]; simpl; intros Hs.
  - repeat constructor.
  - inversion Hs as [|? ? Hl Hall]; subst.
    destruct (timestamp m <=? timestamp y)%Z eqn:E; simpl.
    + apply Z.leb_le in E. constructor; [assumption|].
      constructor; [assumption|].
      eapply Forall_impl; [|exact Hall]. simpl. intros z Hz. lia.
    + apply Z.leb_gt in E. constructor; [now apply IH|].
      rewrite Forall_map. rewrite Forall_map in Hall.
      rewrite Forall_forall in *. intros z Hz.
      apply (Permutation_in _ (Permutation_sym (insert_by_timestamp_perm m l)))
        in Hz.
      destruct Hz as [<- | Hz]; [lia | now apply Hall].
Qed.

Lemma sorted_by_timestamp_sorted (l : list ConversationMessage) :
  StronglySorted Z.le (map timestamp (sorted_by_timestamp l)).
Proof.
  unfold sorted_by_timestamp.
  induction l as [|m l IH]; simpl; [constructor|].
  now apply insert_by_timestamp_sorted.
Qed.

Lemma sorted_by_timestamp_length (l : list ConversationMessage) :
  List.length (sorted_by_timestamp l) = List.length l.
Proof. symmetry. apply Permutation_length, sorted_by_timestamp_perm. Qed.

(** The negative slice keeps the last [k] elements when [0 < k < len]. *)
Lemma slice_from_negative {A} (k : Z) (l : list A) :
  (0 < k < Z.of_nat (List.length l))%Z ->
  slice_from (- k) l = skipn (List.length l - Z.to_nat k) l.
Proof.
  intros Hk. unfold slice_from.
  destruct (Z.ltb_spec (- k) 0); [|lia].
  f_equal. lia.
Qed.

Lemma recent_messages_last (th : ConversationThread) (max_messages : Z) :
  (0 < max_messages)%Z ->
  recent_messages th max_messages
  = last_n (Z.to_nat max_messages) (sorted_by_timestamp (messages th)).
Proof.
  intros Hpos. unfold recent_messages, last_n.
  destruct (Z.ltb_spec max_messages
              (Z.of_nat (List.length (sorted_by_timestamp (messages th))))).
  - apply slice_from_negative. lia.
  - replace (List.length (sorted_by_timestamp (messages th))
             - Z.to_nat max_messages)%nat with 0%nat by lia.
    reflexivity.
Qed.

Lemma fold_append (f : ConversationMessage -> string)
      (l : list ConversationMessage) (init : string) :
  fold_left (fun context msg => (context ++ f msg)%string) l init
  = (init ++ String.concat "" (map f l))%string.
Proof.
  revert init. induction l as [|m l IH]; intros init; simpl.
  - now rewrite append_empty_r.
  - rewrite IH, append_assoc. f_equal.
    destruct (map f l) as [|x xs]; simpl.
    + apply append_empty_r.
    + reflexivity.
Qed.

(** C8 (as amended).  For a positive [max_messages] the summary is the
    line "Subject: <subject>", a blank line, and then, for the last
    [max_messages] messages of the thread in ascending timestamp order
    (a stable sort, so insertion order does not matter), the lines
    "From: <sender>" -- "From: You (Sofia)" for a message of the agent --
    and "Date: <formatted timestamp>", the content and a blank line.  The
    default for [max_messages] is 5. *)
Theorem context_summary_rendering :
  forall (strftime_local : Z -> string) (th : ConversationThread)
         (max_messages : Z),
    (0 < max_messages)%Z ->
    Permutation (messages th) (sorted_by_timestamp (messages th))
    /\ StronglySorted Z.le
         (map timestamp (sorted_by_timestamp (messages th)))
    /\ get_context_summary strftime_local th max_messages
       = ("Subject: " ++ subject th ++ Str.nl ++ Str.nl
            ++ String.concat ""
                 (map (fun msg =>
                         "From: "
                           ++ (if is_from_agent msg then "You (Sofia)"
                               else sender msg)
                           ++ Str.nl
                           ++ "Date: " ++ strftime_local (timestamp msg)
                           ++ Str.nl
                           ++ content msg ++ Str.nl ++ Str.nl)
                      (last_n (Z.to_nat max_messages)
                              (sorted_by_timestamp (messages th)))))%string
    /\ default_max_messages = 5%Z.
Proof.
  intros strftime_local th max_messages Hpos.
  split; [apply sorted_by_timestamp_perm|].
  split; [apply sorted_by_timestamp_sorted|].
  split; [|reflexivity].
  unfold get_context_summary.
  rewrite fold_append, recent_messages_last by assumption.
  match goal with
  | |- _ = (_ ++ _ ++ _ ++ _ ++ String.concat "" (map ?F _))%string =>
      assert (HF : forall msg, F msg = render_message strftime_local msg)
        by (intros msg; unfold render_message; now rewrite !append_assoc);
      rewrite (map_ext F _ HF)
  end.
  now rewrite !append_assoc.
Qed.

(** The label printed for the agent is "You (Sofia)", not "You (Agent)";
    and with [max_messages = 0] the whole thread is rendered, because
    [l[-0:]] is [l]. *)
Lemma summary_differs_from_specification :
  get_context_summary fixed_date budget_thread 5
  <> spec_context_summary fixed_date budget_thread 5
  /\ get_context_summary fixed_date budget_thread 0
     <> spec_context_summary fixed_date budget_thread 0.
Proof. split; vm_compute; discriminate. Qed.

(** A message filed first but stamped later is rendered last. *)
Example out_of_order_rendering :
  map message_id (recent_messages budget_thread 5) = ["m1"; "m2"].
Proof. reflexivity. Qed.

(** ** The theorems on a concrete store *)

(** The scenario of the specification: [person_unknown] was never
    created. *)
Lemma add_relationship_unknown_entity_witness :
  (Dict.mem "person_unknown" (entities acme_store) = false
   \/ Dict.mem "organization_acme" (entities acme_store) = false)
  /\ add_relationship tick "person_unknown" "organization_acme" "works_at"
                      acme_store
     = (Raise (ValueError
                 "Both entities must exist before creating a relationship"),
        acme_store).
Proof.
  assert (H : Dict.mem "person_unknown" (entities acme_store) = false
              \/ Dict.mem "organization_acme" (entities acme_store) = false)
    by (left; reflexivity).
  split; [exact H|].
  exact (add_relationship_unknown_entity tick "person_unknown"
           "organization_acme" "works_at" acme_store H).
Defined.

Lemma relationship_edge_symmetric_witness :
  Dict.mem "person_alice_smith" (entities acme_store) = true
  /\ Dict.mem "organization_acme" (entities acme_store) = true
  /\ fst (add_relationship tick "person_alice_smith" "organization_acme"
                           "manages" acme_store)
     = Ok "organization_acme_person_alice_smith_manages".
Proof.
  assert (Ha : Dict.mem "person_alice_smith" (entities acme_store) = true)
    by reflexivity.
  assert (Hb : Dict.mem "organization_acme" (entities acme_store) = true)
    by reflexivity.
  split; [exact Ha|]. split; [exact Hb|].
  exact (proj1 (relationship_edge_symmetric tick "person_alice_smith"
                  "organization_acme" "manages" acme_store Ha Hb)).
Defined.

Lemma strength_invariant_witness :
  reachable tick acme_store
  /\ forall k r, Dict.get k (relationships acme_store) = Some r ->
                 in_unit_interval (strength r).
Proof.
  assert (H : reachable tick acme_store) by (exists acme_calls; reflexivity).
  split; [exact H|].
  exact (proj1 (strength_invariant tick acme_store H)).
Defined.

Lemma add_entity_upsert_witness :
  Dict.wf (entities empty_store)
  /\ fst (add_entity tick "Alice Smith" "person" None empty_store)
     = Ok "person_alice_smith".
Proof.
  assert (H : Dict.wf (entities empty_store)) by constructor.
  split; [exact H|].
  exact (proj1 (add_entity_upsert tick "Alice Smith" "person" None
                  (Some ["Ali"]) empty_store H)).
Defined.

Lemma context_summary_rendering_witness :
  (0 < 5)%Z
  /\ Permutation (messages budget_thread)
                 (sorted_by_timestamp (messages budget_thread)).
Proof.
  assert (H : (0 < 5)%Z) by lia.
  split; [exact H|].
  exact (proj1 (context_summary_rendering fixed_date budget_thread 5 H)).
Defined.

Lemma ingestion_time_stamps_witness :
  monotone tick
  /\ reachable tick acme_store
  /\ forall id th,
      Dict.get id (threads acme_store) = Some th ->
      StronglySorted Z.le (map timestamp (messages th))
      /\ sorted_by_timestamp (messages th) = messages th.
Proof.
  assert (Hm : monotone tick) by (intros i j H; unfold tick; lia).
  assert (Hr : reachable tick acme_store)
    by (exists acme_calls; reflexivity).
  split; [exact Hm|]. split; [exact Hr|].
  exact (proj2 (ingestion_time_stamps tick Hm acme_store Hr)).
Defined.

(** The id keeps the capitalisation of the type: ["Person"] and
    ["person"] give different ids. *)
Lemma entity_id_keeps_type_case :
  ~ (forall (clock : nat -> Z) (n ty : string) (al : option (list string))
            (st : ConversationMemoryStore),
        fst (add_entity clock n ty al st)
        = Ok (Str.lower ty ++ "_"
                ++ Str.replace_char " " "_" (Str.lower n))%string).
Proof.
  intros H.
  specialize (H (fun _ => 0%Z) "Bob Smith" "Person" None empty_store).
  vm_compute in H. discriminate H.
Qed.

End MemoryProofs.

(* ================================================================== *)
(** * Properties of the extractors *)
(* ================================================================== *)

Module IntegrationProofs.

Import Memory Integration DictProofs MemoryProofs.
Local Open Scope monad_scope.

(** ** Returning and raising through the monad *)

Lemma never_raises_ret {A} (a : A) : never_raises (ret a).
Proof. intros st. now exists a. Qed.

Lemma never_raises_bind {A B} (c : M A) (k : A -> M B) :
  never_raises c -> (forall a, never_raises (k a)) -> never_raises (bind c k).
Proof.
  intros Hc Hk st. unfold bind. destruct (Hc st) as [a Ha].
  destruct (c st) as [[a'|e] st']; simpl in Ha; [|discriminate].
  apply Hk.
Qed.

Lemma never_raises_for_each {A} (l : list A) (body : A -> M unit) :
  (forall x, In x l -> never_raises (body x)) ->
  never_raises (for_each l body).
Proof.
  induction l as [|x l IH]; simpl; intros H.
  - apply never_raises_ret.
  - apply never_raises_bind; [apply H; now left|].
    intros _. apply IH. intros y Hy. apply H. now right.
Qed.

Lemma never_raises_try_except {A} (c : M A) (h : exn -> M A) :
  (forall e, never_raises (h e)) -> never_raises (try_except c h).
Proof.
  intros Hh st. unfold try_except.
  destruct (c st) as [[a|e] st']; [now exists a | apply Hh].
Qed.

Lemma always_raises_bind {A B} (e : exn) (c : M A) (k : A -> M B) :
  always_raises e c -> always_raises e (bind c k).
Proof.
  intros Hc st. unfold bind. specialize (Hc st).
  destruct (c st) as [[a|e'] st']; simpl in Hc; [discriminate|].
  injection Hc as ->. reflexivity.
Qed.

Lemma always_raises_after {A B} (e : exn) (c : M A) (k : A -> M B) :
  never_raises c -> (forall a, always_raises e (k a)) ->
  always_raises e (bind c k).
Proof.
  intros Hc Hk st. unfold bind. destruct (Hc st) as [a Ha].
  destruct (c st) as [[a'|e'] st']; simpl in Ha; [|discriminate].
  apply Hk.
Qed.

Lemma not_both {A} (e : exn) (c : M A) :
  never_raises c -> always_raises e c -> False.
Proof.
  intros Hn Ha. destruct (Hn empty_store) as [a H].
  rewrite (Ha empty_store) in H. discriminate.
Qed.

(** A loop whose iterations each return or each raise [e]: it returns when
    all iterations do, and raises [e] as soon as one does. *)
Lemma for_each_cases {A} (e : exn) (l : list A) (body : A -> M unit) :
  (forall x, In x l -> never_raises (body x) \/ always_raises e (body x)) ->
  (never_raises (for_each l body)
   /\ forall x, In x l -> never_raises (body x))
  \/ (always_raises e (for_each l body)
      /\ exists x, In x l /\ always_raises e (body x)).
Proof.
  induction l as [|x l IH]; simpl; intros H.
  - left. split; [apply never_raises_ret | contradiction].
  - destruct (H x (or_introl eq_refl)) as [Hx | Hx].
    + destruct IH as [[Hl Hall] | [Hl [y [Hy Hr]]]].
      * intros y Hy. apply H. now right.
      * left. split; [apply never_raises_bind; auto|].
        intros y [<- | Hy]; auto.
      * right. split; [apply always_raises_after; auto | eauto].
    + right. split; [now apply always_raises_bind | eauto].
Qed.

Lemma returns_ret {A} (P : ConversationMemoryStore -> Prop) (a : A) :
  returns_with P (ret a) (fun _ => P).
Proof. intros st H. exists a, st. now split. Qed.

Lemma returns_bind {A B} (P : ConversationMemoryStore -> Prop) (c : M A)
      (R : A -> ConversationMemoryStore -> Prop) (k : A -> M B)
      (Q : B -> ConversationMemoryStore -> Prop) :
  returns_with P c R -> (forall a, returns_with (R a) (k a) Q) ->
  returns_with P (bind c k) Q.
Proof.
  intros Hc Hk st HP. unfold bind.
  destruct (Hc st HP) as (a & st' & E & HR). rewrite E. now apply Hk.
Qed.

Lemma returns_for_each {A} (I : ConversationMemoryStore -> Prop)
      (l : list A) (body : A -> M unit) :
  (forall x, In x l -> returns_with I (body x) (fun _ => I)) ->
  returns_with I (for_each l body) (fun _ => I).
Proof.
  induction l as [|x l IH]; simpl; intros H.
  - apply returns_ret.
  - eapply returns_bind; [apply H; now left|].
    intros u. apply IH. intros y Hy. apply H. now right.
Qed.

Lemma returns_never_raises {A} (c : M A)
      (Q : A -> ConversationMemoryStore -> Prop) :
  returns_with (fun _ => True) c Q -> never_raises c.
Proof.
  intros H st. destruct (H st I) as (a & st' & E & _).
  exists a. now rewrite E.
Qed.

Lemma In_mem {V} (k : string) (v : V) (d : Dict.t V) :
  In (k, v) d -> Dict.mem k d = true.
Proof.
  intros H. apply mem_In_keys. unfold Dict.keys.
  change k with (fst (k, v)). now apply in_map.
Qed.

Section Extractors.

Variable clock : nat -> Z.
Variable re_findall : string -> string -> list string.
Variable re_match_group : string -> string -> option string.
Variable re_search_group : string -> string -> option string.
Variable re_sub : string -> string -> string -> string.


Lemma never_raises_add_entity (n ty : string) (al : option (list string)) :
  never_raises (add_entity clock n ty al).
Proof.
  intros st. destruct (add_entity_stores clock n ty al st) as [e ->].
  eexists. reflexivity.
Qed.

Lemma never_raises_add_message (mid tid sd : string) (rcp : list string)
      (subj body : string) (agent : bool) :
  never_raises (add_message clock mid tid sd rcp subj body agent).
Proof.
  intros st.
  destruct (add_message_eq clock mid tid sd rcp subj body agent st)
    as (ids & ents & n & ->).
  eexists. reflexivity.
Qed.

Lemma never_raises_then_unit {A} (c : M A) :
  never_raises c -> never_raises (c ;;; ret tt).
Proof.
  intros H. apply never_raises_bind; [assumption|].
  intros _. apply never_raises_ret.
Qed.

Lemma never_raises_extract_named (ty m : string) :
  never_raises (extract_named clock ty m).
Proof.
  unfold extract_named. destruct (andb _ _).
  - apply never_raises_then_unit, never_raises_add_entity.
  - apply never_raises_ret.
Qed.

Lemma never_raises_extract_person (m : string) :
  never_raises (extract_person clock m).
Proof.
  unfold extract_person. destruct (andb _ _).
  - apply never_raises_then_unit, never_raises_add_entity.
  - apply never_raises_ret.
Qed.

Lemma never_raises_extract_topic (subject : string) :
  never_raises (extract_topic clock re_sub subject).
Proof.
  unfold extract_topic. destruct (Str.nonempty subject).
  - destruct (Str.nonempty _).
    + apply never_raises_then_unit, never_raises_add_entity.
    + apply never_raises_ret.
  - apply never_raises_ret.
Qed.

Lemma never_raises_for_matches (patterns : list string) (content : string)
      (body : string -> M unit) :
  (forall m, never_raises (body m)) ->
  never_raises (for_matches re_findall patterns content body).
Proof.
  intros H. unfold for_matches. apply never_raises_for_each.
  intros p _. apply never_raises_for_each. intros m _. apply H.
Qed.

(** The sender rule records the relationship between two entities it has
    just stored, so [add_relationship] finds both. *)
Lemma never_raises_extract_sender (sender : string) :
  never_raises
    (extract_sender clock re_match_group re_search_group sender).
Proof.
  unfold extract_sender.
  destruct (Str.nonempty sender); [|apply never_raises_ret].
  destruct (re_match_group "^([^<]+)" sender) as [g|];
    [|apply never_raises_ret].
  intros st. unfold bind at 1.
  destruct (add_entity_stores clock (Str.strip g) "person" (Some [sender]) st)
    as [e1 ->].
  destruct (re_search_group "<([^>]+)>" sender) as [email|];
    [|eexists; reflexivity].
  destruct (andb _ _); [|eexists; reflexivity].
  unfold bind at 1.
  match goal with
  | |- context [add_entity clock ?n "organization" None ?s] =>
      destruct (add_entity_stores clock n "organization" None s) as [e2 ->]
  end.
  unfold bind at 1. rewrite add_relationship_eq.
  cbn [entities relationships threads reads].
  match goal with
  | |- context [Dict.mem ?p (Dict.set ?k2 e2 (Dict.set ?k1 e1 ?d))] =>
      replace (Dict.mem p (Dict.set k2 e2 (Dict.set k1 e1 d))) with true
        by (rewrite !mem_set;
            replace (String.eqb k1 p) with true
              by (symmetry; apply String.eqb_refl);
            now rewrite orb_true_r)
  end.
  match goal with
  | |- context [Dict.mem ?o (Dict.set ?k2 e2 ?d)] =>
      replace (Dict.mem o (Dict.set k2 e2 d)) with true
        by (rewrite mem_set;
            replace (String.eqb k2 o) with true
              by (symmetry; apply String.eqb_refl);
            reflexivity)
  end.
  simpl negb. cbn [orb].
  destruct (Dict.get _ _); eexists; reflexivity.
Qed.

(** ** The date rule *)

Lemma extract_date_cases (m : string) :
  (Str.strip m = "" /\ never_raises (extract_date clock m))
  \/ (Str.strip m <> ""
      /\ always_raises unexpected_metadata (extract_date clock m)).
Proof.
  unfold extract_date. destruct (Str.strip m) as [|c s] eqn:E.
  - left. split; [reflexivity | apply never_raises_ret].
  - right. split; [discriminate|]. intros st. reflexivity.
Qed.

Lemma date_matches_cases (l : list string) :
  (never_raises (for_each l (extract_date clock))
   /\ forall m, In m l -> Str.strip m = "")
  \/ (always_raises unexpected_metadata (for_each l (extract_date clock))
      /\ exists m, In m l /\ Str.strip m <> "").
Proof.
  destruct (for_each_cases unexpected_metadata l (extract_date clock))
    as [[Hn Hall] | [Hr [m [Hin Hm]]]].
  - intros m _. destruct (extract_date_cases m) as [[_ H] | [_ H]]; auto.
  - left. split; [assumption|]. intros m Hin.
    destruct (extract_date_cases m) as [[H _] | [_ H]]; [assumption|].
    exfalso. exact (not_both _ _ (Hall m Hin) H).
  - right. split; [assumption|]. exists m. split; [assumption|].
    destruct (extract_date_cases m) as [[_ H] | [H _]]; [|assumption].
    exfalso. exact (not_both _ _ H Hm).
Qed.

Lemma date_rule_cases (content : string) :
  (never_raises
     (for_matches re_findall date_patterns content (extract_date clock))
   /\ forall pattern m,
       In pattern date_patterns -> In m (re_findall pattern content) ->
       Str.strip m = "")
  \/ (always_raises unexpected_metadata
        (for_matches re_findall date_patterns content (extract_date clock))
      /\ exists pattern m,
          In pattern date_patterns /\ In m (re_findall pattern content)
          /\ Str.strip m <> "").
Proof.
  unfold for_matches.
  destruct (for_each_cases unexpected_metadata date_patterns
              (fun pattern =>
                 for_each (re_findall pattern content) (extract_date clock)))
    as [[Hn Hall] | [Hr [p [Hin Hp]]]].
  - intros p _.
    destruct (date_matches_cases (re_findall p content)) as [[H _]|[H _]];
      auto.
  - left. split; [assumption|]. intros p m Hp Hm.
    destruct (date_matches_cases (re_findall p content))
      as [[_ H] | [H _]]; [now apply H|].
    exfalso. exact (not_both _ _ (Hall p Hp) H).
  - right. split; [assumption|]. exists p.
    destruct (date_matches_cases (re_findall p content))
      as [[H _] | [_ [m [Hm Hne]]]]; [|eauto].
    exfalso. exact (not_both _ _ H Hp).
Qed.

(** The five rules that run before the date rule all return. *)
Lemma never_raises_before_dates (content sender subject : string)
      (k : M unit) (e : exn) :
  let rules_then (rest : M unit) : M unit :=
    extract_sender clock re_match_group re_search_group sender ;;;
    for_matches re_findall org_patterns content
                (extract_named clock "organization") ;;;
    for_matches re_findall project_patterns content
                (extract_named clock "project") ;;;
    for_matches re_findall person_patterns content
                (extract_person clock) ;;;
    extract_topic clock re_sub subject ;;;
    rest in
  (never_raises k -> never_raises (rules_then k))
  /\ (always_raises e k -> always_raises e (rules_then k)).
Proof.
  cbv zeta.
  assert (H1 := never_raises_extract_sender sender).
  assert (H2 := never_raises_for_matches org_patterns content _
                  (never_raises_extract_named "organization")).
  assert (H3 := never_raises_for_matches project_patterns content _
                  (never_raises_extract_named "project")).
  assert (H4 := never_raises_for_matches person_patterns content _
                  (never_raises_extract_person)).
  assert (H5 := never_raises_extract_topic subject).
  split; intros Hk.
  - repeat (apply never_raises_bind; [assumption | intros _]). assumption.
  - repeat (apply always_raises_after; [assumption | intros _]). assumption.
Qed.

(** The entity extractor returns normally exactly when no date pattern
    has a non-blank match. *)
Lemma entity_extraction_cases (content sender subject : string) :
  (never_raises
     (_extract_entities_from_email clock re_findall re_match_group
        re_search_group re_sub content sender subject)
   /\ forall pattern m,
       In pattern date_patterns -> In m (re_findall pattern content) ->
       Str.strip m = "")
  \/ (always_raises unexpected_metadata
        (_extract_entities_from_email clock re_findall re_match_group
           re_search_group re_sub content sender subject)
      /\ exists pattern m,
          In pattern date_patterns /\ In m (re_findall pattern content)
          /\ Str.strip m <> "").
Proof.
  unfold _extract_entities_from_email.
  destruct (never_raises_before_dates content sender subject
              (for_matches re_findall date_patterns content
                           (extract_date clock))
              unexpected_metadata) as [Hn Hr].
  destruct (date_rule_cases content) as [[H Hall] | [H Hex]].
  - left. split; [now apply Hn | assumption].
  - right. split; [now apply Hr | assumption].
Qed.

(** C3.  When one of the date patterns has a non-blank match in the
    content, [_extract_entities_from_email] raises [TypeError]: the date
    rule calls [add_entity] with a [metadata] keyword that the method
    does not take.  The exception leaves the extractor instead of being
    turned into an empty contribution of that rule. *)
Theorem date_match_raises_type_error :
  forall (content sender subject pattern m : string)
         (st : ConversationMemoryStore),
    In pattern date_patterns ->
    In m (re_findall pattern content) ->
    Str.strip m <> "" ->
    fst (_extract_entities_from_email clock re_findall re_match_group
           re_search_group re_sub content sender subject st)
    = Raise (TypeError
               "add_entity() got an unexpected keyword argument 'metadata'").
Proof.
  intros content sender subject pattern m st Hp Hm Hne.
  destruct (entity_extraction_cases content sender subject)
    as [[_ Hall] | [Hr _]].
  - exfalso. apply Hne. now apply (Hall pattern m).
  - apply Hr.
Qed.

(** ** The caller *)

Variable re_search : string -> string -> option bool.
Variable extract_content : Gmail.Message -> string.
Variable strftime_local : Z -> string.

(** [process_email] itself never raises: whatever the extractors raise
    is caught by its [except Exception]. *)
Lemma never_raises_process_email (email_data : Gmail.Message)
      (is_from_agent : bool) :
  never_raises
    (process_email clock re_findall re_match_group re_search_group re_sub
       re_search extract_content strftime_local email_data is_from_agent).
Proof.
  unfold process_email. apply never_raises_try_except.
  intros e. apply never_raises_ret.
Qed.

(** X21.  When a date pattern matches, the exception of the entity extractor
    ends the [try] block before relationships, topics and action items
    are looked at, and the answer is the fall-back context. *)
Lemma process_email_falls_back (email_data : Gmail.Message)
      (is_from_agent : bool) (pattern m : string)
      (st : ConversationMemoryStore) :
  let content :=
    if Str.nonempty (extract_content email_data)
    then extract_content email_data
    else "[No content available]" in
  In pattern date_patterns ->
  In m (re_findall pattern content) ->
  Str.strip m <> "" ->
  fst (process_email clock re_findall re_match_group re_search_group re_sub
         re_search extract_content strftime_local email_data is_from_agent
         st)
  = Ok (mkMemoryContext
          ("Subject: " ++ header_or_empty "subject" email_data
             ++ Str.nl ++ Str.nl
             ++ "From: " ++ header_or_empty "from" email_data)
          [] [] []).
Proof.
  intros content Hp Hm Hne. unfold process_email. fold content.
  unfold try_except.
  match goal with
  | |- context [bind ?c ?k st] =>
      assert (Hr : always_raises unexpected_metadata (bind c k))
  end.
  { apply always_raises_after; [apply never_raises_add_message|].
    intros _. apply always_raises_bind.
    destruct (entity_extraction_cases content
                (header_or_empty "from" email_data)
                (header_or_empty "subject" email_data))
      as [[_ Hall] | [H _]]; [|exact H].
    exfalso. apply Hne. now apply (Hall pattern m). }
  specialize (Hr st).
  match goal with
  | |- context [bind ?c ?k st] => destruct (bind c k st) as [[a|e] st']
  end; [discriminate | reflexivity].
Qed.

(** ** The relationship extractor *)

(** Scanning returns ids of stored entities and keeps the set of stored
    ids. *)
Lemma scan_entities_ids (items : list (string * Entity)) (text : string) :
  forall st,
    (forall k e, In (k, e) items -> Dict.mem k (entities st) = true) ->
    exists ids st',
      scan_entities clock items text st = (Ok ids, st')
      /\ (forall id, In id ids -> In id (map fst items))
      /\ (forall k, Dict.mem k (entities st') = Dict.mem k (entities st)).
Proof.
  induction items as [|[k e] items IH]; intros st Hin; simpl.
  - exists [], st. repeat split; auto.
  - destruct (matches e text).
    + unfold bind at 1, time at 1. unfold bind at 1, put_entity at 1.
      unfold set_entities at 1.
      cbn [entities relationships threads reads].
      match goal with
      | |- context [bind _ _ ?s] =>
          destruct (IH s) as (ids & st' & E & Hids & Hmem)
      end.
      { intros k' e' H'. simpl. rewrite mem_set.
        rewrite (Hin k' e') by (now right). apply orb_true_r. }
      unfold bind. rewrite E. exists (k :: ids), st'.
      split; [reflexivity|]. split.
      * intros id [<- | H]; [now left | right; now apply Hids].
      * intros k'. rewrite Hmem. simpl. rewrite mem_set.
        destruct (String.eqb_spec k k') as [<-|Hne]; [|reflexivity].
        simpl. symmetry. apply (Hin k e). now left.
    + destruct (IH st) as (ids & st' & E & Hids & Hmem).
      { intros k' e' H'. apply (Hin k' e'). now right. }
      exists ids, st'. split; [assumption|]. split; [|assumption].
      intros id H. right. now apply Hids.
Qed.

Lemma extract_entities_from_text_ids (text : string) :
  returns_with (fun _ => True) (extract_entities_from_text clock text)
               (fun ids st => holds_entities ids st).
Proof.
  intros st _. unfold extract_entities_from_text, bind, get_store.
  destruct (scan_entities_ids (entities st) text st)
    as (ids & st' & E & Hids & Hmem).
  { intros k e H. now apply (In_mem k e). }
  exists ids, st'. split; [assumption|].
  intros id Hid. rewrite Hmem. apply mem_In_keys. now apply Hids.
Qed.

Lemma add_relationship_returns (ids : list string) (a b t : string) :
  In a ids -> In b ids ->
  returns_with (holds_entities ids) (add_relationship clock a b t)
               (fun _ => holds_entities ids).
Proof.
  intros Ha Hb st H. rewrite add_relationship_eq, (H a Ha), (H b Hb). simpl.
  destruct (Dict.get (relationship_key a b t) (relationships st));
    eexists; eexists; (split; [reflexivity | exact H]).
Qed.

Section PatternsCompile.

(** Every pattern handed to [re.search] compiles. *)
Hypothesis patterns_compile : forall pattern s, re_search pattern s <> None.

Lemma search_returns (I : ConversationMemoryStore -> Prop)
      (pattern content : string) :
  returns_with I (search re_search pattern content) (fun _ => I).
Proof.
  intros st H. unfold search.
  destruct (re_search pattern content) as [b|] eqn:E.
  - exists b, st. now split.
  - exfalso. exact (patterns_compile pattern content E).
Qed.

Lemma first_matching_returns (ids : list string)
      (content a b p1 t1 p2 t2 : string) :
  In a ids -> In b ids ->
  returns_with (holds_entities ids)
               (first_matching clock re_search content a b p1 t1 p2 t2)
               (fun _ => holds_entities ids).
Proof.
  intros Ha Hb. unfold first_matching.
  eapply returns_bind; [apply search_returns|].
  intros [|].
  - eapply returns_bind; [now apply add_relationship_returns|].
    intros u. apply returns_ret.
  - eapply returns_bind; [apply search_returns|].
    intros [|]; [|apply returns_ret].
    eapply returns_bind; [now apply add_relationship_returns|].
    intros u. apply returns_ret.
Qed.

Lemma relate_returns (ids : list string) (content a b : string)
      (e1 e2 : EntityInfo) :
  In a ids -> In b ids ->
  returns_with (holds_entities ids) (relate clock re_search content a b e1 e2)
               (fun _ => holds_entities ids).
Proof.
  intros Ha Hb. unfold relate.
  repeat (destruct (andb _ _); [now apply first_matching_returns|]).
  apply returns_ret.
Qed.

(** As long as the patterns built from the entity names compile, the
    relationship extractor returns: the ids it relates were found in the
    store, so [add_relationship] accepts them. *)
Lemma never_raises_extract_relationships (content sender : string) :
  never_raises (_extract_relationships clock re_search content sender).
Proof.
  apply (returns_never_raises _ (fun _ _ => True)).
  unfold _extract_relationships.
  eapply returns_bind; [apply extract_entities_from_text_ids|].
  intros ids st H.
  assert (Hloop : returns_with (holds_entities ids)
            (for_each (combine (seq 0 (List.length ids)) ids)
               (fun '(i, entity_id1) =>
                  st <- get_store ;;
                  match get_entity_info st entity_id1 with
                  | None => ret tt
                  | Some entity1 =>
                      for_each (combine (seq 0 (List.length ids)) ids)
                        (fun '(j, entity_id2) =>
                           if (i =? j)%nat then ret tt
                           else
                             st <- get_store ;;
                             match get_entity_info st entity_id2 with
                             | None => ret tt
                             | Some entity2 =>
                                 relate clock re_search content entity_id1
                                        entity_id2 entity1 entity2
                             end)
                  end))
            (fun _ => holds_entities ids)).
  { apply returns_for_each. intros [i a] Hia.
    apply in_combine_r in Hia.
    intros s Hs. unfold bind at 1, get_store at 1.
    destruct (get_entity_info s a) as [e1|]; [|now apply returns_ret].
    revert s Hs. apply returns_for_each. intros [j b] Hjb.
    apply in_combine_r in Hjb.
    destruct (i =? j)%nat; [apply returns_ret|].
    intros s Hs. unfold bind at 1, get_store at 1.
    destruct (get_entity_info s b) as [e2|]; [|now apply returns_ret].
    now apply relate_returns. }
  destruct (Hloop st H) as (u & st' & E & _).
  exists u, st'. now split.
Qed.

End PatternsCompile.

(** ** Action items *)


End Extractors.

(** ** The e-mail that mentions a deadline *)

Lemma date_match_raises_type_error_witness :
  In "[Dd]eadline\s*:\s*([A-Za-z0-9\s,]+)" date_patterns
  /\ In "Friday" (findall_on_deadline "[Dd]eadline\s*:\s*([A-Za-z0-9\s,]+)"
                                      deadline_content)
  /\ Str.strip "Friday" <> ""
  /\ fst (_extract_entities_from_email tick findall_on_deadline no_group
            no_group sub_identity deadline_content "" "Contract" empty_store)
     = Raise unexpected_metadata.
Proof.
  assert (Hp : In "[Dd]eadline\s*:\s*([A-Za-z0-9\s,]+)" date_patterns)
    by (simpl; auto).
  assert (Hm : In "Friday"
                  (findall_on_deadline "[Dd]eadline\s*:\s*([A-Za-z0-9\s,]+)"
                                       deadline_content))
    by (vm_compute; auto).
  assert (Hne : Str.strip "Friday" <> "") by (vm_compute; discriminate).
  split; [exact Hp|]. split; [exact Hm|]. split; [exact Hne|].
  exact (date_match_raises_type_error tick findall_on_deadline no_group
           no_group sub_identity deadline_content "" "Contract"
           "[Dd]eadline\s*:\s*([A-Za-z0-9\s,]+)" "Friday" empty_store
           Hp Hm Hne).
Defined.

Lemma process_email_falls_back_witness :
  fst (process_email tick findall_on_deadline no_group no_group
                     sub_identity search_false Gmail.snippet fixed_date
                     deadline_email false empty_store)
  = Ok (mkMemoryContext
          ("Subject: " ++ header_or_empty "subject" deadline_email
             ++ Str.nl ++ Str.nl
             ++ "From: " ++ header_or_empty "from" deadline_email)
          [] [] []).
Proof.
  apply (process_email_falls_back tick findall_on_deadline no_group no_group
           sub_identity search_false Gmail.snippet fixed_date deadline_email
           false "[Dd]eadline\s*:\s*([A-Za-z0-9\s,]+)" "Friday" empty_store).
  - simpl; auto.
  - vm_compute; auto.
  - vm_compute; discriminate.
Defined.

(** On that e-mail the action-item extractor alone finds the request, but
    [process_email] never gets to it: the exception from the entity
    extractor sends it to its fall-back answer, with no action items. *)
Example deadline_email_loses_action_items :
  fst (_extract_action_items tick findall_on_deadline deadline_content
                             empty_store)
  = Ok [mkActionItem "the signed contract" false "email" 0]
  /\ fst (process_email tick findall_on_deadline no_group no_group
                        sub_identity search_false Gmail.snippet fixed_date
                        deadline_email false empty_store)
     = Ok (mkMemoryContext
             ("Subject: Contract" ++ Str.nl ++ Str.nl ++ "From: ")
             [] [] []).
Proof. split; vm_compute; reflexivity. Qed.

(** A display name with an opening parenthesis is interpolated into the
    pattern as it is, and the [re.error] leaves the relationship
    extractor. *)
Example unescaped_name_raises :
  fst (_extract_relationships tick search_on_sales sales_content "" sales_store)
  = Raise (ReError "Bob (Sales.*(?:at|from|with|for).*Acme").
Proof. vm_compute. reflexivity. Qed.

End IntegrationProofs.

(* ================================================================== *)
(** * Further properties of the store *)
(* ================================================================== *)

Module MemoryLookups.

Import Memory DictProofs MemoryProofs.
Local Open Scope monad_scope.

Lemma entry_mem {V} (k : string) (v : V) (d : Dict.t V) :
  In (k, v) d -> Dict.mem k d = true.
Proof.
  intros H. apply mem_In_keys. unfold Dict.keys.
  change k with (fst (k, v)). now apply in_map.
Qed.

Lemma get_In {V} (k : string) (v : V) (d : Dict.t V) :
  Dict.get k d = Some v -> In (k, v) d.
Proof.
  induction d as [|[k' v'] d IH]; simpl; [discriminate|].
  destruct (String.eqb_spec k' k) as [->|Hne].
  - intros [= ->]. now left.
  - intros H. right. now apply IH.
Qed.

Lemma set_set {V} (k : string) (v v' : V) (d : Dict.t V) :
  Dict.set k v' (Dict.set k v d) = Dict.set k v' d.
Proof.
  induction d as [|[k0 v0] d IH]; simpl.
  - now rewrite String.eqb_refl.
  - destruct (String.eqb_spec k0 k) as [->|Hne]; simpl.
    + now rewrite String.eqb_refl.
    + destruct (String.eqb_spec k0 k); [contradiction | now rewrite IH].
Qed.

Lemma contains_empty (s : string) : Str.contains "" s = true.
Proof. destruct s; reflexivity. Qed.

Section Store.

Variable clock : nat -> Z.

(** ** Known entities in a text *)

Lemma scan_entities_result (items : list (string * Entity)) (text : string) :
  forall st,
    (forall k e, In (k, e) items -> Dict.mem k (entities st) = true) ->
    exists st',
      scan_entities clock items text st
      = (Ok (map fst (filter (fun item => matches (snd item) text) items)), st')
      /\ Dict.keys (entities st') = Dict.keys (entities st)
      /\ relationships st' = relationships st
      /\ threads st' = threads st.
Proof.
  induction items as [|[k e] items IH]; intros st Hin; simpl.
  - exists st. repeat split.
  - destruct (matches e text).
    + unfold bind at 1, time at 1. unfold bind at 1, put_entity at 1.
      unfold set_entities at 1.
      cbn [entities relationships threads reads].
      assert (Hk : Dict.keys (Dict.set k (update_seen e (clock (reads st)))
                                       (entities st))
                   = Dict.keys (entities st)).
      { apply keys_set_present. apply (Hin k e). now left. }
      match goal with
      | |- context [bind _ _ ?s] => destruct (IH s) as (st' & E & Hkeys & Hr & Ht)
      end.
      { intros k' e' H'. simpl. apply mem_In_keys. rewrite Hk.
        apply mem_In_keys. apply (Hin k' e'). now right. }
      unfold bind. rewrite E. exists st'. simpl in *.
      split; [reflexivity|]. split; [congruence|]. now split.
    + apply IH. intros k' e' H'. apply (Hin k' e'). now right.
Qed.

(** X9.  [extract_entities_from_text] returns, in storage order, exactly the
    ids of the stored entities whose name or one of whose aliases occurs in
    the text (case apart); it adds and removes no entity and touches neither
    relationships nor threads.  An entity stored with an empty name is
    returned for every text. *)
Theorem known_entities_of_a_text :
  forall (text : string) (st : ConversationMemoryStore),
    fst (extract_entities_from_text clock text st)
    = Ok (map fst (filter (fun item => matches (snd item) text) (entities st)))
    /\ Dict.keys (entities (snd (extract_entities_from_text clock text st)))
       = Dict.keys (entities st)
    /\ relationships (snd (extract_entities_from_text clock text st))
       = relationships st
    /\ threads (snd (extract_entities_from_text clock text st)) = threads st
    /\ (forall k e ids,
           In (k, e) (entities st) -> name e = "" ->
           fst (extract_entities_from_text clock text st) = Ok ids ->
           In k ids).
Proof.
  intros text st. unfold extract_entities_from_text, bind, get_store.
  destruct (scan_entities_result (entities st) text st)
    as (st' & E & Hk & Hr & Ht).
  { intros k e H. now apply (entry_mem k e). }
  rewrite E. cbn [fst snd]. repeat split; try assumption.
  intros k e ids Hin Hname [= <-].
  change k with (fst (k, e)). apply in_map. apply filter_In.
  split; [assumption|]. simpl. unfold matches. rewrite Hname.
  simpl Str.lower. now rewrite contains_empty.
Qed.

(** ** Names that share an id *)

(** X10.  Two names that agree once lower-cased and with spaces turned into
    underscores are one entity: an upsert under the second spelling returns
    the id of the first, adds no record, and the stored name and type remain
    those of the first. *)
Theorem colliding_names_share_an_entity :
  forall (n1 n2 ty : string) (al : option (list string))
         (st : ConversationMemoryStore) (e : Entity),
    slug n2 = slug n1 ->
    Dict.get (entity_key n1 ty) (entities st) = Some e ->
    fst (add_entity clock n2 ty al st) = Ok (entity_key n1 ty)
    /\ Dict.keys (entities (snd (add_entity clock n2 ty al st)))
       = Dict.keys (entities st)
    /\ exists e',
        Dict.get (entity_key n1 ty) (entities (snd (add_entity clock n2 ty al st)))
        = Some e'
        /\ name e' = name e /\ type e' = type e
        /\ first_seen e' = first_seen e.
Proof.
  intros n1 n2 ty al st e Hslug Hget.
  assert (Hkey : entity_key n2 ty = entity_key n1 ty).
  { unfold entity_key. fold (slug n2). fold (slug n1). now rewrite Hslug. }
  rewrite (add_entity_present clock n2 ty al st e) by (now rewrite Hkey).
  rewrite Hkey. cbn [fst snd entities]. split; [reflexivity|]. split.
  - apply keys_set_present. unfold Dict.mem. now rewrite Hget.
  - eexists. split; [apply get_set_same|].
    destruct (fold_add_alias_fields (given_aliases al)
                (update_seen e (clock (reads st))))
      as (G1 & G2 & _ & G4 & _).
    repeat split; assumption.
Qed.

(** ** Topics *)

Lemma common_topics_NoDup : NoDup common_topics.
Proof.
  unfold common_topics.
  repeat (constructor; [simpl; intuition discriminate|]). constructor.
Qed.

(** X11.  [analyze_thread_topics] answers the empty list and changes nothing
    for an unknown thread.  For a known one the answer is a duplicate-free
    selection from the fixed vocabulary, it replaces the thread's topics and
    leaves its messages alone, and a second call returns the same answer and
    leaves the store exactly as the first call left it. *)
Theorem topics_are_recomputed :
  forall (tid : string) (st : ConversationMemoryStore),
    (Dict.get tid (threads st) = None ->
     analyze_thread_topics tid st = (Ok [], st))
    /\ (exists topics,
          fst (analyze_thread_topics tid st) = Ok topics
          /\ NoDup topics /\ incl topics common_topics)
    /\ (forall th,
          Dict.get tid (threads st) = Some th ->
          exists th',
            Dict.get tid (threads (snd (analyze_thread_topics tid st)))
            = Some th'
            /\ fst (analyze_thread_topics tid st) = Ok (topics th')
            /\ messages th' = messages th /\ subject th' = subject th
            /\ participants th' = participants th)
    /\ analyze_thread_topics tid (snd (analyze_thread_topics tid st))
       = analyze_thread_topics tid st.
Proof.
  intros tid st. rewrite !analyze_thread_topics_eq.
  destruct (Dict.get tid (threads st)) as [th|] eqn:E.
  - cbv zeta. cbn [fst snd threads]. repeat split.
    + discriminate.
    + eexists. split; [reflexivity|]. split.
      * apply NoDup_filter, common_topics_NoDup.
      * intros t Ht. apply filter_In in Ht. tauto.
    + intros th0 [= <-]. eexists. split; [apply get_set_same|].
      cbn [topics messages subject participants]. repeat split.
    + rewrite get_set_same. cbv zeta.
      cbn [messages thread_id subject participants last_updated
           entities relationships reads].
      now rewrite set_set.
  - cbn [fst snd]. repeat split.
    + exists []. split; [reflexivity|]. split; [constructor|].
      intros t [].
    + intros th [=].
    + now rewrite E.
Qed.

(** ** Finding an entity by name *)

(** X12.  [find_entity_by_name] answers only the id of a stored entity
    whose name or one of whose aliases equals the wanted name, letter case
    apart, and [None] exactly when there is none.  After an upsert that
    created a record, the name just stored is found. *)
Theorem find_entity_by_name_finds :
  forall (st : ConversationMemoryStore) (n : string),
    (forall k, find_entity_by_name st n = Some k ->
               exists e, In (k, e) (entities st)
                         /\ is_called (Str.lower n) e = true)
    /\ (find_entity_by_name st n = None <->
        forall k e, In (k, e) (entities st) ->
                    is_called (Str.lower n) e = false)
    /\ (forall ty al,
           Dict.get (entity_key n ty) (entities st) = None ->
           find_entity_by_name (snd (add_entity clock n ty al st)) n <> None).
Proof.
  intros st n. unfold find_entity_by_name. cbv zeta. split; [|split].
  - intros k H.
    destruct (find _ (entities st)) as [[k' e]|] eqn:E; [|discriminate].
    simpl in H. injection H as <-. apply find_some in E.
    exists e. exact E.
  - split.
    + intros H k e Hin.
      destruct (find _ (entities st)) as [[k' e']|] eqn:E; [discriminate|].
      exact (find_none _ _ E (k, e) Hin).
    + intros H.
      destruct (find _ (entities st)) as [[k' e']|] eqn:E; [|reflexivity].
      apply find_some in E. destruct E as [Hin Hc]. simpl in Hc.
      rewrite (H k' e' Hin) in Hc. discriminate.
  - intros ty al Hnone. rewrite add_entity_eq, Hnone. cbn [snd entities].
    intros Hfind.
    destruct (find _ (Dict.set _ _ _)) as [[k' e']|] eqn:E; [discriminate|].
    pose proof (find_none _ _ E) as Hall.
    match type of E with
    | find _ (Dict.set ?k ?v _) = None =>
        specialize (Hall (k, v) (get_In k v _ (get_set_same k v _)))
    end.
    unfold is_called in Hall. cbn [snd name] in Hall.
    now rewrite String.eqb_refl in Hall.
Qed.

(** [find_entities_by_type] lists exactly the ids of the entities whose
    type is the given one, letter case included. *)
Lemma find_entities_by_type_exact :
  forall (st : ConversationMemoryStore) (ty k : string),
    In k (find_entities_by_type st ty)
    <-> exists e, In (k, e) (entities st) /\ type e = ty.
Proof.
  intros st ty k. unfold find_entities_by_type. rewrite in_map_iff. split.
  - intros [[k' e] [<- Hin]]. apply filter_In in Hin.
    destruct Hin as [Hin Ht]. apply String.eqb_eq in Ht. now exists e.
  - intros [e [Hin Ht]]. exists (k, e). split; [reflexivity|].
    apply filter_In. split; [assumption|]. now apply String.eqb_eq.
Qed.

(** ** Repeating a relationship *)

Lemma strength_after_level (n : nat) : In (strength_after n) strength_levels.
Proof.
  induction n as [|n IH]; simpl; [now left|].
  apply (levels_facts (strength_after n) IH).
Qed.

Lemma strength_after_saturates (n : nat) :
  (11 <= n)%nat -> strength_after n = F64.one.
Proof.
  intros H. replace n with ((n - 11) + 11)%nat by lia.
  induction (n - 11)%nat as [|k IH]; [vm_compute; reflexivity|].
  simpl. rewrite IH. vm_compute. reflexivity.
Qed.

Lemma strength_after_below (n : nat) :
  (n <= 10)%nat -> F64.ltb (strength_after n) F64.one = true.
Proof.
  intros H.
  do 11 (destruct n as [|n]; [vm_compute; reflexivity|]). lia.
Qed.

Lemma relate_repeatedly_edge (a b t : string) (st : ConversationMemoryStore) :
  Dict.mem a (entities st) = true ->
  Dict.mem b (entities st) = true ->
  Dict.get (relationship_key a b t) (relationships st) = None ->
  forall n,
    entities (relate_repeatedly clock a b t (S n) st) = entities st
    /\ exists r,
        Dict.get (relationship_key a b t)
                 (relationships (relate_repeatedly clock a b t (S n) st))
        = Some r
        /\ strength r = strength_after n
        /\ entity1_id r = a /\ entity2_id r = b /\ relationship_type r = t.
Proof.
  intros Ha Hb Hnone n. induction n as [|n [He (r & Hr & Hs & H1 & H2 & H3)]].
  - simpl. rewrite add_relationship_eq, Ha, Hb, Hnone. simpl.
    split; [reflexivity|]. eexists. split; [apply get_set_same|].
    repeat split.
  - change (relate_repeatedly clock a b t (S (S n)) st)
      with (snd (add_relationship clock a b t
                   (relate_repeatedly clock a b t (S n) st))).
    rewrite add_relationship_eq, He, Ha, Hb, Hr. cbn [negb orb snd].
    cbn [entities relationships].
    split; [reflexivity|]. eexists. split; [apply get_set_same|].
    simpl. rewrite Hs. repeat split; assumption.
Qed.

(** X13.  An edge that did not exist is created with strength 0.0 by the
    first call; after [n] further calls on it its strength is the [n]-fold
    binary64 sum capped at 1.0, which is still below 1.0 after ten further
    calls and is exactly 1.0 from the eleventh on. *)
Theorem strength_saturates_at_the_eleventh_repeat :
  forall (a b t : string) (st : ConversationMemoryStore) (n : nat),
    Dict.mem a (entities st) = true ->
    Dict.mem b (entities st) = true ->
    Dict.get (relationship_key a b t) (relationships st) = None ->
    exists r,
      Dict.get (relationship_key a b t)
               (relationships (relate_repeatedly clock a b t (S n) st))
      = Some r
      /\ strength r = strength_after n
      /\ ((n <= 10)%nat -> F64.ltb (strength r) F64.one = true)
      /\ ((11 <= n)%nat -> strength r = F64.one).
Proof.
  intros a b t st n Ha Hb Hnone.
  destruct (relate_repeatedly_edge a b t st Ha Hb Hnone n)
    as (_ & r & Hr & Hs & _).
  exists r. split; [assumption|]. split; [assumption|]. rewrite Hs. split.
  - apply strength_after_below.
  - apply strength_after_saturates.
Qed.

(** ** Neighbours *)

(** X14.  After a call that created the edge between two stored entities,
    [get_entity_info] of either endpoint lists the other one, with the
    relationship type and strength 0.0: the edge is found from both ends. *)
Theorem new_edge_is_seen_from_both_ends :
  forall (a b t : string) (st : ConversationMemoryStore) (ea eb : Entity),
    Dict.get a (entities st) = Some ea ->
    Dict.get b (entities st) = Some eb ->
    Dict.get (relationship_key a b t) (relationships st) = None ->
    exists info_a info_b,
      get_entity_info (snd (add_relationship clock a b t st)) a = Some info_a
      /\ get_entity_info (snd (add_relationship clock a b t st)) b
         = Some info_b
      /\ In (mkRelatedEntity b (name eb) (type eb) t F64.zero)
            (related_entities info_a)
      /\ In (mkRelatedEntity a (name ea) (type ea) t F64.zero)
            (related_entities info_b).
Proof.
  intros a b t st ea eb Ha Hb Hnone.
  rewrite add_relationship_eq. unfold Dict.mem. rewrite Ha, Hb, Hnone.
  cbn [negb orb snd]. unfold get_entity_info.
  cbn [entities relationships]. rewrite Ha, Hb.
  eexists. eexists. split; [reflexivity|]. split; [reflexivity|].
  cbn [related_entities].
  set (r := mkRelationship a b t F64.zero [] (clock (reads st))
                           (clock (S (reads st)))).
  assert (Hin : In r (Dict.values
                        (Dict.set (relationship_key a b t) r
                                  (relationships st)))).
  { apply (get_In_values (relationship_key a b t)). apply get_set_same. }
  split; apply in_flat_map; exists r; (split; [exact Hin|]);
    unfold related_to; cbn [entity1_id entity2_id entities relationship_type
                            strength r].
  - rewrite String.eqb_refl, Hb. now left.
  - destruct (String.eqb_spec a b) as [->|Hne].
    + rewrite Hb. rewrite Ha in Hb. injection Hb as ->. now left.
    + rewrite String.eqb_refl, Ha. now left.
Qed.

End Store.

(** ** Recent threads *)

Lemma insert_most_recent_perm (t : ConversationThread)
      (l : list ConversationThread) :
  Permutation (t :: l) (insert_most_recent t l).
Proof.
  induction l as [|y l IH]; simpl; [reflexivity|].
  destruct (last_updated y <=? last_updated t)%Z; [reflexivity|].
  rewrite perm_swap. now constructor.
Qed.

Lemma most_recent_first_perm (l : list ConversationThread) :
  Permutation l (most_recent_first l).
Proof.
  unfold most_recent_first.
  induction l as [|t l IH]; simpl; [reflexivity|].
  rewrite <- insert_most_recent_perm. now constructor.
Qed.

Lemma insert_most_recent_sorted (t : ConversationThread)
      (l : list ConversationThread) :
  StronglySorted (fun a b => (last_updated b <= last_updated a)%Z) l ->
  StronglySorted (fun a b => (last_updated b <= last_updated a)%Z)
                 (insert_most_recent t l).
Proof.
  induction l as [|y l IH]; simpl; intros Hs.
  - repeat constructor.
  - inversion Hs as [|? ? Hl Hall]; subst.
    destruct (last_updated y <=? last_updated t)%Z eqn:E.
    + apply Z.leb_le in E. constructor; [assumption|].
      constructor; [assumption|].
      eapply Forall_impl; [|exact Hall]. simpl. intros z Hz. lia.
    + apply Z.leb_gt in E. constructor; [now apply IH|].
      rewrite Forall_forall in *. intros z Hz.
      apply (Permutation_in _ (Permutation_sym (insert_most_recent_perm t l)))
        in Hz.
      destruct Hz as [<- | Hz]; [lia | now apply Hall].
Qed.

Lemma most_recent_first_sorted (l : list ConversationThread) :
  StronglySorted (fun a b => (last_updated b <= last_updated a)%Z)
                 (most_recent_first l).
Proof.
  unfold most_recent_first.
  induction l as [|t l IH]; simpl; [constructor|].
  now apply insert_most_recent_sorted.
Qed.

Lemma sorted_app_le {A} (R : A -> A -> Prop) (l1 l2 : list A) :
  StronglySorted R (l1 ++ l2) ->
  forall a b, In a l1 -> In b l2 -> R a b.
Proof.
  induction l1 as [|x l1 IH]; simpl; intros Hs a b Ha Hb; [contradiction|].
  inversion Hs as [|? ? Hl Hall]; subst.
  destruct Ha as [<- | Ha].
  - rewrite Forall_forall in Hall. apply Hall. apply in_or_app. now right.
  - now apply IH.
Qed.

(** X15.  For a non-negative [limit], [get_recent_threads] returns
    [min(limit, number of threads)] stored threads, most recently updated
    first, and no thread left out was updated later than one returned. *)
Theorem recent_threads_are_the_latest :
  forall (st : ConversationMemoryStore) (limit : Z),
    (0 <= limit)%Z ->
    List.length (get_recent_threads st limit)
    = Nat.min (Z.to_nat limit) (List.length (threads st))
    /\ StronglySorted (fun a b => (last_updated b <= last_updated a)%Z)
                      (get_recent_threads st limit)
    /\ exists rest,
        Permutation (Dict.values (threads st))
                    (get_recent_threads st limit ++ rest)
        /\ forall a b, In a (get_recent_threads st limit) -> In b rest ->
                       (last_updated b <= last_updated a)%Z.
Proof.
  intros st limit Hpos. unfold get_recent_threads, slice_to.
  set (sorted := most_recent_first (Dict.values (threads st))).
  assert (Hlen : List.length sorted = List.length (threads st)).
  { unfold sorted. rewrite <- (Permutation_length (most_recent_first_perm _)).
    unfold Dict.values. apply length_map. }
  destruct (Z.ltb_spec limit 0); [lia|].
  set (k := Z.to_nat (Z.min limit (Z.of_nat (List.length sorted)))).
  assert (Hsorted : StronglySorted
                      (fun a b => (last_updated b <= last_updated a)%Z)
                      (firstn k sorted ++ skipn k sorted)).
  { rewrite firstn_skipn. apply most_recent_first_sorted. }
  split; [|split].
  - rewrite length_firstn. unfold k. lia.
  - clear - Hsorted. revert Hsorted.
    generalize (firstn k sorted) (skipn k sorted). intros l1 l2.
    induction l1 as [|x l1 IH]; simpl; intros Hs; [constructor|].
    inversion Hs as [|? ? Hl Hall]; subst.
    constructor; [now apply IH|].
    apply Forall_app in Hall. tauto.
  - exists (skipn k sorted). split.
    + rewrite firstn_skipn. apply most_recent_first_perm.
    + intros a b Ha Hb.
      exact (sorted_app_le _ _ _ Hsorted a b Ha Hb).
Qed.

Lemma recent_threads_are_the_latest_witness :
  (0 <= 2)%Z
  /\ map (fun th => (thread_id th, last_updated th))
         (Dict.values (threads three_threads_store))
     = [("t1", 5%Z); ("t2", 1%Z); ("t3", 2%Z)]
  /\ List.length (get_recent_threads three_threads_store 2) = 2%nat
  /\ StronglySorted (fun a b => (last_updated b <= last_updated a)%Z)
                    (get_recent_threads three_threads_store 2)
  /\ exists rest,
      Permutation (Dict.values (threads three_threads_store))
                  (get_recent_threads three_threads_store 2 ++ rest)
      /\ forall a b, In a (get_recent_threads three_threads_store 2) ->
                     In b rest ->
                     (last_updated b <= last_updated a)%Z.
Proof.
  assert (H : (0 <= 2)%Z) by lia.
  split; [exact H|]. split; [reflexivity|].
  exact (recent_threads_are_the_latest three_threads_store 2 H).
Defined.

Lemma colliding_names_share_an_entity_witness :
  slug "alice_smith" = slug "Alice Smith"
  /\ fst (add_entity tick "alice_smith" "person" None acme_store)
     = Ok (entity_key "Alice Smith" "person").
Proof.
  assert (Hs : slug "alice_smith" = slug "Alice Smith") by reflexivity.
  split; [exact Hs|].
  refine (proj1 (colliding_names_share_an_entity tick "Alice Smith"
                   "alice_smith" "person" None acme_store _ Hs _)).
  reflexivity.
Defined.

Lemma strength_saturates_at_the_eleventh_repeat_witness :
  Dict.get (relationship_key "person_alice_smith" "organization_acme"
                             "manages")
           (relationships acme_store) = None
  /\ exists r,
      Dict.get (relationship_key "person_alice_smith" "organization_acme"
                                 "manages")
               (relationships
                  (relate_repeatedly tick "person_alice_smith"
                                     "organization_acme" "manages" 12
                                     acme_store))
      = Some r
      /\ strength r = F64.one.
Proof.
  assert (Hn : Dict.get (relationship_key "person_alice_smith"
                                          "organization_acme" "manages")
                        (relationships acme_store) = None) by reflexivity.
  split; [exact Hn|].
  destruct (strength_saturates_at_the_eleventh_repeat tick
              "person_alice_smith" "organization_acme" "manages"
              acme_store 11 eq_refl eq_refl Hn) as (r & Hr & _ & _ & Hone).
  exists r. split; [exact Hr|]. apply Hone. apply le_n.
Defined.

Lemma new_edge_is_seen_from_both_ends_witness :
  Dict.get (relationship_key "person_alice_smith" "organization_acme"
                             "manages")
           (relationships acme_store) = None
  /\ exists info,
      get_entity_info
        (snd (add_relationship tick "person_alice_smith" "organization_acme"
                               "manages" acme_store))
        "organization_acme" = Some info
      /\ In (mkRelatedEntity "person_alice_smith" "Alice Smith" "person"
                             "manages" F64.zero)
            (related_entities info).
Proof.
  assert (Hn : Dict.get (relationship_key "person_alice_smith"
                                          "organization_acme" "manages")
                        (relationships acme_store) = None) by reflexivity.
  split; [exact Hn|].
  destruct (new_edge_is_seen_from_both_ends tick
              "person_alice_smith" "organization_acme" "manages"
              acme_store _ _ eq_refl eq_refl Hn)
    as (ia & ib & _ & Hb & _ & Hin).
  exists ib. split; [exact Hb | exact Hin].
Defined.

End MemoryLookups.

(* ================================================================== *)
(** * What every call preserves *)
(* ================================================================== *)

Module MemoryInvariants.

Import Memory DictProofs MemoryProofs MemoryLookups.
Local Open Scope monad_scope.

(** ** Dictionaries and sets *)

Lemma In_set {V} (k : string) (v : V) (d : Dict.t V) (x : string * V) :
  In x (Dict.set k v d) -> x = (k, v) \/ In x d.
Proof.
  induction d as [|[k0 v0] d IH]; simpl.
  - intros [<- | []]. now left.
  - destruct (String.eqb k0 k); simpl.
    + intros [<- | H]; auto.
    + intros [<- | H]; auto. destruct (IH H); auto.
Qed.

Lemma wf_get_In {V} (k : string) (v : V) (d : Dict.t V) :
  Dict.wf d -> In (k, v) d -> Dict.get k d = Some v.
Proof.
  unfold Dict.wf. induction d as [|[k0 v0] d IH]; simpl; [contradiction|].
  intros Hwf Hin. inversion Hwf as [|? ? Hk0 Hd]; subst.
  destruct Hin as [[= -> ->] | Hin].
  - now rewrite String.eqb_refl.
  - destruct (String.eqb_spec k0 k) as [->|Hne]; [|now apply IH].
    exfalso. apply Hk0. change k with (fst (k, v)). now apply in_map.
Qed.

Lemma NoDup_set_add (x : string) (s : list string) :
  NoDup s -> NoDup (set_add x s).
Proof.
  intros H. unfold set_add. destruct (existsb (String.eqb x) s) eqn:E.
  - assumption.
  - apply NoDup_app; [assumption | repeat constructor; auto |].
    intros y Hy [-> | []].
    assert (existsb (String.eqb y) s = true); [|congruence].
    apply existsb_exists. exists y. split; [assumption|].
    apply String.eqb_refl.
Qed.

Lemma fold_set_add (l s : list string) :
  NoDup s ->
  NoDup (fold_left (fun acc x => set_add x acc) l s)
  /\ incl s (fold_left (fun acc x => set_add x acc) l s)
  /\ incl l (fold_left (fun acc x => set_add x acc) l s).
Proof.
  revert s. induction l as [|x l IH]; intros s Hs; simpl.
  - repeat split; [assumption | apply incl_refl | intros y []].
  - destruct (IH (set_add x s) (NoDup_set_add x s Hs)) as (H1 & H2 & H3).
    split; [assumption|]. split.
    + intros y Hy. apply H2. apply set_add_In. now right.
    + intros y [<- | Hy]; [|now apply H3].
      apply H2. apply set_add_In. now left.
Qed.

Lemma set_of_list_NoDup (l : list string) : NoDup (set_of_list l).
Proof. apply (fold_set_add l []). constructor. Qed.

Lemma add_alias_NoDup (e : Entity) (a : string) :
  NoDup (aliases e) -> NoDup (aliases (add_alias e a)).
Proof.
  intros H. unfold add_alias. destruct (andb _ _); [|assumption].
  simpl. now apply NoDup_set_add.
Qed.

Lemma fold_add_alias_NoDup (l : list string) (e : Entity) :
  NoDup (aliases e) -> NoDup (aliases (fold_left add_alias l e)).
Proof.
  revert e. induction l as [|a l IH]; intros e H; simpl; [assumption|].
  apply IH. now apply add_alias_NoDup.
Qed.

Lemma same_entity_refl (e : Entity) : same_entity e e.
Proof. repeat split. apply incl_refl. Qed.

Lemma same_entity_trans (e1 e2 e3 : Entity) :
  same_entity e1 e2 -> same_entity e2 e3 -> same_entity e1 e3.
Proof.
  intros (A1 & A2 & A3 & A4 & A5) (B1 & B2 & B3 & B4 & B5).
  repeat split; try congruence. eapply incl_tran; eassumption.
Qed.

Lemma same_entity_update_seen (e : Entity) (now : Z) :
  same_entity e (update_seen e now).
Proof. repeat split. apply incl_refl. Qed.

Lemma same_entity_upsert (e : Entity) (now : Z) (l : list string) :
  same_entity e (fold_left add_alias l (update_seen e now)).
Proof.
  destruct (fold_add_alias_fields l (update_seen e now))
    as (G1 & G2 & G3 & G4 & _).
  repeat split; try assumption.
  intros a Ha. apply fold_add_alias_In. now left.
Qed.

Lemma upsert_aliases (al : option (list string)) (e : Entity) :
  match al with
  | Some (a :: l) => fold_left add_alias (a :: l) e
  | _ => e
  end = fold_left add_alias (given_aliases al) e.
Proof. destruct al as [[|a l]|]; reflexivity. Qed.

Section Store.

Variable clock : nat -> Z.

(** ** The scan, entry by entry *)

Lemma scan_entities_entries (items : list (string * Entity)) (text : string) :
  forall st,
    (forall k e, In (k, e) items -> Dict.mem k (entities st) = true) ->
    exists ids st',
      scan_entities clock items text st = (Ok ids, st')
      /\ relationships st' = relationships st
      /\ threads st' = threads st
      /\ (reads st <= reads st')%nat
      /\ Dict.keys (entities st') = Dict.keys (entities st)
      /\ (forall id, In id ids -> In id (map fst items))
      /\ (forall k' e', In (k', e') (entities st') ->
                        In (k', e') (entities st)
                        \/ exists e now, In (k', e) items
                                         /\ e' = update_seen e now).
Proof.
  induction items as [|[k e] items IH]; intros st Hin; simpl.
  - exists [], st. repeat split; auto.
  - destruct (matches e text).
    + unfold bind at 1, time at 1. unfold bind at 1, put_entity at 1.
      unfold set_entities at 1.
      cbn [entities relationships threads reads].
      assert (Hk : Dict.keys (Dict.set k (update_seen e (clock (reads st)))
                                       (entities st))
                   = Dict.keys (entities st)).
      { apply keys_set_present. apply (Hin k e). now left. }
      match goal with
      | |- context [bind _ _ ?s] =>
          destruct (IH s) as (ids & st' & E & Hr & Ht & Hn & Hkeys & Hids & He)
      end.
      { intros k' e' H'. simpl. apply mem_In_keys. rewrite Hk.
        apply mem_In_keys. apply (Hin k' e'). now right. }
      unfold bind. rewrite E. exists (k :: ids), st'. simpl in *.
      split; [reflexivity|]. split; [assumption|]. split; [assumption|].
      split; [lia|]. split; [congruence|]. split.
      * intros id [<- | H]; auto.
      * intros k' e' H'. destruct (He k' e' H') as [H1 | (e0 & now & H1 & ->)].
        -- apply In_set in H1. destruct H1 as [[= -> ->] | H1]; [|now left].
           right. exists e, (clock (reads st)). split; [now left | reflexivity].
        -- right. exists e0, now. split; [now right | reflexivity].
    + destruct (IH st) as (ids & st' & E & Hr & Ht & Hn & Hkeys & Hids & He).
      { intros k' e' H'. apply (Hin k' e'). now right. }
      exists ids, st'. repeat split; auto.
      intros k' e' H'. destruct (He k' e' H') as [H1 | (e0 & now & H1 & ->)];
        [now left|].
      right. exists e0, now. split; [now right | reflexivity].
Qed.

(** Under unique keys the scan leaves each record in place, up to
    [last_seen]. *)
Lemma scan_entities_get (items : list (string * Entity)) (text : string) :
  forall st,
    NoDup (map fst items) ->
    (forall k e, In (k, e) items -> Dict.get k (entities st) = Some e) ->
    forall k e,
      Dict.get k (entities st) = Some e ->
      exists e',
        Dict.get k (entities (snd (scan_entities clock items text st)))
        = Some e'
        /\ same_entity e e'.
Proof.
  induction items as [|[k0 e0] items IH]; intros st Hnd Hin k e Hget; simpl.
  - exists e. split; [assumption | apply same_entity_refl].
  - inversion Hnd as [|? ? Hk0 Hrest]; subst.
    destruct (matches e0 text).
    + unfold bind at 1, time at 1. unfold bind at 1, put_entity at 1.
      unfold set_entities at 1.
      cbn [entities relationships threads reads].
      set (st1 := mkStore (Dict.set k0 (update_seen e0 (clock (reads st)))
                                    (entities st))
                          (relationships st) (threads st) (S (reads st))).
      assert (H1 : forall k' e', In (k', e') items ->
                                 Dict.get k' (entities st1) = Some e').
      { intros k' e' H'. simpl. rewrite get_set_other.
        - apply Hin. now right.
        - intros <-. apply Hk0. change k0 with (fst (k0, e')).
          now apply in_map. }
      assert (H2 : exists e1, Dict.get k (entities st1) = Some e1
                              /\ same_entity e e1).
      { simpl. destruct (String.eqb_spec k0 k) as [<-|Hne].
        - rewrite get_set_same. eexists. split; [reflexivity|].
          rewrite (Hin k0 e0) in Hget by (now left). injection Hget as <-.
          apply same_entity_update_seen.
        - rewrite get_set_other by assumption.
          exists e. split; [assumption | apply same_entity_refl]. }
      destruct H2 as (e1 & G1 & S1).
      destruct (IH st1 Hrest H1 k e1 G1) as (e' & G' & S').
      exists e'. split; [|eapply same_entity_trans; eassumption].
      unfold bind. destruct (scan_entities clock items text st1) as [[a|x] s];
        exact G'.
    + apply IH; [assumption | | assumption].
      intros k' e' H'. apply Hin. now right.
Qed.

Lemma add_message_scan (mid tid sd : string) (rcp : list string)
      (subj body : string) (agent : bool) (st : ConversationMemoryStore) :
  let th :=
    match Dict.get tid (threads st) with
    | Some th =>
        mkConversationThread (thread_id th) (subject th) (participants th)
                             (messages th) (clock (reads st)) (topics th)
    | None => mkConversationThread tid subj [] [] (clock (reads st)) []
    end in
  let st1 := mkStore (entities st) (relationships st)
                     (Dict.set tid th (threads st)) (S (S (reads st))) in
  exists ids st_s,
    scan_entities clock (entities st) body st1 = (Ok ids, st_s)
    /\ add_message clock mid tid sd rcp subj body agent st
       = (Ok (mkConversationMessage mid tid sd rcp subj body
                                    (clock (S (reads st))) agent ids),
          mkStore (entities st_s) (relationships st)
            (Dict.set tid
               (thread_add_message th
                  (mkConversationMessage mid tid sd rcp subj body
                                         (clock (S (reads st))) agent ids)
                  (clock (reads st_s)))
               (Dict.set tid th (threads st)))
            (S (reads st_s))).
Proof.
  cbv zeta.
  match goal with
  | |- exists ids st_s, scan_entities clock ?items body ?s = _ /\ _ =>
      destruct (scan_entities_entries items body s)
        as (ids & st_s & E & Hr & Ht & _)
  end.
  { intros k e H. simpl. now apply (entry_mem k e). }
  exists ids, st_s. split; [exact E|].
  unfold add_message, bind at 1. rewrite add_thread_eq. cbv zeta.
  unfold bind at 1, time at 1. cbn [reads entities relationships threads].
  unfold bind at 1, extract_entities_from_text, bind at 1, get_store at 1.
  cbn [entities]. rewrite E. unfold_monad. simpl in Hr, Ht.
  destruct st_s as [ents rels ths n]. simpl in *. subst. reflexivity.
Qed.

(** ** Entities across one call *)

(** The entities of the store after a call: the records of a successful
    scan of the entities of [st], or one record set at the key of an
    upsert. *)
Lemma op_entities_cases (o : op) (st : ConversationMemoryStore) :
  entities (snd (run_op clock o st)) = entities st
  \/ (exists n ty al,
         o = AddEntity n ty al
         /\ entities (snd (run_op clock o st))
            = Dict.set (entity_key n ty)
                (match Dict.get (entity_key n ty) (entities st) with
                 | Some e =>
                     fold_left add_alias (given_aliases al)
                               (update_seen e (clock (reads st)))
                 | None =>
                     mkEntity n ty
                       (match al with
                        | Some (a :: l) => set_of_list (a :: l)
                        | _ => []
                        end)
                       [] (clock (reads st)) (clock (S (reads st)))
                 end)
                (entities st))
  \/ (exists text st1 ids,
         entities st1 = entities st
         /\ scan_entities clock (entities st) text st1
            = (Ok ids, snd (scan_entities clock (entities st) text st1))
         /\ entities (snd (run_op clock o st))
            = entities (snd (scan_entities clock (entities st) text st1))).
Proof.
  destruct o as [n ty al | a b t | tid subj
                 | mid tid sd rcp subj body agent | text | tid];
    unfold run_op; rewrite snd_then_ret.
  - right. left. exists n, ty, al. split; [reflexivity|].
    rewrite add_entity_eq.
    destruct (Dict.get (entity_key n ty) (entities st)); cbn [snd entities];
      [now rewrite upsert_aliases | reflexivity].
  - left. rewrite add_relationship_eq.
    destruct (orb _ _);
      [|destruct (Dict.get (relationship_key a b t) (relationships st))];
      reflexivity.
  - left. rewrite add_thread_eq. reflexivity.
  - right. right.
    destruct (add_message_scan mid tid sd rcp subj body agent st)
      as (ids & st_s & E & ->).
    eexists body, _, ids. split; [|split; [rewrite E; reflexivity|]].
    + reflexivity.
    + rewrite E. reflexivity.
  - right. right. unfold extract_entities_from_text, bind, get_store.
    destruct (scan_entities_entries (entities st) text st)
      as (ids & st' & E & _).
    { intros k e H. now apply (entry_mem k e). }
    exists text, st, ids. rewrite E. repeat split.
  - left. rewrite analyze_thread_topics_eq.
    destruct (Dict.get tid (threads st)); reflexivity.
Qed.

Lemma scan_from_same_entities (text : string)
      (st st1 : ConversationMemoryStore) :
  entities st1 = entities st ->
  let st' := snd (scan_entities clock (entities st) text st1) in
  Dict.keys (entities st') = Dict.keys (entities st)
  /\ (forall k' e', In (k', e') (entities st') ->
                    In (k', e') (entities st)
                    \/ exists e now, In (k', e) (entities st)
                                     /\ e' = update_seen e now)
  /\ (Dict.wf (entities st) ->
      forall k e, Dict.get k (entities st) = Some e ->
                  exists e', Dict.get k (entities st') = Some e'
                             /\ same_entity e e').
Proof.
  intros He. cbv zeta.
  destruct (scan_entities_entries (entities st) text st1)
    as (ids & st' & E & _ & _ & _ & Hkeys & _ & Hent).
  { intros k e H. rewrite He. now apply (entry_mem k e). }
  rewrite E. cbn [snd]. rewrite He in Hkeys. split; [assumption|]. split.
  - intros k' e' H. destruct (Hent k' e' H) as [H1 | H1]; [|now right].
    left. now rewrite <- He.
  - intros Hwf k e Hget.
    pose proof (scan_entities_get (entities st) text st1 Hwf) as Hs.
    rewrite E in Hs. apply Hs.
    + intros k0 e0 H0. rewrite He. now apply wf_get_In.
    + now rewrite He.
Qed.

Lemma op_entities (o : op) (st : ConversationMemoryStore) (k' : string)
      (e' : Entity) :
  In (k', e') (entities (snd (run_op clock o st))) ->
  (exists e, In (k', e) (entities st) /\ same_entity e e'
             /\ (NoDup (aliases e) -> NoDup (aliases e')))
  \/ (k' = entity_key (name e') (type e') /\ NoDup (aliases e')
      /\ Dict.mem k' (entities st) = false).
Proof.
  destruct (op_entities_cases o st)
    as [-> | [(n & ty & al & _ & ->) | (text & st1 & ids & He & _ & ->)]].
  - intros H. left. exists e'. split; [assumption|].
    split; [apply same_entity_refl | auto].
  - intros H. apply In_set in H. destruct H as [[= -> ->] | H].
    + destruct (Dict.get (entity_key n ty) (entities st)) as [e|] eqn:E.
      * left. exists e. split; [now apply get_In|].
        split; [apply same_entity_upsert|].
        intros Hnd. now apply fold_add_alias_NoDup.
      * right. cbn [name type aliases]. split; [reflexivity|]. split.
        -- destruct al as [[|a l]|]; try constructor. apply set_of_list_NoDup.
        -- unfold Dict.mem. now rewrite E.
    + left. exists e'. split; [assumption|].
      split; [apply same_entity_refl | auto].
  - intros H.
    destruct (scan_from_same_entities text st st1 He) as (_ & Hent & _).
    destruct (Hent k' e' H) as [H1 | (e & now & H1 & ->)].
    + left. exists e'. split; [assumption|].
      split; [apply same_entity_refl | auto].
    + left. exists e. split; [assumption|].
      split; [apply same_entity_update_seen | auto].
Qed.

Lemma op_entity_keys (o : op) (st : ConversationMemoryStore) :
  (forall k, Dict.mem k (entities st) = true ->
             Dict.mem k (entities (snd (run_op clock o st))) = true)
  /\ (Dict.wf (entities st) -> Dict.wf (entities (snd (run_op clock o st)))).
Proof.
  destruct (op_entities_cases o st)
    as [-> | [(n & ty & al & _ & ->) | (text & st1 & ids & He & _ & ->)]].
  - auto.
  - split.
    + intros k H. rewrite mem_set, H. apply orb_true_r.
    + apply wf_set.
  - destruct (scan_from_same_entities text st st1 He) as (Hk & _).
    split.
    + intros k H. apply mem_In_keys. rewrite Hk. now apply mem_In_keys.
    + unfold Dict.wf. now rewrite Hk.
Qed.

(** An entity is never removed or renamed. *)
Lemma op_entity_persists (o : op) (st : ConversationMemoryStore)
      (k : string) (e : Entity) :
  Dict.wf (entities st) ->
  Dict.get k (entities st) = Some e ->
  exists e', Dict.get k (entities (snd (run_op clock o st))) = Some e'
             /\ same_entity e e'.
Proof.
  intros Hwf Hget.
  destruct (op_entities_cases o st)
    as [-> | [(n & ty & al & _ & ->) | (text & st1 & ids & He & _ & ->)]].
  - exists e. split; [assumption | apply same_entity_refl].
  - destruct (String.eqb_spec (entity_key n ty) k) as [<-|Hne].
    + rewrite get_set_same, Hget. eexists. split; [reflexivity|].
      apply same_entity_upsert.
    + rewrite get_set_other by assumption.
      exists e. split; [assumption | apply same_entity_refl].
  - destruct (scan_from_same_entities text st st1 He) as (_ & _ & Hp).
    now apply Hp.
Qed.

(** ** Relationships and threads across one call *)

Lemma op_relationships_cases (o : op) (st : ConversationMemoryStore) :
  relationships (snd (run_op clock o st)) = relationships st
  \/ exists a b t,
      entities (snd (run_op clock o st)) = entities st
      /\ Dict.mem a (entities st) = true /\ Dict.mem b (entities st) = true
      /\ relationships (snd (run_op clock o st))
         = Dict.set (relationship_key a b t)
             (match Dict.get (relationship_key a b t) (relationships st) with
              | Some r =>
                  strengthen (rel_update_seen r (clock (reads st))) F64.tenth
              | None =>
                  mkRelationship a b t F64.zero []
                                 (clock (reads st)) (clock (S (reads st)))
              end)
             (relationships st).
Proof.
  destruct (op_effect clock o st) as (_ & _ & [Hsame | (a & b & t & ->)]);
    [now left|].
  unfold run_op. rewrite snd_then_ret, add_relationship_eq.
  destruct (Dict.mem a (entities st)) eqn:Ha; [|left; reflexivity].
  destruct (Dict.mem b (entities st)) eqn:Hb; [|left; reflexivity].
  right. exists a, b, t. cbn [negb orb].
  destruct (Dict.get (relationship_key a b t) (relationships st));
    cbn [snd entities relationships]; repeat split; assumption.
Qed.

Lemma op_threads_cases (o : op) (st : ConversationMemoryStore) :
  threads (snd (run_op clock o st)) = threads st
  \/ exists tid th' base,
      threads (snd (run_op clock o st)) = Dict.set tid th' (threads st)
      /\ (Dict.get tid (threads st) = Some base
          \/ (Dict.get tid (threads st) = None /\ thread_id base = tid
              /\ participants base = [] /\ messages base = []))
      /\ thread_id th' = thread_id base /\ subject th' = subject base
      /\ ((participants th' = participants base
           /\ messages th' = messages base)
          \/ exists msg,
              messages th' = (messages base ++ [msg])%list
              /\ participants th'
                 = fold_left (fun s r => set_add r s) (recipients msg)
                             (set_add (sender msg) (participants base))
              /\ msg_thread_id msg = tid
              /\ forall id, In id (msg_entities msg) ->
                            Dict.mem id (entities (snd (run_op clock o st)))
                            = true).
Proof.
  destruct o as [n ty al | a b t | tid subj
                 | mid tid sd rcp subj body agent | text | tid];
    unfold run_op; rewrite snd_then_ret.
  - left. rewrite add_entity_eq.
    destruct (Dict.get (entity_key n ty) (entities st)); reflexivity.
  - left. rewrite add_relationship_eq.
    destruct (orb _ _);
      [|destruct (Dict.get (relationship_key a b t) (relationships st))];
      reflexivity.
  - right. rewrite add_thread_eq. cbv zeta. cbn [snd threads].
    destruct (Dict.get tid (threads st)) as [th|] eqn:E.
    + eexists tid, _, th. split; [reflexivity|]. split; [now left|].
      cbn. repeat split. now left.
    + eexists tid, _, (mkConversationThread tid subj [] [] 0 []).
      split; [reflexivity|]. split; [right; repeat split; assumption|].
      cbn. repeat split. now left.
  - right.
    destruct (add_message_scan mid tid sd rcp subj body agent st)
      as (ids & st_s & E & ->).
    cbn [snd threads entities]. rewrite set_set.
    destruct (scan_entities_entries (entities st) body
                (mkStore (entities st) (relationships st)
                   (Dict.set tid
                      match Dict.get tid (threads st) with
                      | Some th =>
                          mkConversationThread (thread_id th) (subject th)
                            (participants th) (messages th)
                            (clock (reads st)) (topics th)
                      | None =>
                          mkConversationThread tid subj [] []
                                               (clock (reads st)) []
                      end (threads st))
                   (S (S (reads st)))))
      as (ids' & st' & E' & _ & _ & _ & Hkeys & Hids & _).
    { intros k e H. simpl. now apply (entry_mem k e). }
    rewrite E in E'. injection E' as <- <-. simpl in Hkeys.
    assert (Hmem : forall id, In id ids ->
                              Dict.mem id (entities st_s) = true).
    { intros id Hid. apply mem_In_keys. rewrite Hkeys. now apply Hids. }
    destruct (Dict.get tid (threads st)) as [th|] eqn:G.
    + eexists tid, _, th. split; [reflexivity|]. split; [now left|].
      cbn. repeat split. right. eexists. repeat split. exact Hmem.
    + eexists tid, _, (mkConversationThread tid subj [] [] 0 []).
      split; [reflexivity|]. split; [right; repeat split; assumption|].
      cbn. repeat split. right. eexists. repeat split. exact Hmem.
  - left. unfold extract_entities_from_text, bind, get_store.
    destruct (scan_entities_entries (entities st) text st)
      as (ids & st' & E & _ & Ht & _).
    { intros k e H. now apply (entry_mem k e). }
    now rewrite E.
  - rewrite analyze_thread_topics_eq.
    destruct (Dict.get tid (threads st)) as [th|] eqn:E; [|now left].
    right. cbv zeta. cbn [snd threads].
    eexists tid, _, th. split; [reflexivity|]. split; [now left|].
    cbn. repeat split. now left.
Qed.

(** ** What one call preserves *)

Lemma fold_set_add_In (l s : list string) (x : string) :
  In x (fold_left (fun acc y => set_add y acc) l s) <-> In x s \/ In x l.
Proof.
  revert s. induction l as [|y l IH]; intros s; simpl.
  - tauto.
  - rewrite IH, set_add_In. intuition.
Qed.

Lemma same_thread_refl (th : ConversationThread) : same_thread th th.
Proof.
  repeat split; [apply incl_refl|]. exists []. now rewrite app_nil_r.
Qed.

Lemma same_thread_trans (t1 t2 t3 : ConversationThread) :
  same_thread t1 t2 -> same_thread t2 t3 -> same_thread t1 t3.
Proof.
  intros (A1 & A2 & A3 & m1 & A4) (B1 & B2 & B3 & m2 & B4).
  repeat split; try congruence.
  - eapply incl_tran; eassumption.
  - exists (m1 ++ m2)%list. now rewrite B4, A4, app_assoc.
Qed.

Lemma same_edge_refl (r : Relationship) : same_edge r r.
Proof. repeat split. Qed.

Lemma same_edge_trans (r1 r2 r3 : Relationship) :
  same_edge r1 r2 -> same_edge r2 r3 -> same_edge r1 r3.
Proof.
  intros (A1 & A2 & A3 & A4 & A5) (B1 & B2 & B3 & B4 & B5).
  repeat split; congruence.
Qed.

Lemma op_graph_consistent (o : op) (st : ConversationMemoryStore) :
  graph_consistent st -> graph_consistent (snd (run_op clock o st)).
Proof.
  intros [He Hr]. split.
  - intros k e' Hin.
    destruct (op_entities o st k e' Hin)
      as [(e & Hin0 & (Hn & Ht & _) & _) | (Hk & _)]; [|exact Hk].
    rewrite Hn, Ht. now apply He.
  - intros k r' Hin.
    destruct (op_relationships_cases o st)
      as [E | (a & b & t & Eent & Ha & Hb & E)].
    + rewrite E in Hin. destruct (Hr k r' Hin) as (H1 & H2 & H3).
      repeat split; [apply op_entity_keys | apply op_entity_keys |];
        assumption.
    + rewrite E in Hin. rewrite Eent. apply In_set in Hin.
      destruct Hin as [Heq | Hin]; [|now apply Hr].
      injection Heq as -> ->.
      destruct (Dict.get (relationship_key a b t) (relationships st))
        as [r|] eqn:G.
      * apply get_In in G. destruct (Hr _ _ G) as (H1 & H2 & H3).
        cbn. repeat split; assumption.
      * cbn. repeat split; assumption.
Qed.

Lemma op_threads_consistent (o : op) (st : ConversationMemoryStore) :
  threads_consistent st -> threads_consistent (snd (run_op clock o st)).
Proof.
  intros H k th Hin.
  destruct (op_threads_cases o st)
    as [E | (tid & th' & base & E & Hbase & Hid & _ & Hmsgs)].
  - rewrite E in Hin. destruct (H k th Hin) as (H1 & H2).
    split; [exact H1|]. intros m Hm.
    destruct (H2 m Hm) as (? & ? & ? & Hmem).
    repeat split; try assumption.
    intros id Hi. apply op_entity_keys. now apply Hmem.
  - rewrite E in Hin. apply In_set in Hin.
    destruct Hin as [Heq | Hin].
    + injection Heq as -> ->.
      assert (Hb : thread_id base = tid
                   /\ forall m, In m (messages base) ->
                        msg_thread_id m = tid
                        /\ In (sender m) (participants base)
                        /\ incl (recipients m) (participants base)
                        /\ forall id, In id (msg_entities m) ->
                                      Dict.mem id (entities st) = true).
      { destruct Hbase as [G | (G & Ht & Hp & Hm)].
        - apply get_In in G. exact (H _ _ G).
        - split; [exact Ht|]. rewrite Hm. intros m []. }
      destruct Hb as (Hbt & Hbm). split; [congruence|].
      intros m Hm.
      destruct Hmsgs as [(Ep & Em) | (msg & Em & Ep & Emt & Hment)].
      * rewrite Em in Hm. rewrite Ep.
        destruct (Hbm m Hm) as (? & ? & ? & Hmem).
        repeat split; try assumption.
        intros id Hi. apply op_entity_keys. now apply Hmem.
      * rewrite Em in Hm. rewrite Ep. apply in_app_or in Hm.
        destruct Hm as [Hm | [<- | []]].
        -- destruct (Hbm m Hm) as (H1 & H2 & H3 & Hmem).
           split; [exact H1|]. split.
           { apply fold_set_add_In. left. apply set_add_In. now right. }
           split.
           { intros x Hx. apply fold_set_add_In. left. apply set_add_In.
             right. now apply H3. }
           intros id Hi. apply op_entity_keys. now apply Hmem.
        -- split; [exact Emt|]. split.
           { apply fold_set_add_In. left. apply set_add_In. now left. }
           split.
           { intros x Hx. apply fold_set_add_In. now right. }
           exact Hment.
    + destruct (H k th Hin) as (H1 & H2).
      split; [exact H1|]. intros m Hm.
      destruct (H2 m Hm) as (? & ? & ? & Hmem).
      repeat split; try assumption.
      intros id Hi. apply op_entity_keys. now apply Hmem.
Qed.

Lemma op_containers_proper (o : op) (st : ConversationMemoryStore) :
  containers_proper st -> containers_proper (snd (run_op clock o st)).
Proof.
  intros (We & Wr & Wt & Ha & Hp). repeat split.
  - now apply op_entity_keys.
  - destruct (op_relationships_cases o st)
      as [E | (a & b & t & _ & _ & _ & E)]; rewrite E;
      [assumption | now apply wf_set].
  - destruct (op_threads_cases o st)
      as [E | (tid & th' & base & E & _)]; rewrite E;
      [assumption | now apply wf_set].
  - intros k e' Hin.
    destruct (op_entities o st k e' Hin)
      as [(e & Hin0 & _ & Hnd) | (_ & Hnd & _)]; [|exact Hnd].
    apply Hnd. now apply (Ha k).
  - intros k th Hin.
    destruct (op_threads_cases o st)
      as [E | (tid & th' & base & E & Hbase & _ & _ & Hmsgs)].
    + rewrite E in Hin. now apply (Hp k).
    + rewrite E in Hin. apply In_set in Hin.
      destruct Hin as [Heq | Hin]; [|now apply (Hp k)].
      injection Heq as -> ->.
      assert (Hb : NoDup (participants base)).
      { destruct Hbase as [G | (_ & _ & -> & _)]; [|constructor].
        apply get_In in G. now apply (Hp tid). }
      destruct Hmsgs as [(-> & _) | (msg & _ & -> & _)]; [exact Hb|].
      apply fold_set_add. now apply NoDup_set_add.
Qed.

Lemma reachable_step (o : op) (st : ConversationMemoryStore) :
  reachable clock st -> reachable clock (snd (run_op clock o st)).
Proof.
  intros [ops ->]. exists (ops ++ [o])%list. now rewrite run_ops_snoc.
Qed.

Lemma reachable_containers_proper (st : ConversationMemoryStore) :
  reachable clock st -> containers_proper st.
Proof.
  apply reachable_ind.
  - repeat split; try constructor; intros ? ? [].
  - intros o s _ Hs. now apply op_containers_proper.
Qed.

Lemma op_relationship_persists (o : op) (st : ConversationMemoryStore)
      (k : string) (r : Relationship) :
  Dict.get k (relationships st) = Some r ->
  exists r', Dict.get k (relationships (snd (run_op clock o st))) = Some r'
             /\ same_edge r r'.
Proof.
  intros G.
  destruct (op_relationships_cases o st)
    as [E | (a & b & t & _ & _ & _ & E)]; rewrite E.
  - exists r. split; [exact G | apply same_edge_refl].
  - destruct (String.eqb_spec (relationship_key a b t) k) as [<- | Hne].
    + rewrite get_set_same, G. eexists. split; [reflexivity|].
      repeat split.
    + rewrite get_set_other by exact Hne.
      exists r. split; [exact G | apply same_edge_refl].
Qed.

Lemma op_thread_persists (o : op) (st : ConversationMemoryStore)
      (k : string) (th : ConversationThread) :
  Dict.get k (threads st) = Some th ->
  exists th', Dict.get k (threads (snd (run_op clock o st))) = Some th'
              /\ same_thread th th'.
Proof.
  intros G.
  destruct (op_threads_cases o st)
    as [E | (tid & th' & base & E & Hbase & Hid & Hsubj & Hmsgs)];
    rewrite E.
  - exists th. split; [exact G | apply same_thread_refl].
  - destruct (String.eqb_spec tid k) as [<- | Hne].
    + rewrite get_set_same. exists th'. split; [reflexivity|].
      destruct Hbase as [G' | (G' & _)]; [|congruence].
      assert (base = th) by congruence. subst base.
      split; [exact Hid|]. split; [exact Hsubj|].
      destruct Hmsgs as [(-> & ->) | (msg & -> & -> & _)].
      * split; [apply incl_refl|]. exists []. now rewrite app_nil_r.
      * split; [|now exists [msg]].
        intros x Hx. apply fold_set_add_In. left. apply set_add_In.
        now right.
    + rewrite get_set_other by exact Hne.
      exists th. split; [exact G | apply same_thread_refl].
Qed.

(** ** Stores built through the store's own methods *)

(** X16.  In a store built from the empty one through the store's methods,
    every entity is filed under the id computed from its own name and type,
    and every relationship is filed under the id computed from its own
    endpoints and type, both endpoints being stored entities: there is no
    edge to an entity the store does not hold. *)
Theorem reachable_graph_consistent (st : ConversationMemoryStore) :
  reachable clock st -> graph_consistent st.
Proof.
  apply reachable_ind.
  - split; intros ? ? [].
  - intros o s _ Hs. now apply op_graph_consistent.
Qed.

(** X17.  In such a store every thread is filed under its own id, and each
    of its messages names that thread, has its sender and all its recipients
    among the thread's participants, and mentions only ids of stored
    entities. *)
Theorem reachable_threads_consistent (st : ConversationMemoryStore) :
  reachable clock st -> threads_consistent st.
Proof.
  apply reachable_ind.
  - intros ? ? [].
  - intros o s _ Hs. now apply op_threads_consistent.
Qed.

(** X18.  No sequence of calls removes or renames anything: whatever calls
    follow, an entity stays under its id with its name, type, metadata,
    first-seen time and every alias it had; a relationship stays under its
    id with its endpoints, type, metadata and first-seen time; a thread
    stays under its id with its subject, its participants, and its messages
    as a prefix of the later ones. *)
Theorem nothing_is_removed (ops : list op) (st : ConversationMemoryStore) :
  reachable clock st ->
  (forall k e, Dict.get k (entities st) = Some e ->
     exists e', Dict.get k (entities (run_ops clock ops st)) = Some e'
                /\ same_entity e e')
  /\ (forall k r, Dict.get k (relationships st) = Some r ->
        exists r', Dict.get k (relationships (run_ops clock ops st)) = Some r'
                   /\ same_edge r r')
  /\ (forall k th, Dict.get k (threads st) = Some th ->
        exists th', Dict.get k (threads (run_ops clock ops st)) = Some th'
                    /\ same_thread th th').
Proof.
  intros Hreach.
  induction ops as [|o ops IH] using rev_ind.
  - repeat split; intros k x G; exists x; (split; [exact G|]);
      [apply same_entity_refl | apply same_edge_refl | apply same_thread_refl].
  - rewrite run_ops_snoc. destruct IH as (IHe & IHr & IHt).
    assert (Hwf : Dict.wf (entities (run_ops clock ops st))).
    { destruct Hreach as [ops0 ->]. unfold run_ops.
      rewrite <- fold_left_app.
      apply (reachable_containers_proper
               (run_ops clock (ops0 ++ ops) empty_store)).
      now exists (ops0 ++ ops)%list. }
    repeat split.
    + intros k e G. destruct (IHe k e G) as (e1 & G1 & S1).
      destruct (op_entity_persists o _ k e1 Hwf G1) as (e2 & G2 & S2).
      exists e2. split; [exact G2|]. eapply same_entity_trans; eassumption.
    + intros k r G. destruct (IHr k r G) as (r1 & G1 & S1).
      destruct (op_relationship_persists o _ k r1 G1) as (r2 & G2 & S2).
      exists r2. split; [exact G2|]. eapply same_edge_trans; eassumption.
    + intros k th G. destruct (IHt k th G) as (t1 & G1 & S1).
      destruct (op_thread_persists o _ k t1 G1) as (t2 & G2 & S2).
      exists t2. split; [exact G2|]. eapply same_thread_trans; eassumption.
Qed.

End Store.

Lemma reachable_graph_consistent_witness :
  reachable tick acme_store /\ graph_consistent acme_store.
Proof.
  assert (H : reachable tick acme_store) by (exists acme_calls; reflexivity).
  split; [exact H|].
  exact (reachable_graph_consistent tick acme_store H).
Defined.

Lemma reachable_threads_consistent_witness :
  reachable tick acme_store /\ threads_consistent acme_store.
Proof.
  assert (H : reachable tick acme_store) by (exists acme_calls; reflexivity).
  split; [exact H|].
  exact (reachable_threads_consistent tick acme_store H).
Defined.

Lemma nothing_is_removed_witness :
  reachable tick acme_store
  /\ forall k th, Dict.get k (threads acme_store) = Some th ->
       exists th',
         Dict.get k (threads
                       (run_ops tick [AnalyzeThreadTopics "t1";
                                      AddThread "t1" "Another subject"]
                                acme_store)) = Some th'
         /\ same_thread th th'.
Proof.
  assert (H : reachable tick acme_store) by (exists acme_calls; reflexivity).
  split; [exact H|].
  exact (proj2 (proj2 (nothing_is_removed tick _ acme_store H))).
Defined.

End MemoryInvariants.

(* ================================================================== *)
(** * What [process_email] does to the store *)
(* ================================================================== *)

Module IntegrationFlow.

Import Memory DictProofs MemoryProofs Integration IntegrationProofs.
Import MemoryLookups MemoryInvariants.
Local Open Scope monad_scope.

(** ** Computations that do not touch the messages *)

Lemma keeps_ret {A} (a : A) : keeps_messages (ret a).
Proof. intros st id. reflexivity. Qed.

Lemma keeps_raise {A} (e : exn) : keeps_messages (raise (A := A) e).
Proof. intros st id. reflexivity. Qed.

Lemma keeps_get_store : keeps_messages get_store.
Proof. intros st id. reflexivity. Qed.

Lemma keeps_bind {A B} (c : M A) (k : A -> M B) :
  keeps_messages c -> (forall a, keeps_messages (k a)) ->
  keeps_messages (bind c k).
Proof.
  intros Hc Hk st id. unfold bind. specialize (Hc st id).
  destruct (c st) as [[a|e] st']; simpl in *; [|exact Hc].
  now rewrite Hk.
Qed.

Lemma keeps_try_except {A} (c : M A) (h : exn -> M A) :
  keeps_messages c -> (forall e, keeps_messages (h e)) ->
  keeps_messages (try_except c h).
Proof.
  intros Hc Hh st id. unfold try_except. specialize (Hc st id).
  destruct (c st) as [[a|e] st']; simpl in *; [exact Hc|].
  now rewrite Hh.
Qed.

Lemma keeps_for_each {A} (l : list A) (body : A -> M unit) :
  (forall x, In x l -> keeps_messages (body x)) ->
  keeps_messages (for_each l body).
Proof.
  induction l as [|x l IH]; intros H; simpl; [apply keeps_ret|].
  apply keeps_bind; [apply H; now left|].
  intros _. apply IH. intros y Hy. apply H. now right.
Qed.

Lemma keeps_same_threads {A} (c : M A) :
  (forall st, threads (snd (c st)) = threads st) -> keeps_messages c.
Proof. intros H st id. unfold messages_of. now rewrite H. Qed.

Section Extractors.

Variable clock : nat -> Z.
Variable re_findall : string -> string -> list string.
Variable re_match_group : string -> string -> option string.
Variable re_search_group : string -> string -> option string.
Variable re_sub : string -> string -> string -> string.
Variable re_search : string -> string -> option bool.
Variable extract_content : Gmail.Message -> string.
Variable strftime_local : Z -> string.

Lemma keeps_time : keeps_messages (time clock).
Proof. apply keeps_same_threads. reflexivity. Qed.

Lemma keeps_add_entity (n ty : string) (al : option (list string)) :
  keeps_messages (add_entity clock n ty al).
Proof.
  apply keeps_same_threads. intros st. rewrite add_entity_eq.
  destruct (Dict.get (entity_key n ty) (entities st)); reflexivity.
Qed.

Lemma keeps_add_relationship (a b t : string) :
  keeps_messages (add_relationship clock a b t).
Proof.
  apply keeps_same_threads. intros st. rewrite add_relationship_eq.
  destruct (orb _ _);
    [|destruct (Dict.get (relationship_key a b t) (relationships st))];
    reflexivity.
Qed.

Lemma keeps_extract_entities_from_text (text : string) :
  keeps_messages (extract_entities_from_text clock text).
Proof.
  apply keeps_same_threads. intros st.
  unfold extract_entities_from_text, bind, get_store.
  destruct (scan_entities_frame clock (entities st) text st)
    as (ids & ents & n & ->).
  reflexivity.
Qed.

Lemma keeps_analyze_thread_topics (tid : string) :
  keeps_messages (analyze_thread_topics tid).
Proof.
  intros st id. rewrite analyze_thread_topics_eq.
  destruct (Dict.get tid (threads st)) as [th|] eqn:E; [|reflexivity].
  cbv zeta. cbn [snd]. rewrite messages_of_set.
  destruct (String.eqb_spec tid id) as [<-|Hne]; [|reflexivity].
  unfold messages_of. now rewrite E.
Qed.

Lemma keeps_then_unit {A} (c : M A) :
  keeps_messages c -> keeps_messages (c ;;; ret tt).
Proof.
  intros H. apply keeps_bind; [exact H|]. intros _. apply keeps_ret.
Qed.

Lemma keeps_for_matches (patterns : list string) (content : string)
      (body : string -> M unit) :
  (forall m, keeps_messages (body m)) ->
  keeps_messages (for_matches re_findall patterns content body).
Proof.
  intros H. unfold for_matches. apply keeps_for_each. intros p _.
  apply keeps_for_each. intros m _. apply H.
Qed.

Lemma keeps_extract_entities_from_email (content sender subject : string) :
  keeps_messages
    (_extract_entities_from_email clock re_findall re_match_group
       re_search_group re_sub content sender subject).
Proof.
  unfold _extract_entities_from_email.
  apply keeps_bind; [|intros _].
  { unfold extract_sender.
    destruct (Str.nonempty sender); [|apply keeps_ret].
    destruct (re_match_group _ sender); [|apply keeps_ret].
    apply keeps_bind; [apply keeps_add_entity|]. intros _.
    destruct (re_search_group _ sender); [|apply keeps_ret].
    destruct (andb _ _); [|apply keeps_ret].
    apply keeps_bind; [apply keeps_add_entity|]. intros _.
    apply keeps_then_unit. apply keeps_add_relationship. }
  apply keeps_bind; [|intros _].
  { apply keeps_for_matches. intros m. unfold extract_named.
    destruct (andb _ _); [|apply keeps_ret].
    apply keeps_then_unit. apply keeps_add_entity. }
  apply keeps_bind; [|intros _].
  { apply keeps_for_matches. intros m. unfold extract_named.
    destruct (andb _ _); [|apply keeps_ret].
    apply keeps_then_unit. apply keeps_add_entity. }
  apply keeps_bind; [|intros _].
  { apply keeps_for_matches. intros m. unfold extract_person.
    destruct (andb _ _); [|apply keeps_ret].
    apply keeps_then_unit. apply keeps_add_entity. }
  apply keeps_bind; [|intros _].
  { unfold extract_topic.
    destruct (Str.nonempty subject); [|apply keeps_ret].
    destruct (Str.nonempty _); [|apply keeps_ret].
    apply keeps_then_unit. apply keeps_add_entity. }
  apply keeps_for_matches. intros m. unfold extract_date.
  destruct (Str.nonempty _); [|apply keeps_ret].
  apply keeps_then_unit. unfold call_add_entity.
  destruct (find _ _); [apply keeps_raise | apply keeps_add_entity].
Qed.

Lemma keeps_search (pattern content : string) :
  keeps_messages (search re_search pattern content).
Proof.
  unfold search. destruct (re_search pattern content);
    [apply keeps_ret | apply keeps_raise].
Qed.

Lemma keeps_first_matching (content a b p1 t1 p2 t2 : string) :
  keeps_messages (first_matching clock re_search content a b p1 t1 p2 t2).
Proof.
  unfold first_matching. apply keeps_bind; [apply keeps_search|].
  intros [|]; [apply keeps_then_unit, keeps_add_relationship|].
  apply keeps_bind; [apply keeps_search|].
  intros [|]; [apply keeps_then_unit, keeps_add_relationship|].
  apply keeps_ret.
Qed.

Lemma keeps_extract_relationships (content sender : string) :
  keeps_messages (_extract_relationships clock re_search content sender).
Proof.
  unfold _extract_relationships.
  apply keeps_bind; [apply keeps_extract_entities_from_text|].
  intros ids. apply keeps_for_each. intros [i a] _.
  apply keeps_bind; [apply keeps_get_store|]. intros s.
  destruct (get_entity_info s a) as [e1|]; [|apply keeps_ret].
  apply keeps_for_each. intros [j b] _.
  destruct (i =? j)%nat; [apply keeps_ret|].
  apply keeps_bind; [apply keeps_get_store|]. intros s'.
  destruct (get_entity_info s' b) as [e2|]; [|apply keeps_ret].
  unfold relate.
  repeat (destruct (andb _ _); [apply keeps_first_matching|]).
  apply keeps_ret.
Qed.

Lemma same_threads_bind {A B} (c : M A) (k : A -> M B) :
  (forall st, threads (snd (c st)) = threads st) ->
  (forall a st, threads (snd (k a st)) = threads st) ->
  forall st, threads (snd (bind c k st)) = threads st.
Proof.
  intros Hc Hk st. unfold bind. specialize (Hc st).
  destruct (c st) as [[a|e] st']; simpl in *; [|exact Hc].
  now rewrite Hk.
Qed.

Lemma action_items_same_threads (content : string) :
  forall st,
    threads (snd (_extract_action_items clock re_findall content st))
    = threads st.
Proof.
  unfold _extract_action_items.
  generalize (flat_map (fun pattern => re_findall pattern content)
                       action_patterns).
  intros l.
  assert (H : forall st,
             threads (snd (ret (A := list ActionItem) [] st)) = threads st)
    by reflexivity.
  revert H. generalize (ret (A := list ActionItem) []).
  induction l as [|m l IH]; intros acc Hacc; simpl; [assumption|].
  apply IH. apply same_threads_bind; [assumption|].
  intros items. destruct (andb _ _); reflexivity.
Qed.

Lemma keeps_action_items (content : string) :
  keeps_messages (_extract_action_items clock re_findall content).
Proof. apply keeps_same_threads, action_items_same_threads. Qed.





Lemma keeps_relevant_entities (content : string) :
  keeps_messages (_get_relevant_entities clock content).
Proof.
  unfold _get_relevant_entities. apply keeps_try_except.
  - apply keeps_bind; [apply keeps_extract_entities_from_text|].
    intros ids. apply keeps_bind; [apply keeps_get_store|].
    intros s. apply keeps_ret.
  - intros e. apply keeps_ret.
Qed.

(** X19.  [process_email] always returns a context and always files the
    e-mail: whatever the extractors do afterwards, and also when one of
    them raises and the fall-back context is returned, the thread of the
    e-mail has gained exactly one message at its end, carrying the e-mail's
    id, sender, subject, content (or the placeholder for an empty one) and
    the [is_from_agent] flag, and no other thread's messages have changed. *)
Theorem process_email_files_the_message :
  forall (email_data : Gmail.Message) (agent : bool)
         (st : ConversationMemoryStore),
    exists ctx st' msg,
      process_email clock re_findall re_match_group re_search_group re_sub
                    re_search extract_content strftime_local email_data
                    agent st
      = (Ok ctx, st')
      /\ messages_of st' (Gmail.threadId email_data)
         = (messages_of st (Gmail.threadId email_data) ++ [msg])%list
      /\ message_id msg = Gmail.id email_data
      /\ msg_thread_id msg = Gmail.threadId email_data
      /\ sender msg = header_or_empty "from" email_data
      /\ msg_subject msg = header_or_empty "subject" email_data
      /\ content msg
         = (if Str.nonempty (extract_content email_data)
            then extract_content email_data
            else "[No content available]")
      /\ is_from_agent msg = agent
      /\ forall id, id <> Gmail.threadId email_data ->
                    messages_of st' id = messages_of st id.
Proof.
  intros email_data agent st. unfold process_email. cbv zeta.
  set (body := if Str.nonempty (extract_content email_data)
               then extract_content email_data
               else "[No content available]").
  set (tid := Gmail.threadId email_data).
  unfold try_except.
  match goal with
  | |- context [bind ?c ?k st] =>
      set (first := c); set (rest := k)
  end.
  assert (Hrest : forall a, keeps_messages (rest a)).
  { intros a. unfold rest.
    apply keeps_bind; [apply keeps_extract_entities_from_email|]. intros _.
    apply keeps_bind; [apply keeps_extract_relationships|]. intros _.
    apply keeps_bind; [apply keeps_analyze_thread_topics|]. intros topics.
    apply keeps_bind; [apply keeps_action_items|]. intros items.
    apply keeps_bind; [apply keeps_get_store|]. intros s.
    apply keeps_bind; [apply keeps_relevant_entities|]. intros ents.
    apply keeps_ret. }
  assert (Hfirst : exists msg st1,
             first st = (Ok msg, st1)
             /\ (forall id, messages_of st1 id
                            = if String.eqb tid id
                              then (messages_of st tid ++ [msg])%list
                              else messages_of st id)
             /\ message_id msg = Gmail.id email_data
             /\ msg_thread_id msg = tid
             /\ sender msg = header_or_empty "from" email_data
             /\ msg_subject msg = header_or_empty "subject" email_data
             /\ content msg = body
             /\ is_from_agent msg = agent).
  { unfold first.
    match goal with
    | |- context [add_message clock ?mid ?t ?sd ?rcp ?subj ?b ?ag st] =>
        destruct (add_message_eq clock mid t sd rcp subj b ag st)
          as (ids & ents & n & E)
    end.
    cbv zeta in E. rewrite E. eexists. eexists.
    split; [reflexivity|]. split; [|repeat split].
    intros id. rewrite messages_of_set_set.
    destruct (String.eqb tid id); [|reflexivity].
    unfold messages_of. destruct (Dict.get tid (threads st)); reflexivity. }
  destruct Hfirst as (msg & st1 & E1 & Hm & H1 & H2 & H3 & H4 & H5 & H6).
  assert (Hend : forall id,
             messages_of (snd (bind first rest st)) id
             = messages_of st1 id).
  { intros id. unfold bind. rewrite E1. apply Hrest. }
  destruct (bind first rest st) as [[ctx|e] st'] eqn:E; cbn [snd] in Hend.
  - exists ctx, st', msg. split; [reflexivity|].
    split; [rewrite Hend, Hm; now rewrite String.eqb_refl|].
    repeat (split; [assumption|]).
    intros id Hne. rewrite Hend, Hm.
    destruct (String.eqb_spec tid id) as [->|_]; [now elim Hne|reflexivity].
  - eexists. exists st', msg. split; [reflexivity|].
    split; [rewrite Hend, Hm; now rewrite String.eqb_refl|].
    repeat (split; [assumption|]).
    intros id Hne. rewrite Hend, Hm.
    destruct (String.eqb_spec tid id) as [->|_]; [now elim Hne|reflexivity].
Qed.

(** ** The relationship rules *)







(** ** Action items *)

Lemma action_items_fold (l : list string) :
  forall (acc : M (list ActionItem)) (st st0 : ConversationMemoryStore)
         (items0 : list ActionItem),
    acc st = (Ok items0, st0) ->
    exists items1,
      fold_left
        (fun acc m =>
           action_items <- acc ;;
           let item := Str.strip m in
           if andb (Str.nonempty item) (10 <? String.length item)%nat
           then
             now <- time clock ;;
             ret (action_items ++ [mkActionItem item false "email" now])%list
           else ret action_items)
        l acc st
      = (Ok (items0 ++ items1)%list,
         mkStore (entities st0) (relationships st0) (threads st0)
                 (reads st0 + List.length items1))
      /\ map text items1
         = filter (fun s => andb (Str.nonempty s)
                                 (10 <? String.length s)%nat)
                  (map Str.strip l)
      /\ Forall (fun it => is_completed it = false /\ source it = "email")
                items1
      /\ map created_at items1
         = map clock (seq (reads st0) (List.length items1)).
Proof.
  induction l as [|m l IH]; intros acc st st0 items0 Hacc; simpl.
  - exists []. rewrite Hacc, app_nil_r. simpl. rewrite Nat.add_0_r.
    destruct st0; repeat split; constructor.
  - destruct (andb (Str.nonempty (Str.strip m))
                   (10 <? String.length (Str.strip m))%nat) eqn:Hlong.
    + match goal with
      | |- context [fold_left ?f l ?a st] =>
          destruct (IH a st
                      (mkStore (entities st0) (relationships st0)
                               (threads st0) (S (reads st0)))
                      (items0 ++ [mkActionItem (Str.strip m) false "email"
                                               (clock (reads st0))])%list)
            as (items1 & E & Ht & Hf & Hc)
      end.
      { unfold bind at 1. rewrite Hacc. reflexivity. }
      exists (mkActionItem (Str.strip m) false "email" (clock (reads st0))
                :: items1).
      split.
      { refine (eq_trans E _). cbn [entities relationships threads reads].
        rewrite <- app_assoc. cbn [app List.length].
        now rewrite Nat.add_succ_r. }
      cbn [map List.length seq text created_at].
      split; [now rewrite Ht|]. split; [constructor; auto|].
      now rewrite Hc.
    + match goal with
      | |- context [fold_left ?f l ?a st] =>
          destruct (IH a st st0 items0) as (items1 & E & Ht & Hf & Hc)
      end.
      { unfold bind at 1. rewrite Hacc. reflexivity. }
      exists items1. split; [exact E|]. repeat split; assumption.
Qed.

(** X22.  [_extract_action_items] returns, in the order of the patterns and
    of their matches, one item for every match whose stripped text is longer
    than ten characters, a text matched twice giving two items; every item
    is open, has source "email", and carries its own reading of the clock;
    the store is left as it was. *)
Theorem action_items_are_the_long_matches :
  forall (content : string) (st : ConversationMemoryStore),
    exists items,
      _extract_action_items clock re_findall content st
      = (Ok items,
         mkStore (entities st) (relationships st) (threads st)
                 (reads st + List.length items))
      /\ map text items
         = filter (fun s => andb (Str.nonempty s)
                                 (10 <? String.length s)%nat)
                  (map Str.strip
                       (flat_map (fun pattern => re_findall pattern content)
                                 action_patterns))
      /\ Forall (fun it => is_completed it = false /\ source it = "email")
                items
      /\ map created_at items
         = map clock (seq (reads st) (List.length items)).
Proof.
  intros content st. unfold _extract_action_items.
  destruct (action_items_fold
              (flat_map (fun pattern => re_findall pattern content)
                        action_patterns)
              (ret []) st st [] eq_refl) as (items & E & H).
  exists items. split; [exact E | exact H].
Qed.

End Extractors.


End IntegrationFlow.

(* ================================================================== *)
(** * Saving and loading *)
(* ================================================================== *)

Module PersistenceProofs.

Import Memory DictProofs MemoryProofs MemoryInvariants Persistence.
Local Open Scope loader_scope.

Lemma set_absent {V} (k : string) (v : V) (d : Dict.t V) :
  ~ In k (Dict.keys d) -> Dict.set k v d = (d ++ [(k, v)])%list.
Proof.
  induction d as [|[k' v'] d IH]; simpl; intros H; [reflexivity|].
  destruct (String.eqb_spec k' k) as [->|Hne]; [elim H; now left|].
  rewrite IH; [reflexivity|]. intros Hin. apply H. now right.
Qed.

Lemma fold_set_add_fresh (l acc : list string) :
  NoDup (acc ++ l) ->
  fold_left (fun s x => set_add x s) l acc = (acc ++ l)%list.
Proof.
  revert acc. induction l as [|x l IH]; intros acc H; simpl.
  - now rewrite app_nil_r.
  - assert (Hx : existsb (String.eqb x) acc = false).
    { destruct (existsb (String.eqb x) acc) eqn:E; [|reflexivity].
      apply existsb_exists in E. destruct E as (y & Hy & Heq).
      apply String.eqb_eq in Heq. subst y.
      apply NoDup_remove_2 in H. elim H. apply in_or_app. now left. }
    unfold set_add at 2. rewrite Hx. rewrite IH.
    + now rewrite <- app_assoc.
    + now rewrite <- app_assoc.
Qed.

Lemma set_of_list_id (l : list string) : NoDup l -> set_of_list l = l.
Proof. intros H. unfold set_of_list. now rewrite fold_set_add_fresh. Qed.

Lemma each_app {A} (l1 l2 : list A) (body : A -> Loader unit)
      (st : ConversationMemoryStore) :
  each (l1 ++ l2) body st
  = match each l1 body st with
    | (Some _, st') => each l2 body st'
    | (None, st') => (None, st')
    end.
Proof.
  revert st. induction l1 as [|x l1 IH]; intros st; simpl; [reflexivity|].
  unfold and_then. destruct (body x st) as [[u|] st1]; [|reflexivity].
  apply IH.
Qed.

Section Load.

Variable clock : nat -> Z.

Lemma load_entity_data (e : Entity) (st : ConversationMemoryStore) :
  NoDup (aliases e) ->
  load_entity clock (entity_data e) st
  = (Some e, mkStore (entities st) (relationships st) (threads st)
                     (S (S (reads st)))).
Proof.
  intros H. unfold load_entity, and_then, item, now, done. simpl.
  rewrite set_of_list_id by exact H. now destruct e.
Qed.

Lemma load_relationship_data (r : Relationship)
      (st : ConversationMemoryStore) :
  load_relationship clock (rel_data r) st
  = (Some r, mkStore (entities st) (relationships st) (threads st)
                     (S (S (reads st)))).
Proof.
  unfold load_relationship, and_then, item, now, done. simpl.
  now destruct r.
Qed.

Lemma load_messages_data (tid : string) (msgs : list ConversationMessage) :
  forall (th : ConversationThread) (st : ConversationMemoryStore),
    (forall m, In m msgs -> msg_thread_id m = tid) ->
    load_messages tid (map msg_data msgs) th st
    = (Some (mkConversationThread (thread_id th) (subject th)
                                  (participants th) (messages th ++ msgs)%list
                                  (last_updated th) (topics th)),
       st).
Proof.
  induction msgs as [|m msgs IH]; intros th st H; simpl.
  - unfold done. rewrite app_nil_r. now destruct th.
  - unfold and_then at 1, load_message, and_then, item, done. simpl.
    rewrite IH by (intros x Hx; apply H; now right). simpl.
    rewrite <- app_assoc. simpl.
    rewrite <- (H m (or_introl eq_refl)). now destruct m.
Qed.

Lemma load_thread_data (tid : string) (th : ConversationThread)
      (st : ConversationMemoryStore) :
  thread_id th = tid ->
  NoDup (participants th) ->
  (forall m, In m (messages th) -> msg_thread_id m = tid) ->
  load_thread clock tid (thread_data th) st
  = (Some th, mkStore (entities st) (relationships st) (threads st)
                      (S (reads st))).
Proof.
  intros Hid Hp Hm. unfold load_thread, and_then at 1 2, item, now. simpl.
  rewrite load_messages_data by exact Hm. simpl.
  rewrite set_of_list_id by exact Hp. rewrite <- Hid. now destruct th.
Qed.

Lemma load_entities (items : list (string * Entity)) :
  forall st,
    NoDup (Dict.keys (entities st) ++ Dict.keys items)%list ->
    (forall k e, In (k, e) items -> NoDup (aliases e)) ->
    each (map (fun '(entity_id, entity) => (entity_id, entity_data entity))
              items)
         (fun '(entity_id, entity_data) =>
            entity <- load_entity clock entity_data ;;
            store_entity entity_id entity)
         st
    = (Some tt,
       mkStore (entities st ++ items)%list (relationships st) (threads st)
               (reads st + 2 * List.length items)).
Proof.
  induction items as [|[k e] items IH]; intros st Hnd Ha; simpl.
  - unfold done. rewrite app_nil_r, Nat.add_0_r. now destruct st.
  - unfold and_then at 1 2.
    rewrite load_entity_data by (apply (Ha k); now left).
    unfold store_entity. cbn [entities relationships threads reads].
    rewrite IH.
    + cbn [entities relationships threads reads].
      rewrite set_absent.
      * rewrite <- app_assoc. simpl. f_equal. f_equal. lia.
      * apply NoDup_remove_2 in Hnd. intros Hin. apply Hnd.
        apply in_or_app. now left.
    + cbn [entities]. rewrite set_absent.
      * unfold Dict.keys in *. rewrite map_app, <- app_assoc. exact Hnd.
      * apply NoDup_remove_2 in Hnd. intros Hin. apply Hnd.
        apply in_or_app. now left.
    + intros k' e' H. apply (Ha k'). now right.
Qed.

Lemma load_relationships (items : list (string * Relationship)) :
  forall st,
    NoDup (Dict.keys (relationships st) ++ Dict.keys items)%list ->
    each (map (fun '(rel_id, rel) => (rel_id, rel_data rel)) items)
         (fun '(rel_id, rel_data) =>
            rel <- load_relationship clock rel_data ;;
            store_relationship rel_id rel)
         st
    = (Some tt,
       mkStore (entities st) (relationships st ++ items)%list (threads st)
               (reads st + 2 * List.length items)).
Proof.
  induction items as [|[k r] items IH]; intros st Hnd; simpl.
  - unfold done. rewrite app_nil_r, Nat.add_0_r. now destruct st.
  - unfold and_then at 1 2. rewrite load_relationship_data.
    unfold store_relationship. cbn [entities relationships threads reads].
    rewrite IH.
    + cbn [entities relationships threads reads].
      rewrite set_absent.
      * rewrite <- app_assoc. simpl. f_equal. f_equal. lia.
      * apply NoDup_remove_2 in Hnd. intros Hin. apply Hnd.
        apply in_or_app. now left.
    + cbn [relationships]. rewrite set_absent.
      * unfold Dict.keys in *. rewrite map_app, <- app_assoc. exact Hnd.
      * apply NoDup_remove_2 in Hnd. intros Hin. apply Hnd.
        apply in_or_app. now left.
Qed.

Lemma load_threads (items : list (string * ConversationThread)) :
  forall st,
    NoDup (Dict.keys (threads st) ++ Dict.keys items)%list ->
    (forall k th, In (k, th) items ->
                  thread_id th = k /\ NoDup (participants th)
                  /\ forall m, In m (messages th) -> msg_thread_id m = k) ->
    each (map (fun '(thread_id, thread) => (thread_id, thread_data thread))
              items)
         (fun '(thread_id, thread_data) =>
            thread <- load_thread clock thread_id thread_data ;;
            store_thread thread_id thread)
         st
    = (Some tt,
       mkStore (entities st) (relationships st) (threads st ++ items)%list
               (reads st + List.length items)).
Proof.
  induction items as [|[k th] items IH]; intros st Hnd Hth; simpl.
  - unfold done. rewrite app_nil_r, Nat.add_0_r. now destruct st.
  - unfold and_then at 1 2.
    destruct (Hth k th (or_introl eq_refl)) as (H1 & H2 & H3).
    rewrite load_thread_data by assumption.
    unfold store_thread. cbn [entities relationships threads reads].
    rewrite IH.
    + cbn [entities relationships threads reads].
      rewrite set_absent.
      * rewrite <- app_assoc. simpl. f_equal. f_equal. lia.
      * apply NoDup_remove_2 in Hnd. intros Hin. apply Hnd.
        apply in_or_app. now left.
    + cbn [threads]. rewrite set_absent.
      * unfold Dict.keys in *. rewrite map_app, <- app_assoc. exact Hnd.
      * apply NoDup_remove_2 in Hnd. intros Hin. apply Hnd.
        apply in_or_app. now left.
    + intros k' th' H. apply (Hth k'). now right.
Qed.

(** X23.  What [save] writes, [load] reads back: for a store whose
    containers hold their keys and elements once and whose threads and
    messages carry the id they are filed under, loading the saved document
    into a new store gives the same entities, relationships and threads, in
    the same order. *)
Theorem load_after_save :
  forall (st : ConversationMemoryStore) (r : nat),
    containers_proper st ->
    threads_consistent st ->
    entities (load clock (Some (save_data st)) (mkStore [] [] [] r))
    = entities st
    /\ relationships (load clock (Some (save_data st)) (mkStore [] [] [] r))
       = relationships st
    /\ threads (load clock (Some (save_data st)) (mkStore [] [] [] r))
       = threads st.
Proof.
  intros st r (We & Wr & Wt & Ha & Hp) Hth.
  assert (E : exists n,
             load clock (Some (save_data st)) (mkStore [] [] [] r)
             = mkStore (entities st) (relationships st) (threads st) n).
  { unfold load, load_data, save_data. cbn [get_or data_entities
      data_relationships data_threads].
    unfold and_then at 1. rewrite load_entities; [| exact We | exact Ha].
    unfold and_then at 1. rewrite load_relationships; [| exact Wr].
    rewrite load_threads; [| exact Wt |].
    - cbn [snd entities relationships threads reads app]. eexists.
      reflexivity.
    - intros k th Hin. destruct (Hth k th Hin) as (H1 & H2).
      split; [exact H1|]. split; [now apply (Hp k)|].
      intros m Hm. now destruct (H2 m Hm). }
  destruct E as (n & ->). repeat split.
Qed.

(** X24.  An entity entry without a name or without a type ends the load:
    the entries listed before it are loaded as if the document ended there,
    and nothing that follows it is, neither the later entities nor any
    relationship or thread of the document. *)
Theorem load_stops_at_incomplete_entity :
  forall (before after : Dict.t EntityData) (k : string) (d : EntityData)
         (rels : option (Dict.t RelationshipData))
         (ths : option (Dict.t ThreadData))
         (st : ConversationMemoryStore),
    e_name d = None \/ e_type d = None ->
    load clock (Some (mkData (Some (before ++ (k, d) :: after)%list) rels ths)) st
    = load clock (Some (mkData (Some before) None None)) st.
Proof.
  intros before after k d rels ths st Hd.
  unfold load, load_data. cbn [get_or data_entities data_relationships
    data_threads].
  assert (E : forall s, load_entity clock d s = (None, s)).
  { intros s. unfold load_entity, and_then, item.
    destruct Hd as [-> | Ht]; [reflexivity|].
    rewrite Ht. now destruct (e_name d). }
  match goal with
  | |- context [each before ?b] => set (body := b)
  end.
  unfold and_then. rewrite each_app.
  destruct (each before body st) as [[u|] st1]; [|reflexivity].
  cbn [each]. unfold body. cbv beta iota. unfold and_then.
  rewrite E. reflexivity.
Qed.

End Load.

Lemma load_after_save_witness :
  entities (load tick (Some (save_data acme_store)) (mkStore [] [] [] 0))
  = entities acme_store
  /\ relationships (load tick (Some (save_data acme_store))
                         (mkStore [] [] [] 0))
     = relationships acme_store
  /\ threads (load tick (Some (save_data acme_store)) (mkStore [] [] [] 0))
     = threads acme_store.
Proof.
  assert (H : reachable tick acme_store) by (exists acme_calls; reflexivity).
  apply (load_after_save tick acme_store 0).
  - exact (reachable_containers_proper tick acme_store H).
  - revert H. apply (reachable_ind tick).
    + intros ? ? [].
    + intros o s _ Hs. now apply op_threads_consistent.
Defined.

Lemma load_stops_at_incomplete_entity_witness :
  load tick (Some damaged_data) empty_store
  = load tick
         (Some (mkData
                  (Some [("person_alice_smith",
                          mkEntityData (Some "Alice Smith") (Some "person")
                                       None None None None)])
                  None None))
         empty_store.
Proof.
  apply (load_stops_at_incomplete_entity tick
           [("person_alice_smith",
             mkEntityData (Some "Alice Smith") (Some "person") None None
                          None None)]).
  right. reflexivity.
Defined.

End PersistenceProofs.
